(** * WinJS CommandingSurface: adaptive layout engine

    A shallow embedding of the layout part of
    [src/js/WinJS/Controls/CommandingSurface] (the class [_CommandingSurface]):
    the measurement cache, the priority partition of primary commands, the
    projection of overflowing commands into menu entries, the staged layout
    pipeline, the keyboard focus traversal and the [closedDisplayMode]
    property; then the element tree of the action area, the construction
    of a control, the [data] property with the batching of refreshes, and
    the rendering of the state classes of the root.

    Conventions of the embedding.
    - Widths and priorities are JavaScript numbers that hold integers; they
      are modelled by [Z].  Where the source can read [undefined] and feed it
      to arithmetic, the type [number] adds [NaN].  Widths are pixel counts
      of the page, on which the arithmetic of doubles is exact.  A priority
      is any number the application assigns: the one operation on it,
      [priority - 1], rounds as doubles do.
    - [element.style.display] is a string; the source only ever writes
      ["none"] or the empty string to it.
    - Every command and every menu entry owns its element, so the display of
      an element is a field of the record that stands for its owner.
    - A method that can throw (a property read on [undefined]) returns a
      [Completion]; one that throws an error with a name returns a
      [Result].
    - In the part on the element tree an element is an identity, and the
      displays are read through a store, so that an element reached from
      two places has one display. *)

From stdpp Require Import gmap strings list sorting.

Local Open Scope Z_scope.

(** ** Constants ([_Constants.ts]) *)

Inductive CommandType :=
  | typeSeparator
  | typeContent
  | typeButton
  | typeToggle
  | typeFlyout.

Global Instance CommandType_eq_dec : EqDecision CommandType.
Proof. solve_decision. Defined.

Definition isSeparator (t : CommandType) : bool :=
  match t with typeSeparator => true | _ => false end.

Definition secondaryCommandSection : string := "secondary".
Definition displayNone : string := "none".
Definition displayUnset : string := EmptyString.

Module CommandLayoutPipeline.
Definition newDataStage : Z := 3.
Definition measuringStage : Z := 2.
Definition layoutStage : Z := 1.
Definition idle : Z := 0.
End CommandLayoutPipeline.
Import CommandLayoutPipeline.

(** ** JavaScript numbers *)

Inductive number :=
  | Num (z : Z)
  | NaN.

(** [a - b]: NaN as soon as one operand is. *)
Definition minus (a b : number) : number :=
  match a, b with
  | Num x, Num y => Num (x - y)
  | _, _ => NaN
  end.

(** [a < 0]: every comparison with NaN is false. *)
Definition ltZero (a : number) : bool :=
  match a with
  | Num x => x <? 0
  | NaN => false
  end.

(** A priority is a double that holds an integer. Every integer up to
    [2 ^ 53] in absolute value is a double; beyond, the doubles of a
    binade are the multiples of its spacing, [2 ^ (e - 52)] for the
    binade that starts at [2 ^ e]. *)
Definition ulp (a : Z) : Z :=
  if a <? 2 ^ 53 then 1 else 2 ^ (Z.log2 a - 52).

(** The multiple of [u] nearest to [a], the even one of two that are
    equally near. *)
Definition roundToGrid (u a : Z) : Z :=
  let q := a / u in
  let r := a `mod` u in
  if 2 * r <? u then q * u
  else if u <? 2 * r then (q + 1) * u
  else if Z.even q then q * u else (q + 1) * u.

(** The double nearest to the integer [x] (round to nearest, ties to
    even), as long as it is finite. *)
Definition roundToDouble (x : Z) : Z :=
  if x <? 0 then - roundToGrid (ulp (- x)) (- x)
  else roundToGrid (ulp x) x.

(** [a - b] on doubles that hold integers. *)
Definition minusDouble (a b : Z) : Z := roundToDouble (a - b).

(** Abrupt completion: [Throws] stands for a TypeError raised by a property
    read on [undefined]. *)
Inductive Completion (A : Type) :=
  | Normal (a : A)
  | Throws.
Arguments Normal {A} a.
Arguments Throws {A}.

(** ** Data model *)

Module ICommand.
(** The part of [_Command.ICommand] the layout engine reads, together with
    [element.style.display]. [uniqueID] is [_uniqueID(command.element)]. *)
Record t := mk {
  uniqueID : string;
  type : CommandType;
  section : string;
  priority : option Z;      (* [None]: [command.priority === undefined] *)
  hidden : bool;
  disabled : bool;
  selected : bool;
  label : option string;
  display : string;
}.

Definition setDisplay (d : string) (c : t) : t :=
  mk (uniqueID c) (type c) (section c) (priority c) (hidden c) (disabled c)
     (selected c) (label c) d.
End ICommand.

Module ICommandInfo.
Record t := mk {
  command : ICommand.t;
  width : number;
  priority : Z;
}.
End ICommandInfo.

Record Measurements := {
  overflowButtonWidth : Z;
  separatorWidth : Z;
  standardCommandWidth : Z;
  contentCommandWidths : gmap string Z;
  actionAreaContentBoxWidth : Z;
}.

(** What the browser answers when [_measure] asks: the readings are inputs
    of the model. [elementTotalWidth] is [getTotalWidth(command.element)]
    taken while the inline display of the element is cleared. *)
Record Dom := {
  rootInBody : bool;
  actionAreaOffsetWidth : Z;
  overflowButtonTotalWidth : Z;
  actionAreaContentWidth : Z;
  elementTotalWidth : string → Z;
}.

(** An entry of the overflow menu, as [_projectAsMenuCommand] builds it. *)
Module MenuCommand.
Record t := mk {
  label : option string;
  type : CommandType;
  disabled : bool;
  selected : bool;
  display : string;
  _originalICommand : option ICommand.t;
}.

Definition setDisplay (d : string) (c : t) : t :=
  mk (label c) (type c) (disabled c) (selected c) d (_originalICommand c).
End MenuCommand.

(** The fields of [_CommandingSurface] the layout engine owns, with the two
    pieces of the element tree it writes: the display of the overflow button
    and the children of the overflow area. *)
Record Surface := {
  _closedDisplayMode : option string;
  _primaryCommands : list ICommand.t;
  _secondaryCommands : list ICommand.t;
  _nextLayoutStage : Z;
  _cachedMeasurements : option Measurements;
  overflowButtonDisplay : string;
  overflowAreaChildren : list MenuCommand.t;
}.

Definition setNextLayoutStage (n : Z) (s : Surface) : Surface :=
  {| _closedDisplayMode := _closedDisplayMode s;
     _primaryCommands := _primaryCommands s;
     _secondaryCommands := _secondaryCommands s;
     _nextLayoutStage := n;
     _cachedMeasurements := _cachedMeasurements s;
     overflowButtonDisplay := overflowButtonDisplay s;
     overflowAreaChildren := overflowAreaChildren s |}.

Definition setCachedMeasurements (m : Measurements) (s : Surface) : Surface :=
  {| _closedDisplayMode := _closedDisplayMode s;
     _primaryCommands := _primaryCommands s;
     _secondaryCommands := _secondaryCommands s;
     _nextLayoutStage := _nextLayoutStage s;
     _cachedMeasurements := Some m;
     overflowButtonDisplay := overflowButtonDisplay s;
     overflowAreaChildren := overflowAreaChildren s |}.

(** ** Measurement cache: [_measure] *)

Definition canMeasure (d : Dom) : bool :=
  rootInBody d && (0 <? actionAreaOffsetWidth d).

(** One turn of the [forEach] over the primary commands. The accumulator is
    the triple of locals [separatorWidth], [standardCommandWidth],
    [contentCommandWidths]; [!separatorWidth] holds while the local is 0. *)
Definition measureCommand (d : Dom) (acc : Z * Z * gmap string Z)
    (c : ICommand.t) : Z * Z * gmap string Z :=
  let '(sepW, stdW, contentW) := acc in
  let w := elementTotalWidth d (ICommand.uniqueID c) in
  match ICommand.type c with
  | typeContent => (sepW, stdW, <[ICommand.uniqueID c := w]> contentW)
  | typeSeparator => (if sepW =? 0 then w else sepW, stdW, contentW)
  | _ => (sepW, if stdW =? 0 then w else stdW, contentW)
  end.

Definition measureCommands (d : Dom) (cmds : list ICommand.t) :
    Z * Z * gmap string Z :=
  foldl (measureCommand d) (0, 0, ∅) cmds.

Definition _measure (d : Dom) (s : Surface) : Surface * bool :=
  if canMeasure d then
    let '(sepW, stdW, contentW) := measureCommands d (_primaryCommands s) in
    (setCachedMeasurements
       {| overflowButtonWidth := overflowButtonTotalWidth d;
          separatorWidth := sepW;
          standardCommandWidth := stdW;
          contentCommandWidths := contentW;
          actionAreaContentBoxWidth := actionAreaContentWidth d |} s,
     true)
  else (s, false).

(** ** Priority partition: [_getCommandWidth], [_getCommandsInfo],
       [_getPrimaryCommandsLocation] *)

(** A content command that was never measured reads [undefined], which the
    subtraction in the partition loop turns into NaN. *)
Definition _getCommandWidth (m : Measurements) (c : ICommand.t) : number :=
  match ICommand.type c with
  | typeContent =>
      match contentCommandWidths m !! ICommand.uniqueID c with
      | Some w => Num w
      | None => NaN
      end
  | typeSeparator => Num (separatorWidth m)
  | _ => Num (standardCommandWidth m)
  end.

(** The loop runs from the last command to the first and [unshift]s, so the
    tail of the list is processed before its head. The second component is
    the local [currentAssignedPriority] after the commands seen so far. *)
Fixpoint commandsInfoFrom (m : Measurements) (cmds : list ICommand.t) :
    list ICommandInfo.t * Z :=
  match cmds with
  | [] => ([], 0)
  | c :: rest =>
      let '(infos, currentAssignedPriority) := commandsInfoFrom m rest in
      let '(p, currentAssignedPriority') :=
        match ICommand.priority c with
        | None => (currentAssignedPriority, currentAssignedPriority - 1)
        | Some p => (p, currentAssignedPriority)
        end in
      let w := if String.eqb (ICommand.display c) displayNone
               then Num 0 else _getCommandWidth m c in
      (ICommandInfo.mk c w p :: infos, currentAssignedPriority')
  end.

Definition _getCommandsInfo (m : Measurements) (cmds : list ICommand.t) :
    list ICommandInfo.t :=
  (commandsInfoFrom m cmds).1.

(** [Array.prototype.sort] with the comparator
    [commandInfo1.priority - commandInfo2.priority]: a stable sort (as
    ECMAScript requires), here by insertion. *)
Fixpoint insertByPriority (ci : ICommandInfo.t) (l : list ICommandInfo.t) :
    list ICommandInfo.t :=
  match l with
  | [] => [ci]
  | x :: rest =>
      if ICommandInfo.priority ci <=? ICommandInfo.priority x
      then ci :: x :: rest
      else x :: insertByPriority ci rest
  end.

Definition sortByPriority (l : list ICommandInfo.t) : list ICommandInfo.t :=
  foldr insertByPriority [] l.

Definition isNil {A} (l : list A) : bool :=
  match l with [] => true | _ => false end.

(** The [for] loop over [sortedCommandsInfo]. The result is the local
    [maxPriority]; [None] stands for [Number.MAX_VALUE], its initial value.
    [i < len - 1] holds exactly when commands remain after the current one.
    [priority - 1] is a subtraction of doubles. *)
Fixpoint findMaxPriority (hasSecondaryCommands : bool) (buttonWidth : Z)
    (availableWidth : number) (sorted : list ICommandInfo.t) : option Z :=
  match sorted with
  | [] => None
  | ci :: rest =>
      let availableWidth := minus availableWidth (ICommandInfo.width ci) in
      let overflowButtonSpace :=
        if hasSecondaryCommands || negb (isNil rest) then buttonWidth else 0 in
      if ltZero (minus availableWidth (Num overflowButtonSpace))
      then Some (minusDouble (ICommandInfo.priority ci) 1)
      else findMaxPriority hasSecondaryCommands buttonWidth availableWidth rest
  end.

(** [commandInfo.priority <= maxPriority] *)
Definition withinMaxPriority (maxPriority : option Z) (ci : ICommandInfo.t) :
    bool :=
  match maxPriority with
  | None => true
  | Some c => ICommandInfo.priority ci <=? c
  end.

Record Location := {
  actionArea : list ICommand.t;
  overflowArea : list ICommand.t;
}.

Definition maxPriorityOf (m : Measurements) (hasSecondaryCommands : bool)
    (commandsInfo : list ICommandInfo.t) : option Z :=
  findMaxPriority hasSecondaryCommands (overflowButtonWidth m)
    (Num (actionAreaContentBoxWidth m)) (sortByPriority commandsInfo).

Definition locate (maxPriority : option Z)
    (commandsInfo : list ICommandInfo.t) : Location :=
  {| actionArea :=
       ICommandInfo.command <$>
         List.filter (withinMaxPriority maxPriority) commandsInfo;
     overflowArea :=
       ICommandInfo.command <$>
         List.filter (λ ci, negb (withinMaxPriority maxPriority ci))
           commandsInfo |}.

Definition _getPrimaryCommandsLocation (s : Surface) : Completion Location :=
  match _cachedMeasurements s with
  | None => Throws
  | Some m =>
      let hasSecondaryCommands := negb (isNil (_secondaryCommands s)) in
      let commandsInfo := _getCommandsInfo m (_primaryCommands s) in
      Normal (locate (maxPriorityOf m hasSecondaryCommands commandsInfo)
                commandsInfo)
  end.

(** ** Separator collapsing: [_hideSeparatorsIfNeeded] *)

(** The interface [ICommandWithType]: an element (of which only the display
    matters here) and a type. *)
Class ICommandWithType (A : Type) := {
  typeOf : A → CommandType;
  displayOf : A → string;
  withDisplay : string → A → A;
  typeOf_withDisplay : ∀ d a, typeOf (withDisplay d a) = typeOf a;
  displayOf_withDisplay : ∀ d a, displayOf (withDisplay d a) = d;
}.

Global Instance ICommand_withType : ICommandWithType ICommand.t := {|
  typeOf := ICommand.type;
  displayOf := ICommand.display;
  withDisplay := ICommand.setDisplay;
  typeOf_withDisplay := λ _ _, eq_refl;
  displayOf_withDisplay := λ _ _, eq_refl;
|}.

Global Instance MenuCommand_withType : ICommandWithType MenuCommand.t := {|
  typeOf := MenuCommand.type;
  displayOf := MenuCommand.display;
  withDisplay := MenuCommand.setDisplay;
  typeOf_withDisplay := λ _ _, eq_refl;
  displayOf_withDisplay := λ _ _, eq_refl;
|}.

Section HideSeparators.
Context {A : Type} `{ICommandWithType A}.

Definition isSep (c : A) : bool := isSeparator (typeOf c).

(** First loop: [prevType] starts as [typeSeparator]. *)
Fixpoint hideLeadingOrConsecutive (prevType : CommandType)
    (commands : list A) : list A :=
  match commands with
  | [] => []
  | c :: rest =>
      (if isSep c && isSeparator prevType
       then withDisplay displayNone c else c)
      :: hideLeadingOrConsecutive (typeOf c) rest
  end.

(** Second loop, from the last index down to 0, left at the first entry
    that is no separator. The flag tells whether the loop is still
    running when it reaches the front of the list given. *)
Fixpoint hideTrailing (commands : list A) : list A * bool :=
  match commands with
  | [] => ([], true)
  | c :: rest =>
      let '(rest', running) := hideTrailing rest in
      if running && isSep c
      then (withDisplay displayNone c :: rest', true)
      else (c :: rest', false)
  end.

Definition _hideSeparatorsIfNeeded (commands : list A) : list A :=
  (hideTrailing (hideLeadingOrConsecutive typeSeparator commands)).1.

(** The value of [prevType] when the first loop reaches index [i]. *)
Definition afterSeparator (l : list A) (i : nat) : bool :=
  match i with
  | O => true
  | S j => match l !! j with Some p => isSep p | None => false end
  end.

Definition leadingAt (l : list A) (i : nat) : Prop :=
  Forall (λ x, isSep x = true) (take i l).

Definition trailingAt (l : list A) (i : nat) : Prop :=
  Forall (λ x, isSep x = true) (drop (S i) l).

Definition followsSeparatorAt (l : list A) (i : nat) : Prop :=
  ∃ j p, i = S j ∧ l !! j = Some p ∧ isSep p = true.

Definition hide (c : A) : A := withDisplay displayNone c.

End HideSeparators.

(** ** Menu projection and [_layoutCommands] *)

Definition contentMenuCommandDefaultLabel : string := "Custom content".

Definition isEmptyLabel (l : option string) : bool :=
  match l with
  | None => true
  | Some s => String.eqb s EmptyString
  end.

Definition _projectAsMenuCommand (originalCommand : ICommand.t) :
    MenuCommand.t :=
  let isContent :=
    bool_decide (ICommand.type originalCommand = typeContent) in
  {| MenuCommand.label :=
       if isContent && isEmptyLabel (ICommand.label originalCommand)
       then Some contentMenuCommandDefaultLabel
       else ICommand.label originalCommand;
     MenuCommand.type :=
       if isContent then typeFlyout else ICommand.type originalCommand;
     MenuCommand.disabled := ICommand.disabled originalCommand;
     MenuCommand.selected := ICommand.selected originalCommand;
     MenuCommand.display := displayUnset;
     MenuCommand._originalICommand := Some originalCommand |}.

(** [new _MenuCommand(null, { type: typeSeparator })] *)
Definition menuSeparator : MenuCommand.t :=
  {| MenuCommand.label := None;
     MenuCommand.type := typeSeparator;
     MenuCommand.disabled := false;
     MenuCommand.selected := false;
     MenuCommand.display := displayUnset;
     MenuCommand._originalICommand := None |}.

Definition menuCommandProjections (overflowCommands secondary :
    list ICommand.t) : list MenuCommand.t :=
  (_projectAsMenuCommand <$> overflowCommands)
  ++ (if negb (isNil overflowCommands) && negb (isNil secondary)
      then [menuSeparator] else [])
  ++ (_projectAsMenuCommand <$>
        List.filter (λ c, negb (ICommand.hidden c)) secondary).

(** The action-area and overflow-area lists hold the command objects of
    [_primaryCommands]; writing to their elements is writing to the
    elements of the primary commands. [weave] puts the two updated lists
    back in declaration order. *)
Fixpoint weave (inActionArea : list bool) (aa oa : list ICommand.t) :
    list ICommand.t :=
  match inActionArea with
  | [] => []
  | true :: flags =>
      match aa with
      | c :: aa' => c :: weave flags aa' oa
      | [] => weave flags [] oa
      end
  | false :: flags =>
      match oa with
      | c :: oa' => c :: weave flags aa oa'
      | [] => weave flags aa []
      end
  end.

Definition showByHidden (c : ICommand.t) : ICommand.t :=
  ICommand.setDisplay
    (if ICommand.hidden c then displayNone else displayUnset) c.

Definition withPrimaryCommands (cmds : list ICommand.t) (s : Surface) :
    Surface :=
  {| _closedDisplayMode := _closedDisplayMode s;
     _primaryCommands := cmds;
     _secondaryCommands := _secondaryCommands s;
     _nextLayoutStage := _nextLayoutStage s;
     _cachedMeasurements := _cachedMeasurements s;
     overflowButtonDisplay := overflowButtonDisplay s;
     overflowAreaChildren := overflowAreaChildren s |}.

(** [_layoutCommands]. The shared flyout for content commands and the two
    style markers of the overflow area (contains a toggle, contains a
    flyout) are left out: nothing below depends on them. *)
Definition _layoutCommands (s : Surface) : Completion (Surface * bool) :=
  let s1 := withPrimaryCommands (showByHidden <$> _primaryCommands s) s in
  match _getPrimaryCommandsLocation s1, _cachedMeasurements s1 with
  | Normal primaryCommandsLocation, Some m =>
      let hasSecondaryCommands := negb (isNil (_secondaryCommands s1)) in
      let commandsInfo := _getCommandsInfo m (_primaryCommands s1) in
      let maxPriority := maxPriorityOf m hasSecondaryCommands commandsInfo in
      let actionAreaCommands :=
        _hideSeparatorsIfNeeded (actionArea primaryCommandsLocation) in
      let overflowCommands :=
        ICommand.setDisplay displayNone <$>
          overflowArea primaryCommandsLocation in
      let secondary :=
        ICommand.setDisplay displayNone <$> _secondaryCommands s1 in
      let showOverflowButton :=
        negb (isNil overflowCommands) || negb (isNil secondary) in
      Normal
        ({| _closedDisplayMode := _closedDisplayMode s1;
            _primaryCommands :=
              weave (withinMaxPriority maxPriority <$> commandsInfo)
                actionAreaCommands overflowCommands;
            _secondaryCommands := secondary;
            _nextLayoutStage := _nextLayoutStage s1;
            _cachedMeasurements := _cachedMeasurements s1;
            overflowButtonDisplay :=
              if showOverflowButton then displayUnset else displayNone;
            overflowAreaChildren :=
              _hideSeparatorsIfNeeded
                (menuCommandProjections overflowCommands secondary) |},
         true)
  | _, _ => Throws
  end.

(** ** Layout pipeline *)

Definition _dataDirty (s : Surface) : Surface :=
  setNextLayoutStage (Z.max newDataStage (_nextLayoutStage s)) s.
Definition _meaurementsDirty (s : Surface) : Surface :=
  setNextLayoutStage (Z.max measuringStage (_nextLayoutStage s)) s.
Definition _layoutDirty (s : Surface) : Surface :=
  setNextLayoutStage (Z.max layoutStage (_nextLayoutStage s)) s.

Definition withCommands (primary secondary : list ICommand.t) (s : Surface) :
    Surface :=
  {| _closedDisplayMode := _closedDisplayMode s;
     _primaryCommands := primary;
     _secondaryCommands := secondary;
     _nextLayoutStage := _nextLayoutStage s;
     _cachedMeasurements := _cachedMeasurements s;
     overflowButtonDisplay := overflowButtonDisplay s;
     overflowAreaChildren := overflowAreaChildren s |}.

Definition isSecondary (c : ICommand.t) : bool :=
  String.eqb (ICommand.section c) secondaryCommandSection.

(** [_dataUpdated]: the commands of the data are split by section, any
    section but ["secondary"] counting as primary, and the new-data stage
    is requested. The call of [this._machine.updateDom()] that follows is
    a run of the pipeline, if the machine grants it. *)
Definition _dataUpdated (data : list ICommand.t) (s : Surface) : Surface :=
  _dataDirty
    (withCommands (List.filter (λ c, negb (isSecondary c)) data)
       (List.filter isSecondary data) s).

(** [forceLayout], up to the same call of [updateDom]. *)
Definition forceLayout (s : Surface) : Surface := _meaurementsDirty s.

(** [_processNewData] rebuilds the children of the action area from the
    data, which touches no field of [Surface], and returns [true]. *)
Definition _processNewData (s : Surface) : Surface * bool := (s, true).

(** The [switch]: the value assigned to [nextStage] and what the stage
    action returned; [None] when no [case] matches. *)
Definition stageAction (d : Dom) (currentStage : Z) (s : Surface) :
    option (Z * Completion (Surface * bool)) :=
  if currentStage =? newDataStage then
    Some (measuringStage, Normal (_processNewData s))
  else if currentStage =? measuringStage then
    Some (layoutStage, Normal (_measure d s))
  else if currentStage =? layoutStage then
    Some (idle, _layoutCommands s)
  else None.

(** The [while] loop. [log] is a ghost trace: the stages whose action ran,
    each with the value of [okToProceed]. The result is the local
    [nextStage] on exit, the surface, and the trace. *)
Fixpoint drain (fuel : nat) (d : Dom) (nextStage : Z) (s : Surface)
    (log : list (Z * bool)) :
    option (Completion (Z * Surface * list (Z * bool))) :=
  match fuel with
  | O => None
  | S fuel' =>
      if nextStage =? idle then Some (Normal (nextStage, s, log))
      else
        let currentStage := nextStage in
        match stageAction d currentStage s with
        | None => Some (Normal (currentStage, s, log))
        | Some (_, Throws) => Some Throws
        | Some (nextStage', Normal (s', okToProceed)) =>
            let log' := log ++ [(currentStage, okToProceed)] in
            if okToProceed then drain fuel' d nextStage' s' log'
            else Some (Normal (currentStage, s', log'))
        end
  end.

(** [None]: the fuel did not suffice. [Some Throws]: an exception left the
    method before [this._nextLayoutStage = nextStage]. *)
Definition _updateDomImpl_updateCommands (fuel : nat) (d : Dom)
    (s : Surface) : option (Completion (Surface * list (Z * bool))) :=
  match drain fuel d (_nextLayoutStage s) s [] with
  | None => None
  | Some Throws => Some Throws
  | Some (Normal (nextStage, s', log)) =>
      Some (Normal (setNextLayoutStage nextStage s', log))
  end.

(** The three ways of asking for work, and a trace of them. *)
Inductive StageRequest :=
  | DataChange
  | MeasurementInvalidation
  | GeometryChange.

Definition requestedStage (r : StageRequest) : Z :=
  match r with
  | DataChange => newDataStage
  | MeasurementInvalidation => measuringStage
  | GeometryChange => layoutStage
  end.

Definition request (s : Surface) (r : StageRequest) : Surface :=
  match r with
  | DataChange => _dataDirty s
  | MeasurementInvalidation => _meaurementsDirty s
  | GeometryChange => _layoutDirty s
  end.

(** What [_resizeHandler] stores in the snapshot when the content width of
    the action area has changed. *)
Definition withActionAreaContentBoxWidth (w : Z) (m : Measurements) :
    Measurements :=
  {| overflowButtonWidth := overflowButtonWidth m;
     separatorWidth := separatorWidth m;
     standardCommandWidth := standardCommandWidth m;
     contentCommandWidths := contentCommandWidths m;
     actionAreaContentBoxWidth := w |}.

(** [_resizeHandler], given [this._dom.root.offsetWidth] and the content
    width of the action area; the boolean tells whether
    [this._machine.updateDom()] was called. *)
Definition _resizeHandler (rootOffsetWidth currentActionAreaWidth : Z)
    (s : Surface) : Surface * bool :=
  if rootOffsetWidth =? 0 then (s, false)
  else
    match _cachedMeasurements s with
    | Some m =>
        if actionAreaContentBoxWidth m =? currentActionAreaWidth
        then (s, false)
        else
          (_layoutDirty
             (setCachedMeasurements
                (withActionAreaContentBoxWidth currentActionAreaWidth m) s),
           true)
    | None => (s, false)
    end.

(** ** Focus navigation: [_getFocusableElementsInfo], [_keyDownHandler] *)

Inductive Key :=
  | leftArrow
  | rightArrow
  | upArrow
  | downArrow
  | home
  | end_
  | otherKey.

Global Instance Key_eq_dec : EqDecision Key.
Proof. solve_decision. Defined.

(** An element in reach of the keyboard: what [_isElementFocusable] says of
    it and whether it contains [document.activeElement]. *)
Record ElementInReach := {
  elementId : string;
  isElementFocusable : bool;
  containsActiveElement : bool;
}.

Record IFocusableElementsInfo := {
  elements : list ElementInReach;
  focusedIndex : Z;
}.

Definition _getFocusableElementsInfo (elementsInReach : list ElementInReach) :
    IFocusableElementsInfo :=
  foldl
    (λ info element,
       if isElementFocusable element then
         let elements' := elements info ++ [element] in
         {| elements := elements';
            focusedIndex :=
              if containsActiveElement element
              then Z.of_nat (length elements') - 1
              else focusedIndex info |}
       else info)
    {| elements := []; focusedIndex := -1 |}
    elementsInReach.

Record KeyEvent := {
  altKey : bool;
  targetIsInteractive : bool;   (* the target lies in interactive content *)
  keyCode : Key;
}.

(** Which end of the chosen command receives the focus. *)
Inductive FocusEnd :=
  | LastElementFocus
  | FirstElementFocus.

(** The index into [focusableElementsInfo.elements] the handler picks, with
    the accessor applied to that element; [None] when [targetCommand] stays
    undefined. JavaScript's [%] is [Z.rem]. *)
Definition _keyDownHandler (rtl : bool) (ev : KeyEvent)
    (focusableElementsInfo : IFocusableElementsInfo) :
    option (FocusEnd * Z) :=
  if altKey ev then None
  else if targetIsInteractive ev then None
  else
    let len := Z.of_nat (length (elements focusableElementsInfo)) in
    let i := focusedIndex focusableElementsInfo in
    if len =? 0 then None
    else if bool_decide (keyCode ev = (if rtl then rightArrow else leftArrow))
            || bool_decide (keyCode ev = upArrow) then
      let index := Z.max 0 (i - 1) in
      Some (LastElementFocus, Z.rem index len)
    else if bool_decide (keyCode ev = (if rtl then leftArrow else rightArrow))
            || bool_decide (keyCode ev = downArrow) then
      let index := Z.min (i + 1) (len - 1) in
      Some (FirstElementFocus, index)
    else if bool_decide (keyCode ev = home) then
      Some (FirstElementFocus, 0)
    else if bool_decide (keyCode ev = end_) then
      Some (LastElementFocus, len - 1)
    else None.

(** The four directions of the traversal and the keys that mean them. *)
Inductive Direction :=
  | Backward
  | Forward
  | Home
  | End.

Definition directionOfKey (rtl : bool) (k : Key) : option Direction :=
  match k with
  | leftArrow => Some (if rtl then Forward else Backward)
  | rightArrow => Some (if rtl then Backward else Forward)
  | upArrow => Some Backward
  | downArrow => Some Forward
  | home => Some Home
  | end_ => Some End
  | otherKey => None
  end.

(** ** The [closedDisplayMode] property *)

(** The own properties of the object literal [ClosedDisplayMode]. *)
Definition ClosedDisplayMode : list (string * string) :=
  [("none", "none"); ("minimal", "minimal"); ("compact", "compact");
   ("full", "full")].

(** An object literal inherits from [Object.prototype]; these are its
    members (ECMAScript 2015, 19.1.3 and B.2.2.1 to B.2.2.5): functions,
    but for the accessor [__proto__], which yields [Object.prototype]
    itself. All of them are truthy. *)
Definition ObjectPrototype : list string :=
  ["constructor"; "toString"; "toLocaleString"; "valueOf"; "hasOwnProperty";
   "isPrototypeOf"; "propertyIsEnumerable"; "__defineGetter__";
   "__defineSetter__"; "__lookupGetter__"; "__lookupSetter__"; "__proto__"].

Fixpoint ownProperty (obj : list (string * string)) (key : string) :
    option string :=
  match obj with
  | [] => None
  | (k, v) :: rest => if String.eqb k key then Some v else ownProperty rest key
  end.

(** Whether [obj[key]] is truthy, for an object literal [obj] with string
    values: an own non-empty string, or an inherited member. *)
Definition truthyProperty (obj : list (string * string)) (key : string) :
    bool :=
  match ownProperty obj key with
  | Some v => negb (String.eqb v EmptyString)
  | None => bool_decide (key ∈ ObjectPrototype)
  end.

Definition withClosedDisplayMode (value : string) (s : Surface) : Surface :=
  {| _closedDisplayMode := Some value;
     _primaryCommands := _primaryCommands s;
     _secondaryCommands := _secondaryCommands s;
     _nextLayoutStage := _nextLayoutStage s;
     _cachedMeasurements := _cachedMeasurements s;
     overflowButtonDisplay := overflowButtonDisplay s;
     overflowAreaChildren := overflowAreaChildren s |}.

(** The setter. The boolean tells whether [this._machine.updateDom()] was
    called, which is what renders the surface again. *)
Definition set_closedDisplayMode (value : string) (s : Surface) :
    Surface * bool :=
  let isChangingState :=
    negb (bool_decide (Some value = _closedDisplayMode s)) in
  if truthyProperty ClosedDisplayMode value && isChangingState
  then (withClosedDisplayMode value s, true)
  else (s, false).

Definition get_closedDisplayMode (s : Surface) : option string :=
  _closedDisplayMode s.

(** * The element tree *)

(** ** Command elements of the action area: [diffElements],
       [_getDataChangeInfo], [_processNewData] *)

(** An element is an object with an identity; [_uniqueID] names it. The
    inline display of the elements is a store read through the identity,
    so that an element reached from the action area and from the data is
    one element with one display. *)
Definition Element := string.

(** [lhs.filter(e => rhs.indexOf(e) < 0)] *)
Definition diffElements (lhs rhs : list Element) : list Element :=
  List.filter (λ commandElement, negb (bool_decide (commandElement ∈ rhs)))
    lhs.

(** A child of the action area: the element of a command (it carries the
    class [win-command] and the command as its [winControl]), the spacer,
    the overflow button, or anything else the host element contained. *)
Inductive Node :=
  | CommandElement (e : Element)
  | SpacerElement
  | OverflowButtonElement
  | OtherElement (e : Element).

Global Instance Node_eq_dec : EqDecision Node.
Proof. solve_decision. Defined.

(** [actionArea.querySelectorAll(".win-command")], the command elements
    being children of the action area. *)
Definition querySelectorAll_command (children : list Node) : list Element :=
  omap (λ n, match n with CommandElement e => Some e | _ => None end)
    children.

Record IDataChangeInfo := {
  newElements : list Element;
  currentElements : list Element;
  added : list Element;
  deleted : list Element;
  affected : list Element;
}.

(** [element.style.display !== "none"] *)
Definition isShown (styleDisplay : Element → string) (e : Element) : bool :=
  negb (String.eqb (styleDisplay e) displayNone).

(** [data] lists [command.element] for the commands of [this.data]. *)
Definition _getDataChangeInfo (styleDisplay : Element → string)
    (actionAreaChildren : list Node) (data : list Element) :
    IDataChangeInfo :=
  let currentElements := querySelectorAll_command actionAreaChildren in
  let currentShown := List.filter (isShown styleDisplay) currentElements in
  let newShown := List.filter (isShown styleDisplay) data in
  let newHidden :=
    List.filter (λ e, negb (isShown styleDisplay e)) data in
  let newElements := data in
  let deleted := diffElements currentShown newShown in
  let affected := diffElements currentShown deleted in
  let added := diffElements newShown currentShown ++ newHidden in
  {| newElements := newElements;
     currentElements := currentElements;
     added := added;
     deleted := deleted;
     affected := affected |}.

Module ClassNames.
Definition controlCssClass : string := "win-commandingsurface".
Definition disposableCssClass : string := "win-disposable".
Definition emptyCommandingSurfaceCssClass : string :=
  "win-commandingsurface-empty".
Definition openedClass : string := "win-commandingsurface-opened".
Definition closedClass : string := "win-commandingsurface-closed".
Definition noneClass : string := "win-commandingsurface-closeddisplaynone".
Definition minimalClass : string :=
  "win-commandingsurface-closeddisplayminimal".
Definition compactClass : string :=
  "win-commandingsurface-closeddisplaycompact".
Definition fullClass : string := "win-commandingsurface-closeddisplayfull".
Definition topToBottomClass : string := "win-commandingsurface-toptobottom".
Definition bottomToTopClass : string := "win-commandingsurface-bottomtotop".
End ClassNames.

(** The class list of the root and the children of the action area. *)
Record ElementTree := {
  rootClasses : gset string;
  actionAreaChildren : list Node;
}.

(** [parent.removeChild(child)] *)
Definition removeChild (child : Node) (children : list Node) : list Node :=
  List.filter (λ n, negb (bool_decide (n = child))) children.

(** [parent.appendChild(child)]: a child that is in the tree already is
    taken from its place first. *)
Definition appendChild (child : Node) (children : list Node) : list Node :=
  removeChild child children ++ [child].

Module OnElementTree.
(** [_processNewData] on the element tree. The animation that is built
    from the change info and executed at the end is left out. *)
Definition _processNewData (styleDisplay : Element → string)
    (data : list Element) (t : ElementTree) : ElementTree * bool :=
  let changeInfo :=
    _getDataChangeInfo styleDisplay (actionAreaChildren t) data in
  let removed :=
    foldl (λ children element, removeChild (CommandElement element) children)
      (actionAreaChildren t) (currentElements changeInfo) in
  let appended :=
    foldl (λ children element, appendChild (CommandElement element) children)
      removed (newElements changeInfo) in
  ({| rootClasses :=
        if (0 <? length data)%nat
        then rootClasses t ∖ {[ClassNames.emptyCommandingSurfaceCssClass]}
        else rootClasses t ∪ {[ClassNames.emptyCommandingSurfaceCssClass]};
      actionAreaChildren := appendChild OverflowButtonElement appended |},
   true).
End OnElementTree.

(** ** Construction: [_initializeDom], [_getDataFromDOMElements], the
       constructor *)

(** A returned value, or an [_ErrorFromName] thrown with the given name. *)
Inductive Result (A : Type) :=
  | Returned (a : A)
  | Thrown (name : string).
Arguments Returned {A} a.
Arguments Thrown {A} name.

Module ErrorNames.
Definition DuplicateConstruction : string :=
  "WinJS.UI._CommandingSurface.DuplicateConstruction".
Definition MustContainCommands : string :=
  "WinJS.UI._CommandingSurface.MustContainCommands".
Definition BadData : string := "WinJS.UI._CommandingSurface.BadData".
End ErrorNames.

(** The element a control is built on: whether a control is attached to
    it already, and its children. *)
Record HostElement := {
  winControl : bool;
  hostChildren : list Node;
}.

(** [this._dom] as far as the construction reads it; [overflowButton]
    tells whether [this._dom.overflowButton] is set. *)
Record ControlDom := {
  root : HostElement;
  actionAreaOf : list Node;
  overflowButton : bool;
}.

(** [_initializeDom]: the control is attached to the root, the children of
    the root are reparented into the new action area, and the spacer and
    the overflow button are appended to it. The attributes and classes
    given to the root are left out. *)
Definition _initializeDom (root : HostElement) : ControlDom :=
  {| root := {| winControl := true; hostChildren := [] |};
     actionAreaOf :=
       hostChildren root ++ [SpacerElement; OverflowButtonElement];
     overflowButton := true |}.

(** The [for] loop over the children of the action area, after
    [ControlProcessor.processAll] has built the declared controls. A
    command is pushed as the element it is the [winControl] of. *)
Fixpoint commandsFrom (hasOverflowButton : bool) (children : list Node)
    (commands : list Element) : Result (list Element) :=
  match children with
  | [] => Returned commands
  | CommandElement e :: rest =>
      commandsFrom hasOverflowButton rest (commands ++ [e])
  | _ :: rest =>
      if negb hasOverflowButton then Thrown ErrorNames.MustContainCommands
      else commandsFrom hasOverflowButton rest commands
  end.

Definition _getDataFromDOMElements (dom : ControlDom) :
    Result (list Element) :=
  commandsFrom (overflowButton dom) (actionAreaOf dom) [].

(** A value assigned to [data]: a [BindingList.List], known by its
    identity and holding the given command elements at the time of the
    call, or anything else. *)
Inductive DataValue :=
  | BindingList (id : nat) (items : list Element)
  | NotABindingList.

(** What the constructor leaves: the element tree and the data. *)
Record Constructed := {
  dom : ControlDom;
  data : DataValue;
}.

(** The constructor, as far as it can throw: the check for a control on
    the element, [_initializeDom], the default for [options.data], and the
    assignment to [data] made by [_Control.setOptions]. [element] is
    [None] when no element is passed and [optionsData] is [None] when
    [options.data] is falsy; [newList] is the identity of the list built
    for the default. With the result comes the element as the call leaves
    it, also when the call throws. *)
Definition constructor (element : option HostElement)
    (optionsData : option DataValue) (newList : nat) :
    Result Constructed * option HostElement :=
  if match element with Some el => winControl el | None => false end
  then (Thrown ErrorNames.DuplicateConstruction, element)
  else
    let dom :=
      _initializeDom
        (default {| winControl := false; hostChildren := [] |} element) in
    let element' := match element with
                    | Some _ => Some (root dom)
                    | None => None
                    end in
    let value :=
      match optionsData with
      | Some value => Returned value
      | None =>
          match _getDataFromDOMElements dom with
          | Returned commands => Returned (BindingList newList commands)
          | Thrown name => Thrown name
          end
      end in
    match value with
    | Thrown name => (Thrown name, element')
    | Returned NotABindingList => (Thrown ErrorNames.BadData, element')
    | Returned value => (Returned {| dom := dom; data := value |}, element')
    end.

(** ** The control: the [data] property, [_refresh], [dispose] *)

Definition _dataChangedEvents : list string :=
  ["itemchanged"; "iteminserted"; "itemmoved"; "itemremoved"; "reload"].

(** A constructed control, as far as the [data] property and the batching
    of refreshes go. [_data] is the identity of the list held; [listeners]
    are the registrations of [_refreshBound], each on a list for an event
    name; [scheduled] counts the jobs of [_refresh] waiting in the
    [Scheduler]; [dataUpdatedCalls] is a ghost trace of the calls of
    [_dataUpdated], each with the elements [this.data] holds at the call. *)
Record Control := {
  _data : nat;
  listeners : list (nat * string);
  _refreshPending : bool;
  _disposed : bool;
  scheduled : nat;
  dataUpdatedCalls : list (list Element);
}.

Module OnControl.
Definition _dataUpdated (items : list Element) (c : Control) : Control :=
  {| _data := _data c;
     listeners := listeners c;
     _refreshPending := _refreshPending c;
     _disposed := _disposed c;
     scheduled := scheduled c;
     dataUpdatedCalls := dataUpdatedCalls c ++ [items] |}.
End OnControl.

Definition withListeners (l : list (nat * string)) (c : Control) : Control :=
  {| _data := _data c;
     listeners := l;
     _refreshPending := _refreshPending c;
     _disposed := _disposed c;
     scheduled := scheduled c;
     dataUpdatedCalls := dataUpdatedCalls c |}.

(** [removeEventListener]: the first registration that matches goes. *)
Fixpoint removeEventListener (registration : nat * string)
    (l : list (nat * string)) : list (nat * string) :=
  match l with
  | [] => []
  | r :: rest =>
      if bool_decide (r = registration) then rest
      else r :: removeEventListener registration rest
  end.

Definition _addDataListeners (c : Control) : Control :=
  withListeners
    (foldl (λ l eventName, l ++ [(_data c, eventName)]) (listeners c)
       _dataChangedEvents) c.

Definition _removeDataListeners (c : Control) : Control :=
  withListeners
    (foldl (λ l eventName, removeEventListener (_data c, eventName) l)
       (listeners c) _dataChangedEvents) c.

(** The setter of [data]. A constructed control holds a list, so the test
    [if (this._data)] succeeds, and a value that is no list is never the
    value held. *)
Definition set_data (value : DataValue) (c : Control) : Result Control :=
  match value with
  | NotABindingList => Thrown ErrorNames.BadData
  | BindingList id items =>
      if bool_decide (id = _data c) then Returned c
      else
        let c1 := _removeDataListeners c in
        let c2 := {| _data := id;
                     listeners := listeners c1;
                     _refreshPending := _refreshPending c1;
                     _disposed := _disposed c1;
                     scheduled := scheduled c1;
                     dataUpdatedCalls := dataUpdatedCalls c1 |} in
        Returned (OnControl._dataUpdated items (_addDataListeners c2))
  end.

(** [_refresh]: the first call schedules the job, the calls that follow
    while it is pending do nothing. *)
Definition _refresh (c : Control) : Control :=
  if _refreshPending c then c
  else {| _data := _data c;
          listeners := listeners c;
          _refreshPending := true;
          _disposed := _disposed c;
          scheduled := S (scheduled c);
          dataUpdatedCalls := dataUpdatedCalls c |}.

(** The job that [_refresh] hands to the [Scheduler], run while
    [this.data] holds [items]. *)
Definition refreshJob (items : list Element) (c : Control) : Control :=
  if _refreshPending c && negb (_disposed c) then
    OnControl._dataUpdated items
      {| _data := _data c;
         listeners := listeners c;
         _refreshPending := false;
         _disposed := _disposed c;
         scheduled := scheduled c;
         dataUpdatedCalls := dataUpdatedCalls c |}
  else c.

(** [dispose], as far as these fields go. *)
Definition dispose (c : Control) : Control :=
  if _disposed c then c
  else {| _data := _data c;
          listeners := listeners c;
          _refreshPending := _refreshPending c;
          _disposed := true;
          scheduled := scheduled c;
          dataUpdatedCalls := dataUpdatedCalls c |}.

(** What happens to a control: an assignment to [data]; a list firing an
    event, which calls the listeners registered on it for that event; the
    [Scheduler] running the job in front of its queue; [dispose]. *)
Inductive ControlEvent :=
  | SetData (value : DataValue)
  | Fired (list : nat) (eventName : string)
  | RunJob (items : list Element)
  | Dispose.

Definition handle (c : Control) (ev : ControlEvent) : Control :=
  match ev with
  | SetData value =>
      match set_data value c with
      | Returned c' => c'
      | Thrown _ => c
      end
  | Fired list eventName =>
      foldl (λ c _, _refresh c) c
        (List.filter (λ r, bool_decide (r = (list, eventName))) (listeners c))
  | RunJob items =>
      match scheduled c with
      | O => c
      | S n =>
          refreshJob items
            {| _data := _data c;
               listeners := listeners c;
               _refreshPending := _refreshPending c;
               _disposed := _disposed c;
               scheduled := n;
               dataUpdatedCalls := dataUpdatedCalls c |}
      end
  | Dispose => dispose c
  end.

(** The control the constructor leaves on the list [id] holding [items]. *)
Definition constructedControl (id : nat) (items : list Element) : Control :=
  {| _data := id;
     listeners := (λ eventName, (id, eventName)) <$> _dataChangedEvents;
     _refreshPending := false;
     _disposed := false;
     scheduled := 0;
     dataUpdatedCalls := [items] |}.

(** The registrations are those of the list held, one for each event
    name, and a job is waiting exactly while a refresh is pending, until
    the control is disposed. *)
Definition controlInvariant (c : Control) : Prop :=
  listeners c = (λ eventName, (_data c, eventName)) <$> _dataChangedEvents ∧
  (scheduled c ≤ 1)%nat ∧
  (_refreshPending c = false → scheduled c = 0%nat) ∧
  (_disposed c = false → _refreshPending c = true → scheduled c = 1%nat).

(** ** Rendering the root: [addClass], [removeClass], [_applyOrientation],
       the [orientation] property, [_updateDomImpl_renderDisplayMode] *)

(** The two helpers of the module: no-ops when the class name is falsy,
    that is [undefined] or the empty string. *)
Definition addClass (classes : gset string) (className : option string) :
    gset string :=
  match className with
  | Some name =>
      if String.eqb name EmptyString then classes else classes ∪ {[name]}
  | None => classes
  end.

Definition removeClass (classes : gset string) (className : option string) :
    gset string :=
  match className with
  | Some name =>
      if String.eqb name EmptyString then classes else classes ∖ {[name]}
  | None => classes
  end.

(** The own properties of the object literal [Orientation]. *)
Definition Orientation : list (string * string) :=
  [("bottom", "bottom"); ("top", "top"); ("auto", "auto")].

(** [_applyOrientation] on the class list of the root. The [default]
    branch, which [auto] shares, calls the method again with
    [Orientation.top]; that call takes the second branch. *)
Definition _applyOrientation (nextOrientation : option string)
    (classes : gset string) : gset string :=
  let top :=
    addClass (removeClass classes (Some ClassNames.bottomToTopClass))
      (Some ClassNames.topToBottomClass) in
  match nextOrientation with
  | Some value =>
      if String.eqb value "bottom" then
        addClass (removeClass classes (Some ClassNames.topToBottomClass))
          (Some ClassNames.bottomToTopClass)
      else if String.eqb value "top" then top
      else top
  | None => top
  end.

(** The setter of [orientation]; [None] is [undefined]. *)
Definition set_orientation (value : string) (_orientation : option string) :
    option string :=
  let isChangingState := negb (bool_decide (Some value = _orientation)) in
  if truthyProperty Orientation value && isChangingState
  then Some value else _orientation.

(** What a read of [closedDisplayModeClassMap[key]] gives: the class name
    stored for the key, [undefined], or a member inherited from
    [Object.prototype]. *)
Inductive ClassMapValue :=
  | ClassName (name : string)
  | NoClassName
  | InheritedMember.

Definition closedDisplayModeClassMap (key : option string) : ClassMapValue :=
  match key with
  | None => NoClassName
  | Some k =>
      match ownProperty
              [("none", ClassNames.noneClass);
               ("minimal", ClassNames.minimalClass);
               ("compact", ClassNames.compactClass);
               ("full", ClassNames.fullClass)] k with
      | Some name => ClassName name
      | None =>
          if bool_decide (k ∈ ObjectPrototype) then InheritedMember
          else NoClassName
      end
  end.

(** The class list of the root with [_updateDomImpl_renderedState]. *)
Record Rendered := {
  classes : gset string;
  renderedClosedDisplayMode : option string;
  renderedOpened : option bool;
}.

Definition classNameOf (v : ClassMapValue) : option string :=
  match v with
  | ClassName name => Some name
  | _ => None
  end.

(** The second block of [_updateDomImpl_renderDisplayMode], on the state
    [r1] the first block leaves. *)
Definition renderClosedDisplayMode (closedDisplayMode : option string)
    (r1 : Rendered) : Rendered * bool :=
  if bool_decide (renderedClosedDisplayMode r1 = closedDisplayMode)
  then (r1, true)
  else
    match closedDisplayModeClassMap (renderedClosedDisplayMode r1) with
    | InheritedMember => (r1, false)
    | old =>
        let removed := removeClass (classes r1) (classNameOf old) in
        match closedDisplayModeClassMap closedDisplayMode with
        | InheritedMember =>
            ({| classes := removed;
                renderedClosedDisplayMode := renderedClosedDisplayMode r1;
                renderedOpened := renderedOpened r1 |}, false)
        | new =>
            ({| classes := addClass removed (classNameOf new);
                renderedClosedDisplayMode := closedDisplayMode;
                renderedOpened := renderedOpened r1 |}, true)
        end
    end.

(** [_updateDomImpl_renderDisplayMode], given [this._isOpenedMode],
    [this.orientation] and [this.closedDisplayMode]. The result is what
    the method leaves, with whether it returned. It does not return when a
    member inherited from [Object.prototype] is handed to
    [_ElementUtilities] as a class name: the utility asks the name for its
    [indexOf], which such a member lacks, and the call throws. What was
    written before the call stays written. *)
Definition _updateDomImpl_renderDisplayMode (_isOpenedMode : bool)
    (orientation closedDisplayMode : option string) (r : Rendered) :
    Rendered * bool :=
  let r1 :=
    if bool_decide (renderedOpened r = Some _isOpenedMode) then r
    else
      {| classes :=
           if _isOpenedMode then
             _applyOrientation orientation
               (addClass
                  (removeClass (classes r) (Some ClassNames.closedClass))
                  (Some ClassNames.openedClass))
           else
             addClass (removeClass (classes r) (Some ClassNames.openedClass))
               (Some ClassNames.closedClass);
         renderedClosedDisplayMode := renderedClosedDisplayMode r;
         renderedOpened := Some _isOpenedMode |} in
  renderClosedDisplayMode closedDisplayMode r1.

(** The fields the rendering reads, with what has been rendered. *)
Record DisplayState := {
  _isOpenedMode : bool;
  _orientation : option string;
  closedDisplayModeNow : option string;
  rendered : Rendered;
}.

(** What changes the display state: the machine setting [_isOpenedMode],
    an assignment to [orientation] or to [closedDisplayMode], and a run of
    [_updateDomImpl_renderDisplayMode]. A run that throws leaves what it
    has written. *)
Inductive DisplayEvent :=
  | OpenedMode (isShown : bool)
  | AssignOrientation (value : string)
  | AssignClosedDisplayMode (value : string)
  | RenderDisplayMode.

Definition onDisplayEvent (st : DisplayState) (ev : DisplayEvent) :
    DisplayState :=
  match ev with
  | OpenedMode isShown =>
      {| _isOpenedMode := isShown;
         _orientation := _orientation st;
         closedDisplayModeNow := closedDisplayModeNow st;
         rendered := rendered st |}
  | AssignOrientation value =>
      {| _isOpenedMode := _isOpenedMode st;
         _orientation := set_orientation value (_orientation st);
         closedDisplayModeNow := closedDisplayModeNow st;
         rendered := rendered st |}
  | AssignClosedDisplayMode value =>
      {| _isOpenedMode := _isOpenedMode st;
         _orientation := _orientation st;
         closedDisplayModeNow :=
           if truthyProperty ClosedDisplayMode value
              && negb (bool_decide (Some value = closedDisplayModeNow st))
           then Some value else closedDisplayModeNow st;
         rendered := rendered st |}
  | RenderDisplayMode =>
      {| _isOpenedMode := _isOpenedMode st;
         _orientation := _orientation st;
         closedDisplayModeNow := closedDisplayModeNow st;
         rendered :=
           fst (_updateDomImpl_renderDisplayMode (_isOpenedMode st)
                  (_orientation st) (closedDisplayModeNow st)
                  (rendered st)) |}
  end.

(** The state before anything is assigned or rendered, on a root with the
    classes [rootClasses0]. *)
Definition initialDisplayState (rootClasses0 : gset string) : DisplayState :=
  {| _isOpenedMode := false;
     _orientation := None;
     closedDisplayModeNow := None;
     rendered := {| classes := rootClasses0;
                    renderedClosedDisplayMode := None;
                    renderedOpened := None |} |}.

(** The class the root carries for a closed display mode. *)
Definition closedDisplayModeClass (mode : string) : string :=
  default EmptyString (classNameOf (closedDisplayModeClassMap (Some mode))).

(** The classes that tell the state of the surface. *)
Definition stateClasses : list string :=
  [ClassNames.openedClass; ClassNames.closedClass; ClassNames.noneClass;
   ClassNames.minimalClass; ClassNames.compactClass; ClassNames.fullClass;
   ClassNames.topToBottomClass; ClassNames.bottomToTopClass].

(** * Notions used in the statements *)

(** ** Effective priorities *)

Definition unprioritized (c : ICommand.t) : bool :=
  match ICommand.priority c with
  | None => true
  | Some _ => false
  end.

(** How many commands of [cmds] carry no explicit priority. *)
Definition countUnprioritized (cmds : list ICommand.t) : Z :=
  Z.of_nat (length (List.filter unprioritized cmds)).

(** ** Order by priority *)

(** [Number.MIN_SAFE_INTEGER <= z <= Number.MAX_SAFE_INTEGER] *)
Definition isSafeInteger (z : Z) : Prop := - 2 ^ 53 < z < 2 ^ 53.

Definition priorityLe (a b : ICommandInfo.t) : Prop :=
  ICommandInfo.priority a ≤ ICommandInfo.priority b.

(** ** The walk over the sorted list *)



(** Every width is a number: each content command on display was measured. *)
Definition measured (l : list ICommandInfo.t) : Prop :=
  Forall (λ ci, ICommandInfo.width ci ≠ NaN) l.



(** ** Comparing two walks *)



(** ** Traces of the pipeline *)

(** What happens to a surface over time: a request for work, or a run of
    the pipeline against the element tree of the moment. A run that throws
    never reaches the assignment to [_nextLayoutStage]. *)
Inductive PipelineEvent :=
  | Requested (r : StageRequest)
  | Ran (d : Dom).

Definition pipelineFuel : nat := 4.

Definition step (s : Surface) (ev : PipelineEvent) : Surface :=
  match ev with
  | Requested r => request s r
  | Ran d =>
      match _updateDomImpl_updateCommands pipelineFuel d s with
      | Some (Normal (s', _)) => s'
      | _ => s
      end
  end.

Definition exec (s : Surface) (trace : list PipelineEvent) : Surface :=
  foldl step s trace.

(** The reading of the pending stage as "the maximum of all stages
    requested since the last full drain to idle": the accumulator restarts
    from idle after a run that leaves the pipeline idle, and only then. *)
Fixpoint maxRequestedSinceDrain (s : Surface) (acc : Z)
    (trace : list PipelineEvent) : Z :=
  match trace with
  | [] => acc
  | ev :: rest =>
      let s' := step s ev in
      match ev with
      | Requested r =>
          maxRequestedSinceDrain s' (Z.max (requestedStage r) acc) rest
      | Ran _ =>
          maxRequestedSinceDrain s'
            (if _nextLayoutStage s' =? idle then idle else acc) rest
      end
  end.

(** The surface the constructor leaves before any data is set. *)
Definition initialSurface : Surface :=
  {| _closedDisplayMode := None;
     _primaryCommands := [];
     _secondaryCommands := [];
     _nextLayoutStage := idle;
     _cachedMeasurements := None;
     overflowButtonDisplay := displayUnset;
     overflowAreaChildren := [] |}.

(** The calls that reach the pipeline from outside the class: a change of
    the data, [forceLayout], a resize notification, an assignment to
    [closedDisplayMode], and the machine running [_updateDomImpl]. *)
Inductive SurfaceCall :=
  | DataUpdated (data : list ICommand.t)
  | ForceLayout
  | Resized (rootOffsetWidth currentActionAreaWidth : Z)
  | SetClosedDisplayMode (value : string)
  | UpdateDom (d : Dom).

Definition call (s : Surface) (c : SurfaceCall) : Surface :=
  match c with
  | DataUpdated data => _dataUpdated data s
  | ForceLayout => forceLayout s
  | Resized w a => (_resizeHandler w a s).1
  | SetClosedDisplayMode value => (set_closedDisplayMode value s).1
  | UpdateDom d => step s (Ran d)
  end.

(** The pending stage is one of the four stages, and the layout stage is
    pending only when a snapshot exists. *)
Definition pipelineInvariant (s : Surface) : Prop :=
  (_nextLayoutStage s = idle ∨ _nextLayoutStage s = layoutStage ∨
   _nextLayoutStage s = measuringStage ∨ _nextLayoutStage s = newDataStage) ∧
  (_nextLayoutStage s = layoutStage → is_Some (_cachedMeasurements s)).

(** The surface the action of [stage] leaves when it returns, and what
    it reports. *)
Definition afterStage (d : Dom) (s : Surface) (stage : Z) : Surface :=
  match stageAction d stage s with
  | Some (_, Normal (s', _)) => s'
  | _ => s
  end.

Definition stageOutcome (d : Dom) (s : Surface) (stage : Z) : option bool :=
  match stageAction d stage s with
  | Some (_, Normal (_, okToProceed)) => Some okToProceed
  | _ => None
  end.

(** The stages from the pending stage [stage] down to the layout. *)
Definition pendingStages (stage : Z) : list Z :=
  if stage =? newDataStage then [newDataStage; measuringStage; layoutStage]
  else if stage =? measuringStage then [measuringStage; layoutStage]
  else if stage =? layoutStage then [layoutStage]
  else [].

(** The stages of a trace count down by one from [from]. *)
Fixpoint consecutiveDown (from : Z) (stages : list Z) : Prop :=
  match stages with
  | [] => True
  | x :: rest => x = from ∧ consecutiveDown (from - 1) rest
  end.

(** ** Readings of a measurement *)

Definition isContentCommand (c : ICommand.t) : bool :=
  bool_decide (ICommand.type c = typeContent).

Definition isSeparatorCommand (c : ICommand.t) : bool :=
  isSeparator (ICommand.type c).

(** Button, toggle and flyout commands. *)
Definition isStandardCommand (c : ICommand.t) : bool :=
  negb (isContentCommand c) && negb (isSeparatorCommand c).

Definition totalWidths (d : Dom) (cmds : list ICommand.t) : list Z :=
  (λ c, elementTotalWidth d (ICommand.uniqueID c)) <$> cmds.

(** The first width that is not 0; 0 when there is none. *)
Fixpoint firstNonZero (ws : list Z) : Z :=
  match ws with
  | [] => 0
  | w :: rest => if w =? 0 then firstNonZero rest else w
  end.

(** The first width; 0 when there is none. *)
Definition firstWidth (ws : list Z) : Z :=
  match ws with
  | [] => 0
  | w :: _ => w
  end.

(** ** Directions of the traversal *)

(** The index the traversal moves to from the focused index [i] in a list
    of [n] focusable elements. *)
Definition targetIndex (dir : Direction) (n i : Z) : Z :=
  match dir with
  | Home => 0
  | End => n - 1
  | Forward => Z.min (i + 1) (n - 1)
  | Backward => Z.max (i - 1) 0 `mod` n
  end.

(** ** Legal closed display modes *)

Definition isClosedDisplayMode (value : string) : bool :=
  bool_decide (value ∈ ["none"; "minimal"; "compact"; "full"]).

(** ** Sample data *)

Module Sample.
Definition button (id : string) (p : option Z) (isHidden : bool) :
    ICommand.t :=
  ICommand.mk id typeButton "primary" p isHidden false false (Some id)
    displayUnset.

Definition separator (id : string) : ICommand.t :=
  ICommand.mk id typeSeparator "primary" None false false false None
    displayUnset.

Definition content (id : string) (p : option Z) : ICommand.t :=
  ICommand.mk id typeContent "primary" p false false false None displayUnset.

Definition secondaryButton (id : string) : ICommand.t :=
  ICommand.mk id typeButton "secondary" None false false false (Some id)
    displayUnset.

(** The widths of [_Constants.ts]: a command 68, a separator 34, the
    overflow button 32; one content command of width 100. *)
Definition snapshot (available : Z) : Measurements :=
  {| overflowButtonWidth := 32;
     separatorWidth := 34;
     standardCommandWidth := 68;
     contentCommandWidths := {[ "c1" := 100 ]};
     actionAreaContentBoxWidth := available |}.

Definition surface (primary secondary : list ICommand.t)
    (cache : option Measurements) : Surface :=
  {| _closedDisplayMode := Some "compact";
     _primaryCommands := primary;
     _secondaryCommands := secondary;
     _nextLayoutStage := idle;
     _cachedMeasurements := cache;
     overflowButtonDisplay := displayUnset;
     overflowAreaChildren := [] |}.

Definition toolbar : list ICommand.t :=
  [button "b1" None false; separator "sep"; content "c1" (Some 5);
   button "b2" None false].

Definition attached (contentWidth : Z) : Dom :=
  {| rootInBody := true;
     actionAreaOffsetWidth := contentWidth;
     overflowButtonTotalWidth := 32;
     actionAreaContentWidth := contentWidth;
     elementTotalWidth :=
       λ id, if String.eqb id "sep" then 34
             else if String.eqb id "c1" then 100 else 68 |}.

Definition detached : Dom :=
  {| rootInBody := false;
     actionAreaOffsetWidth := 0;
     overflowButtonTotalWidth := 0;
     actionAreaContentWidth := 0;
     elementTotalWidth := λ _, 0 |}.
End Sample.

Definition sampleSurface (available : Z) : Surface :=
  Sample.surface Sample.toolbar [Sample.secondaryButton "s1"]
    (Some (Sample.snapshot available)).



(** A menu whose separators are, in turn, leading, single and internal,
    repeated, and trailing. *)
Definition sampleMenu : list MenuCommand.t :=
  [menuSeparator;
   _projectAsMenuCommand (Sample.button "b1" None false);
   menuSeparator;
   _projectAsMenuCommand (Sample.button "b2" None false);
   menuSeparator;
   menuSeparator;
   _projectAsMenuCommand (Sample.secondaryButton "s1");
   menuSeparator].

(** An attached host in which the element of the command ["s0"] measures 0. *)
Definition collapsedFirstSeparator : Dom :=
  {| rootInBody := true;
     actionAreaOffsetWidth := 400;
     overflowButtonTotalWidth := 32;
     actionAreaContentWidth := 400;
     elementTotalWidth :=
       λ id, if String.eqb id "s0" then 0
             else if String.eqb id "sep" then 34 else 68 |}.

Definition twoSeparatorsSurface : Surface :=
  Sample.surface
    [Sample.separator "s0"; Sample.button "b1" None false;
     Sample.separator "sep"] [] None.

Definition sampleFocus : IFocusableElementsInfo :=
  _getFocusableElementsInfo
    [{| elementId := "b1"; isElementFocusable := true;
        containsActiveElement := false |};
     {| elementId := "sep"; isElementFocusable := false;
        containsActiveElement := false |};
     {| elementId := "b2"; isElementFocusable := true;
        containsActiveElement := true |};
     {| elementId := "overflowbutton"; isElementFocusable := true;
        containsActiveElement := false |}].

(** ** The scenarios of the test suite *)

Module TestSuite.
Definition mkCommand (id : string) (t : CommandType) (sec : string)
    (p : option Z) (l : option string) : ICommand.t :=
  ICommand.mk id t sec p false false false l displayUnset.

(** The data of [testOverflowBehaviorDefaultPriority]. *)
Definition defaultPriorityData : list ICommand.t :=
  [mkCommand "e1" typeButton "primary" None (Some "1");
   mkCommand "e2" typeSeparator "primary" None (Some "2");
   mkCommand "e3" typeButton "primary" None (Some "3");
   mkCommand "e4" typeButton "primary" None (Some "4");
   mkCommand "e5" typeSeparator "primary" None (Some "5");
   mkCommand "e6" typeButton "primary" None (Some "6")].

(** The data of [testOverflowBehaviorCustomPriority]. *)
Definition customPriorityData : list ICommand.t :=
  [mkCommand "e1" typeButton "primary" (Some 1) (Some "1");
   mkCommand "e2" typeContent "primary" (Some 5) (Some "2");
   mkCommand "e3" typeSeparator "primary" (Some 2) None;
   mkCommand "e4" typeButton "primary" (Some 3) (Some "3");
   mkCommand "e5" typeButton "primary" (Some 2) (Some "4");
   mkCommand "e6" typeButton "primary" (Some 4) (Some "5");
   mkCommand "e7" typeSeparator "primary" (Some 5) None;
   mkCommand "e8" typeButton "primary" (Some 5) (Some "6");
   mkCommand "e9" typeButton "secondary" None (Some "sec 1");
   mkCommand "e10" typeButton "secondary" None (Some "sec 2")].

(** A host of content width [w] whose commands have the widths of
    [_Constants.ts]; [customContentWidth] is the width of the one content
    command. *)
Definition customContentWidth : Z := 200.

Definition host (data : list ICommand.t) (w : Z) : Dom :=
  {| rootInBody := true;
     actionAreaOffsetWidth := w;
     overflowButtonTotalWidth := 32;
     actionAreaContentWidth := w;
     elementTotalWidth :=
       λ id,
         match List.find (λ c, String.eqb (ICommand.uniqueID c) id) data with
         | Some c =>
             match ICommand.type c with
             | typeSeparator => 34
             | typeContent => customContentWidth
             | _ => 68
             end
         | None => 0
         end |}.

Definition shown (d : string) : bool := negb (String.eqb d displayNone).

Definition entryName (e : MenuCommand.t) : string :=
  if isSeparator (MenuCommand.type e) then "separator"
  else default "?" (MenuCommand.label e).

(** What the tests look at after [forceLayout] on a host of width [w]:
    the number of commands visible in the action area, whether the overflow
    button is shown, and the names of the visible menu entries. *)
Definition outcome (data : list ICommand.t) (w : Z) :
    option (nat * bool * list string) :=
  match _updateDomImpl_updateCommands pipelineFuel (host data w)
          (forceLayout (_dataUpdated data initialSurface)) with
  | Some (Normal (s, _)) =>
      Some (length (List.filter (λ c, shown (ICommand.display c))
                      (_primaryCommands s)),
            shown (overflowButtonDisplay s),
            entryName <$>
              List.filter (λ e, shown (MenuCommand.display e))
                (overflowAreaChildren s))
  | _ => None
  end.
End TestSuite.

(** The relation between a primary command before the layout and the same
    command after it, given the side of the cutoff its info falls on. *)
Definition laidOut (maxPriority : option Z) (ci : ICommandInfo.t)
    (c' : ICommand.t) : Prop :=
  if withinMaxPriority maxPriority ci
  then c' = ICommandInfo.command ci ∨
       (isSeparatorCommand (ICommandInfo.command ci) = true ∧
        c' = ICommand.setDisplay displayNone (ICommandInfo.command ci))
  else c' = ICommand.setDisplay displayNone (ICommandInfo.command ci).

(** ** Children of the action area *)

Definition isCommandNode (n : Node) : bool :=
  match n with CommandElement _ => true | _ => false end.

(** ** What the rendering keeps *)

(** No mode, or one of the four closed display modes. *)
Definition legalOrNone (mode : option string) : Prop :=
  match mode with
  | None => True
  | Some m => isClosedDisplayMode m = true
  end.

(** The class list agrees with what was rendered last: the opened and
    closed classes with the rendered state, the four classes of the
    closed display modes with the rendered mode; the two orientation
    classes are never both present, and no other class has changed. *)
Definition renderedInvariant (rootClasses0 : gset string) (r : Rendered) :
    Prop :=
  (ClassNames.openedClass ∈ classes r ↔ renderedOpened r = Some true) ∧
  (ClassNames.closedClass ∈ classes r ↔ renderedOpened r = Some false) ∧
  (ClassNames.noneClass ∈ classes r ↔
   renderedClosedDisplayMode r = Some "none") ∧
  (ClassNames.minimalClass ∈ classes r ↔
   renderedClosedDisplayMode r = Some "minimal") ∧
  (ClassNames.compactClass ∈ classes r ↔
   renderedClosedDisplayMode r = Some "compact") ∧
  (ClassNames.fullClass ∈ classes r ↔
   renderedClosedDisplayMode r = Some "full") ∧
  legalOrNone (renderedClosedDisplayMode r) ∧
  ¬ (ClassNames.topToBottomClass ∈ classes r ∧
     ClassNames.bottomToTopClass ∈ classes r) ∧
  (∀ name, name ∉ stateClasses → (name ∈ classes r ↔ name ∈ rootClasses0)).

(** The class name read from the map for a mode, if it is one. *)
Definition modeClass (mode : option string) : option string :=
  classNameOf (closedDisplayModeClassMap mode).

Definition displayInvariant (rootClasses0 : gset string) (st : DisplayState) :
    Prop :=
  renderedInvariant rootClasses0 (rendered st) ∧
  legalOrNone (closedDisplayModeNow st).

(** * Properties *)

(** ** Doubles that hold integers *)










Lemma roundToGrid_one a : roundToGrid 1 a = a.
Proof.
  unfold roundToGrid. rewrite Z.mod_1_r, Z.div_1_r.
  destruct (Z.ltb_spec (2 * 0) 1); lia.
Qed.

Lemma roundAbs_exact a : 0 ≤ a ≤ 2 ^ 53 → roundToGrid (ulp a) a = a.
Proof.
  intros Ha. unfold ulp. destruct (Z.ltb_spec a (2 ^ 53)).
  - apply roundToGrid_one.
  - assert (a = 2 ^ 53) as -> by lia. reflexivity.
Qed.

Lemma roundToDouble_exact x : - 2 ^ 53 ≤ x ≤ 2 ^ 53 → roundToDouble x = x.
Proof.
  intros Hx. unfold roundToDouble. destruct (Z.ltb_spec x 0).
  - rewrite roundAbs_exact by lia. lia.
  - apply roundAbs_exact. lia.
Qed.

Lemma minusDouble_exact a b :
  - 2 ^ 53 ≤ a - b ≤ 2 ^ 53 → minusDouble a b = a - b.
Proof. apply roundToDouble_exact. Qed.


Lemma decrement_safe p : isSafeInteger p → minusDouble p 1 = p - 1.
Proof. unfold isSafeInteger. intros Hp. apply minusDouble_exact. lia. Qed.

(** ** Effective priorities *)

Lemma countUnprioritized_cons c cmds :
  countUnprioritized (c :: cmds) =
  (if unprioritized c then 1 else 0) + countUnprioritized cmds.
Proof.
  unfold countUnprioritized. simpl.
  destruct (unprioritized c); simpl; lia.
Qed.

Lemma commandsInfoFrom_counter m cmds :
  (commandsInfoFrom m cmds).2 = - countUnprioritized cmds.
Proof.
  induction cmds as [|c rest IH]; [done|].
  rewrite countUnprioritized_cons. simpl.
  destruct (commandsInfoFrom m rest) as [infos cur]. simpl in IH. subst cur.
  unfold unprioritized.
  destruct (ICommand.priority c); simpl; lia.
Qed.

Lemma getCommandsInfo_cons m c rest :
  _getCommandsInfo m (c :: rest) =
  ICommandInfo.mk c
    (if String.eqb (ICommand.display c) displayNone
     then Num 0 else _getCommandWidth m c)
    (match ICommand.priority c with
     | Some p => p
     | None => - countUnprioritized rest
     end)
  :: _getCommandsInfo m rest.
Proof.
  unfold _getCommandsInfo. simpl.
  pose proof (commandsInfoFrom_counter m rest) as Hc.
  destruct (commandsInfoFrom m rest) as [infos cur]. simpl in *. subst cur.
  by destruct (ICommand.priority c).
Qed.

Lemma getCommandsInfo_nil m : _getCommandsInfo m [] = [].
Proof. done. Qed.

Lemma getCommandsInfo_command m cmds :
  ICommandInfo.command <$> _getCommandsInfo m cmds = cmds.
Proof.
  induction cmds as [|c rest IH]; [done|].
  by rewrite getCommandsInfo_cons, fmap_cons, IH.
Qed.

Lemma getCommandsInfo_length m cmds :
  length (_getCommandsInfo m cmds) = length cmds.
Proof.
  rewrite <- (getCommandsInfo_command m cmds) at 2. by rewrite length_fmap.
Qed.

Lemma getCommandsInfo_lookup m cmds (i : nat) c :
  cmds !! i = Some c →
  _getCommandsInfo m cmds !! i =
  Some (ICommandInfo.mk c
          (if String.eqb (ICommand.display c) displayNone
           then Num 0 else _getCommandWidth m c)
          (match ICommand.priority c with
           | Some p => p
           | None => - countUnprioritized (drop (S i) cmds)
           end)).
Proof.
  revert i. induction cmds as [|c' rest IH]; intros i Hi; [done|].
  rewrite getCommandsInfo_cons.
  destruct i as [|i]; simpl in *.
  - injection Hi as ->. by rewrite drop_0.
  - by apply IH.
Qed.

(** ** The sort *)

Lemma insertByPriority_Permutation ci l :
  insertByPriority ci l ≡ₚ ci :: l.
Proof.
  induction l as [|x rest IH]; [done|]. simpl.
  destruct (ICommandInfo.priority ci <=? ICommandInfo.priority x); [done|].
  rewrite IH. apply Permutation_swap.
Qed.

Lemma sortByPriority_Permutation l : sortByPriority l ≡ₚ l.
Proof.
  induction l as [|x rest IH]; [done|]. simpl.
  by rewrite insertByPriority_Permutation, IH.
Qed.


Lemma insertByPriority_sorted ci l :
  StronglySorted priorityLe l → StronglySorted priorityLe (insertByPriority ci l).
Proof.
  induction 1 as [|x rest Hs IH Hx]; simpl.
  - repeat constructor.
  - destruct (Z.leb_spec (ICommandInfo.priority ci) (ICommandInfo.priority x))
      as [Hle|Hgt].
    + constructor; [by constructor|].
      constructor; [done|].
      eapply Forall_impl; [exact Hx|]. unfold priorityLe. intros; lia.
    + constructor; [done|].
      rewrite insertByPriority_Permutation.
      constructor; [unfold priorityLe; lia | done].
Qed.

Lemma sortByPriority_sorted l : StronglySorted priorityLe (sortByPriority l).
Proof.
  induction l as [|x rest IH]; simpl; [constructor|].
  by apply insertByPriority_sorted.
Qed.

(** ** The walk over the sorted list *)





Lemma getCommandsInfo_width m cmds :
  Forall
    (λ ci,
       ICommandInfo.width ci =
       if String.eqb (ICommand.display (ICommandInfo.command ci)) displayNone
       then Num 0 else _getCommandWidth m (ICommandInfo.command ci))
    (_getCommandsInfo m cmds).
Proof.
  induction cmds as [|c rest IH]; [constructor|].
  rewrite getCommandsInfo_cons. by constructor.
Qed.



(** ** C1: the partition *)





(** ** C3: monotonicity in the available width *)








(** ** C2: when everything fits *)








(** ** C4: synthesized priorities *)

Lemma countUnprioritized_app l k :
  countUnprioritized (l ++ k) = countUnprioritized l + countUnprioritized k.
Proof.
  unfold countUnprioritized. rewrite List.filter_app, length_app. lia.
Qed.

Lemma countUnprioritized_nonneg l : 0 ≤ countUnprioritized l.
Proof. unfold countUnprioritized. lia. Qed.

Lemma countUnprioritized_drop (k : nat) l :
  countUnprioritized (drop k l) ≤ countUnprioritized l.
Proof.
  rewrite <- (take_drop k l) at 2. rewrite countUnprioritized_app.
  pose proof (countUnprioritized_nonneg (take k l)). lia.
Qed.

Lemma countUnprioritized_later cmds (i j : nat) cj :
  (i < j)%nat → cmds !! j = Some cj → unprioritized cj = true →
  countUnprioritized (drop (S j) cmds) < countUnprioritized (drop (S i) cmds).
Proof.
  intros Hij Hj Hu.
  pose proof (countUnprioritized_drop (j - S i) (drop (S i) cmds)) as Hd.
  rewrite drop_drop in Hd.
  replace (S i + (j - S i))%nat with j in Hd by lia.
  rewrite (drop_S _ _ _ Hj), countUnprioritized_cons, Hu in Hd. lia.
Qed.

(** C4 (amended). [_getCommandsInfo] keeps the commands in declaration
    order. A command with an explicit priority keeps it. The commands
    without one receive, walking back to front, the consecutive integers
    0, -1, -2, ...: a command gets minus the number of unprioritized
    commands declared after it. So a synthesized priority is never
    positive, and of two unprioritized commands the one declared later has
    the strictly higher priority (and overflows first). *)
Theorem synthesized_priorities (m : Measurements) (cmds : list ICommand.t)
    (i : nat) (c : ICommand.t) :
  cmds !! i = Some c →
  ∃ ci,
    _getCommandsInfo m cmds !! i = Some ci ∧
    ICommandInfo.command ci = c ∧
    ICommandInfo.priority ci =
      match ICommand.priority c with
      | Some p => p
      | None => - countUnprioritized (drop (S i) cmds)
      end ∧
    (unprioritized c = true →
     ICommandInfo.priority ci ≤ 0 ∧
     ∀ (j : nat) cj,
       (i < j)%nat → _getCommandsInfo m cmds !! j = Some cj →
       unprioritized (ICommandInfo.command cj) = true →
       ICommandInfo.priority ci < ICommandInfo.priority cj).
Proof.
  intros Hi. eexists. split; [by apply getCommandsInfo_lookup|].
  simpl. split_and!; [done..|].
  intros Hu. unfold unprioritized in Hu.
  destruct (ICommand.priority c) eqn:Hp; [done|]. split.
  - pose proof (countUnprioritized_nonneg (drop (S i) cmds)). lia.
  - intros j cj Hij Hj Huj.
    assert (Hcj : cmds !! j = Some (ICommandInfo.command cj)).
    { rewrite <- (getCommandsInfo_command m cmds), list_lookup_fmap, Hj.
      done. }
    rewrite (getCommandsInfo_lookup m cmds j _ Hcj) in Hj.
    injection Hj as <-. simpl.
    pose proof (countUnprioritized_later cmds i j _ Hij Hcj Huj).
    unfold unprioritized in Huj.
    destruct (ICommand.priority (ICommandInfo.command cj)); [done|]. lia.
Qed.

Lemma synthesized_priorities_witness :
  Sample.toolbar !! 1%nat = Some (Sample.separator "sep") ∧
  ∃ ci,
    _getCommandsInfo (Sample.snapshot 200) Sample.toolbar !! 1%nat = Some ci ∧
    ICommandInfo.priority ci = -1.
Proof.
  split; [reflexivity|].
  destruct (synthesized_priorities (Sample.snapshot 200) Sample.toolbar 1
              (Sample.separator "sep") eq_refl) as (ci & Hl & _ & Hp & _).
  exists ci. split; [exact Hl|]. rewrite Hp. reflexivity.
Defined.

(** C4 as stated fails: the last unprioritized command is given 0, which
    is not a negative integer. *)
Lemma synthesized_priorities_counterexample :
  ∃ ci,
    _getCommandsInfo (Sample.snapshot 200) [Sample.button "b1" None false]
      !! 0%nat = Some ci ∧
    ICommand.priority (ICommandInfo.command ci) = None ∧
    ¬ ICommandInfo.priority ci < 0.
Proof. eexists. split_and!; [reflexivity | reflexivity | simpl; lia]. Qed.

(** ** C5: separators *)

Section SeparatorFacts.
Context {A : Type} `{ICommandWithType A}.

Lemma isSep_hide c : isSep (hide c) = isSep c.
Proof. unfold isSep, hide. by rewrite typeOf_withDisplay. Qed.

Lemma hideLeadingOrConsecutive_lookup (l : list A) :
  ∀ prev (i : nat),
    hideLeadingOrConsecutive prev l !! i =
    (λ c, if isSep c &&
             match i with
             | O => isSeparator prev
             | S j => match l !! j with Some p => isSep p | None => false end
             end
          then hide c else c) <$> l !! i.
Proof.
  induction l as [|c rest IH]; intros prev i; [done|].
  destruct i as [|i]; [done|].
  cbn [hideLeadingOrConsecutive]. rewrite !lookup_cons. rewrite IH.
  destruct (rest !! i) as [x|] eqn:Hx; [|done]. simpl.
  destruct i as [|i]; simpl; done.
Qed.

Lemma hideLeadingOrConsecutive_isSep (l : list A) :
  ∀ prev, isSep <$> hideLeadingOrConsecutive prev l = isSep <$> l.
Proof.
  induction l as [|c rest IH]; intros prev; [done|].
  cbn [hideLeadingOrConsecutive]. rewrite !fmap_cons, IH. f_equal.
  destruct (isSep c && isSeparator prev); [apply isSep_hide|done].
Qed.

Lemma hideLeadingOrConsecutive_type (l : list A) :
  ∀ prev, typeOf <$> hideLeadingOrConsecutive prev l = typeOf <$> l.
Proof.
  induction l as [|c rest IH]; intros prev; [done|].
  cbn [hideLeadingOrConsecutive]. rewrite !fmap_cons, IH. f_equal.
  destruct (isSep c && isSeparator prev); [apply typeOf_withDisplay|done].
Qed.

Lemma hideTrailing_running (l : list A) :
  (hideTrailing l).2 = forallb isSep l.
Proof.
  induction l as [|c rest IH]; [done|]. simpl.
  destruct (hideTrailing rest) as [rest' running]. simpl in IH. subst running.
  destruct (forallb isSep rest), (isSep c); done.
Qed.

Lemma hideTrailing_lookup (l : list A) :
  ∀ i : nat,
    (hideTrailing l).1 !! i =
    (λ c, if forallb isSep (drop i l) then hide c else c) <$> l !! i.
Proof.
  induction l as [|c rest IH]; intros i; [done|].
  pose proof (hideTrailing_running rest) as Hr. simpl.
  destruct (hideTrailing rest) as [rest' running]. simpl in *. subst running.
  destruct i as [|i].
  - simpl. destruct (forallb isSep rest), (isSep c); done.
  - specialize (IH i).
    destruct (forallb isSep rest), (isSep c); simpl; exact IH.
Qed.

Lemma hideTrailing_type (l : list A) :
  typeOf <$> (hideTrailing l).1 = typeOf <$> l.
Proof.
  induction l as [|c rest IH]; [done|]. cbn [hideTrailing].
  destruct (hideTrailing rest) as [rest' running]. cbn [fst] in IH.
  destruct (running && isSep c); cbn [fst]; rewrite !fmap_cons, IH; [|done].
  f_equal. apply typeOf_withDisplay.
Qed.

Lemma forallb_isSep_fmap (l k : list A) :
  isSep <$> l = isSep <$> k → forallb isSep l = forallb isSep k.
Proof.
  revert k. induction l as [|x l IH]; intros [|y k] Heq; try done.
  rewrite !fmap_cons in Heq. injection Heq as Hx Hl.
  simpl. by rewrite Hx, (IH k Hl).
Qed.

Lemma hideSeparators_lookup (l : list A) (i : nat) :
  _hideSeparatorsIfNeeded l !! i =
  (λ c,
     let c1 := if isSep c && afterSeparator l i then hide c else c in
     if forallb isSep (drop i l) then hide c1 else c1) <$> l !! i.
Proof.
  unfold _hideSeparatorsIfNeeded.
  rewrite hideTrailing_lookup, hideLeadingOrConsecutive_lookup.
  rewrite (forallb_isSep_fmap
             (drop i (hideLeadingOrConsecutive typeSeparator l)) (drop i l)).
  - destruct (l !! i) as [c|]; [|done]. simpl.
    unfold afterSeparator. by destruct i.
  - by rewrite !fmap_drop, hideLeadingOrConsecutive_isSep.
Qed.

Lemma forallb_isSep_Forall (l : list A) :
  forallb isSep l = true ↔ Forall (λ x, isSep x = true) l.
Proof.
  rewrite forallb_forall, Forall_forall.
  split; intros Hl x Hx; apply Hl; by apply list_elem_of_In.
Qed.

Lemma displayOf_hide c : displayOf (hide c) = displayNone.
Proof. apply displayOf_withDisplay. Qed.

(** C5. [_hideSeparatorsIfNeeded] removes no entry and changes no type.
    A separator that is leading (only separators before it), trailing
    (only separators after it) or that directly follows a separator ends
    with display none; a separator that is none of the three is left as it
    was, so a shown one stays shown. *)
Theorem separators_collapsed (l : list A) (i : nat) (c : A) :
  l !! i = Some c →
  isSep c = true →
  length (_hideSeparatorsIfNeeded l) = length l ∧
  typeOf <$> _hideSeparatorsIfNeeded l = typeOf <$> l ∧
  (leadingAt l i ∨ trailingAt l i ∨ followsSeparatorAt l i →
   ∃ c', _hideSeparatorsIfNeeded l !! i = Some c' ∧
         displayOf c' = displayNone) ∧
  (¬ leadingAt l i → ¬ trailingAt l i → ¬ followsSeparatorAt l i →
   _hideSeparatorsIfNeeded l !! i = Some c).
Proof.
  intros Hi Hsep.
  assert (Htype : typeOf <$> _hideSeparatorsIfNeeded l = typeOf <$> l).
  { unfold _hideSeparatorsIfNeeded.
    by rewrite hideTrailing_type, hideLeadingOrConsecutive_type. }
  split_and!.
  - by rewrite <- (length_fmap typeOf), Htype, length_fmap.
  - exact Htype.
  - intros Hcase. rewrite hideSeparators_lookup, Hi. simpl.
    eexists. split; [reflexivity|]. rewrite Hsep. simpl.
    destruct (forallb isSep (drop i l)) eqn:Htrail;
      [apply displayOf_hide|].
    assert (afterSeparator l i = true) as ->; [|apply displayOf_hide].
    destruct Hcase as [Hlead|[Htr|(j & p & -> & Hj & Hp)]].
    + destruct i as [|j]; [done|]. simpl.
      unfold leadingAt in Hlead. rewrite Forall_forall in Hlead.
      assert (Hlt : (j < length l)%nat).
      { apply lookup_lt_Some in Hi. lia. }
      destruct (lookup_lt_is_Some_2 l j Hlt) as [p Hp]. rewrite Hp.
      apply Hlead. apply list_elem_of_lookup. exists j.
      rewrite lookup_take_lt; [done|lia].
    + exfalso. rewrite (drop_S _ _ _ Hi) in Htrail. simpl in Htrail.
      rewrite Hsep in Htrail. simpl in Htrail.
      apply forallb_isSep_Forall in Htr. unfold trailingAt in Htr.
      congruence.
    + simpl. by rewrite Hj.
  - intros Hlead Htr Hfol. rewrite hideSeparators_lookup, Hi. simpl.
    rewrite Hsep. simpl.
    assert (forallb isSep (drop i l) = false) as ->.
    { rewrite (drop_S _ _ _ Hi). simpl. rewrite Hsep. simpl.
      destruct (forallb isSep (drop (S i) l)) eqn:Hf; [|done].
      exfalso. apply Htr. by apply forallb_isSep_Forall. }
    assert (afterSeparator l i = false) as ->; [|done].
    destruct i as [|j].
    + exfalso. apply Hlead. unfold leadingAt. by rewrite take_0.
    + simpl. destruct (l !! j) as [p|] eqn:Hp; [|done].
      destruct (isSep p) eqn:Hps; [|done].
      exfalso. apply Hfol. by exists j, p.
Qed.

End SeparatorFacts.

(** The entries [_layoutCommands] hands to [_hideSeparatorsIfNeeded] are
    fresh: each one is on display, so an entry left unchanged is shown. *)
Lemma menuCommandProjections_shown (overflowCommands secondary :
    list ICommand.t) :
  Forall (λ e, MenuCommand.display e = displayUnset)
    (menuCommandProjections overflowCommands secondary).
Proof.
  unfold menuCommandProjections. rewrite !Forall_app. split_and!.
  - by apply Forall_fmap, Forall_true.
  - destruct (negb (isNil overflowCommands) && negb (isNil secondary));
      by repeat constructor.
  - by apply Forall_fmap, Forall_true.
Qed.

Lemma separators_collapsed_witness :
  (sampleMenu !! 2%nat = Some menuSeparator ∧ isSep menuSeparator = true) ∧
  _hideSeparatorsIfNeeded sampleMenu !! 2%nat = Some menuSeparator ∧
  MenuCommand.display <$> _hideSeparatorsIfNeeded sampleMenu =
    [displayNone; displayUnset; displayUnset; displayUnset; displayUnset;
     displayNone; displayUnset; displayNone].
Proof.
  assert (Hi : sampleMenu !! 2%nat = Some menuSeparator) by reflexivity.
  assert (Hs : isSep menuSeparator = true) by reflexivity.
  split; [split; assumption|].
  destruct (separators_collapsed sampleMenu 2 menuSeparator Hi Hs)
    as (_ & _ & _ & Hkept).
  split; [|reflexivity].
  apply Hkept.
  - intros Hl. apply forallb_isSep_Forall in Hl. discriminate Hl.
  - intros Hl. apply forallb_isSep_Forall in Hl. discriminate Hl.
  - intros (j & p & Hj & Hp & Hps). injection Hj as <-.
    injection Hp as <-. discriminate Hps.
Defined.

(** ** C6 and C7: the layout pipeline *)

Lemma request_stage s r :
  _nextLayoutStage (request s r) = Z.max (requestedStage r) (_nextLayoutStage s).
Proof. by destruct r. Qed.

Lemma requests_stage (rs : list StageRequest) :
  ∀ s, _nextLayoutStage (foldl request s rs) =
       foldr Z.max (_nextLayoutStage s) (requestedStage <$> reverse rs).
Proof.
  induction rs as [|r rs IH]; intros s; [done|].
  simpl. rewrite IH, request_stage, reverse_cons, fmap_app, foldr_app. done.
Qed.

Lemma foldr_max_le (x : Z) (l : list Z) :
  x ≤ foldr Z.max x l ∧ Forall (λ y, y ≤ foldr Z.max x l) l.
Proof.
  induction l as [|y l [IH1 IH2]]; simpl; [split; [lia|constructor]|].
  split; [lia|]. constructor; [lia|].
  eapply Forall_impl; [exact IH2|]. simpl. intros; lia.
Qed.

Lemma foldr_max_Permutation (x : Z) (l k : list Z) :
  l ≡ₚ k → foldr Z.max x l = foldr Z.max x k.
Proof.
  induction 1 as [|y l k _ IH|y z l|l k j _ IH1 _ IH2]; simpl; lia.
Qed.

Lemma exec_app s t1 t2 : exec s (t1 ++ t2) = exec (exec s t1) t2.
Proof. apply foldl_app. Qed.

Lemma exec_requests (rs : list StageRequest) :
  ∀ s, exec s (Requested <$> rs) = foldl request s rs.
Proof. induction rs as [|r rs IH]; intros s; [done|]. simpl. apply IH. Qed.

(** C6 (amended). Between two runs of the pipeline the pending stage is
    the maximum of the stage the latest run left pending (idle after a full
    drain, the failed stage otherwise; idle before the first run) and of
    all the stages requested since that run. Each request replaces the
    pending stage by the maximum of the requested stage and the pending
    one, so requests never lower it. *)
Theorem pending_stage_is_max_of_requests (s : Surface)
    (trace : list PipelineEvent) (rs : list StageRequest) :
  let afterRun := exec s trace in
  let now := exec s (trace ++ (Requested <$> rs)) in
  _nextLayoutStage now =
    foldr Z.max (_nextLayoutStage afterRun) (requestedStage <$> rs) ∧
  _nextLayoutStage afterRun ≤ _nextLayoutStage now ∧
  Forall (λ r, requestedStage r ≤ _nextLayoutStage now) rs ∧
  ∀ r, _nextLayoutStage (step now (Requested r)) =
       Z.max (requestedStage r) (_nextLayoutStage now).
Proof.
  intros afterRun now.
  assert (Hnow : _nextLayoutStage now =
                 foldr Z.max (_nextLayoutStage afterRun) (requestedStage <$> rs)).
  { unfold now, afterRun. rewrite exec_app, exec_requests, requests_stage.
    apply foldr_max_Permutation. by rewrite reverse_Permutation. }
  destruct (foldr_max_le (_nextLayoutStage afterRun) (requestedStage <$> rs))
    as [Hle Hall].
  split_and!.
  - exact Hnow.
  - lia.
  - rewrite Forall_fmap in Hall. eapply Forall_impl; [exact Hall|].
    simpl. intros r Hr. lia.
  - intros r. apply request_stage.
Qed.

(** C6 as stated fails: after a data change, a run in which the host is
    not attached executes the new-data stage and parks at measuring. The
    pending stage is then 2 although stage 3 was requested and no run has
    drained the pipeline to idle since. *)
Lemma pending_stage_counterexample :
  _nextLayoutStage
    (exec initialSurface [Requested DataChange; Ran Sample.detached])
  = measuringStage ∧
  maxRequestedSinceDrain initialSurface idle
    [Requested DataChange; Ran Sample.detached]
  = newDataStage ∧
  _nextLayoutStage
    (exec initialSurface [Requested DataChange; Ran Sample.detached])
  ≠ maxRequestedSinceDrain initialSurface idle
      [Requested DataChange; Ran Sample.detached].
Proof. split_and!; [reflexivity | reflexivity | discriminate]. Qed.

Lemma layoutCommands_Normal s m :
  _cachedMeasurements s = Some m →
  ∃ s', _layoutCommands s = Normal (s', true) ∧
        _nextLayoutStage s' = _nextLayoutStage s ∧
        _cachedMeasurements s' = Some m.
Proof.
  intros Hc. unfold _layoutCommands, _getPrimaryCommandsLocation. simpl.
  rewrite Hc. eexists. split; [reflexivity|]. by simpl.
Qed.

Lemma layoutCommands_Throws s :
  _cachedMeasurements s = None → _layoutCommands s = Throws.
Proof.
  intros Hc. unfold _layoutCommands, _getPrimaryCommandsLocation. simpl.
  by rewrite Hc.
Qed.

Lemma measure_fails d s : canMeasure d = false → _measure d s = (s, false).
Proof. intros Hc. unfold _measure. by rewrite Hc. Qed.

Lemma measure_succeeds d s :
  canMeasure d = true →
  ∃ m, _measure d s = (setCachedMeasurements m s, true).
Proof.
  intros Hc. unfold _measure. rewrite Hc.
  destruct (measureCommands d (_primaryCommands s)) as [[sepW stdW] contentW].
  by eexists.
Qed.

Lemma stageAction_other d n s :
  n ≠ newDataStage → n ≠ measuringStage → n ≠ layoutStage →
  stageAction d n s = None.
Proof.
  intros H3 H2 H1. unfold stageAction.
  destruct (Z.eqb_spec n newDataStage); [done|].
  destruct (Z.eqb_spec n measuringStage); [done|].
  destruct (Z.eqb_spec n layoutStage); done.
Qed.

Lemma drain_idle f d s log :
  drain (S f) d idle s log = Some (Normal (idle, s, log)).
Proof. done. Qed.

Lemma drain_other f d n s log :
  n ≠ idle → n ≠ newDataStage → n ≠ measuringStage → n ≠ layoutStage →
  drain (S f) d n s log = Some (Normal (n, s, log)).
Proof.
  intros H0 H3 H2 H1. cbn [drain].
  destruct (Z.eqb_spec n idle); [done|].
  by rewrite stageAction_other.
Qed.

Lemma drain_layout f d s log :
  drain (S (S f)) d layoutStage s log =
  match _cachedMeasurements s with
  | None => Some Throws
  | Some _ =>
      match _layoutCommands s with
      | Normal (s', _) =>
          Some (Normal (idle, s', log ++ [(layoutStage, true)]))
      | Throws => Some Throws
      end
  end.
Proof.
  change (drain (S (S f)) d layoutStage s log) with
    (match _layoutCommands s with
     | Throws => Some Throws
     | Normal (s', okToProceed) =>
         if okToProceed
         then drain (S f) d idle s' (log ++ [(layoutStage, okToProceed)])
         else Some (Normal (layoutStage, s',
                            log ++ [(layoutStage, okToProceed)]))
     end).
  destruct (_cachedMeasurements s) as [m|] eqn:Hc.
  - destruct (layoutCommands_Normal s m Hc) as (s' & -> & _). done.
  - by rewrite layoutCommands_Throws.
Qed.

Lemma drain_measuring f d s log :
  drain (S (S (S f))) d measuringStage s log =
  if canMeasure d
  then drain (S (S f)) d layoutStage (_measure d s).1
         (log ++ [(measuringStage, true)])
  else Some (Normal (measuringStage, s, log ++ [(measuringStage, false)])).
Proof.
  change (drain (S (S (S f))) d measuringStage s log) with
    (let '(s', okToProceed) := _measure d s in
     if okToProceed
     then drain (S (S f)) d layoutStage s'
            (log ++ [(measuringStage, okToProceed)])
     else Some (Normal (measuringStage, s',
                        log ++ [(measuringStage, okToProceed)]))).
  destruct (canMeasure d) eqn:Hc.
  - destruct (measure_succeeds d s Hc) as [m ->]. done.
  - by rewrite measure_fails.
Qed.

Lemma drain_newData f d s log :
  drain (S (S (S (S f)))) d newDataStage s log =
  drain (S (S (S f))) d measuringStage s (log ++ [(newDataStage, true)]).
Proof. done. Qed.

Ltac elem_cases H :=
  unfold newDataStage, measuringStage, layoutStage, idle in *;
  repeat (apply elem_of_cons in H as [H|H];
          [try discriminate H; try (injection H as ->) |]);
  try (apply elem_of_nil in H; destruct H).

(** Closes the facts about a run whose trace is known. *)
Ltac run_facts :=
  split_and!;
  try done;
  try (intros ? Hin; elem_cases Hin; done);
  try (intros Hall _; exfalso;
       repeat (apply Forall_cons in Hall as [? Hall]);
       simpl in *; congruence);
  try (intros _ _; split_and!; try done; intros Hin; elem_cases Hin; done).

Lemma afterStage_newData d s : afterStage d s newDataStage = s.
Proof. done. Qed.

Lemma afterStage_measuring d s :
  afterStage d s measuringStage = (_measure d s).1.
Proof. unfold afterStage. cbn. by destruct (_measure d s). Qed.

Lemma afterStage_layout d s s' ok :
  _layoutCommands s = Normal (s', ok) → afterStage d s layoutStage = s'.
Proof. unfold afterStage. cbn. by intros ->. Qed.

Lemma stageOutcome_measuring d s :
  stageOutcome d s measuringStage = Some (canMeasure d).
Proof.
  unfold stageOutcome. cbn. destruct (canMeasure d) eqn:Hc.
  - by destruct (measure_succeeds d s Hc) as [m ->].
  - by rewrite measure_fails.
Qed.

Lemma stageOutcome_layout d s s' ok :
  _layoutCommands s = Normal (s', ok) →
  stageOutcome d s layoutStage = Some ok.
Proof. unfold stageOutcome. cbn. by intros ->. Qed.

(** Closes the facts about the entries of a trace that is known. *)
Ltac entry_facts Hm Hl :=
  let i := fresh "i" in
  let Hi := fresh "Hi" in
  intros i ? ? Hi;
  destruct i as [|[|[|i]]]; simpl in Hi; try discriminate Hi;
  injection Hi as <- <-;
  cbn [take fmap list_fmap fst foldl];
  rewrite ?afterStage_newData, ?afterStage_measuring, ?Hm; cbn [fst];
  first [ reflexivity
        | rewrite stageOutcome_measuring; congruence
        | by apply (stageOutcome_layout _ _ _ _ Hl) ].

Ltac next_facts :=
  let j := fresh "j" in
  let Hj := fresh "Hj" in
  let Hst := fresh "Hst" in
  intros j ? Hj Hst ?;
  destruct j as [|[|[|j]]]; [| | |lia];
  simpl in Hst; try discriminate Hst; injection Hst as <-;
  first [done | by eexists].

(** C7. A run of the pipeline with enough fuel for the loop returns. The
    stages whose action ran count down one by one from the pending stage
    (new data, measuring, layout): the action of a pending stage runs,
    and after an action that succeeded the action of the next stage runs,
    on the surface the former left. What is logged for a stage is what
    its action reported, and the surface at the end is the one the
    actions left, with the pending stage set. If an action reported
    failure, it was the last one to run and the pending stage is left at
    exactly its stage; if every action that ran succeeded, the pending
    stage is left idle. In particular, when the host cannot be measured
    and the measuring stage runs, the pipeline is left parked at
    measuring, the layout stage does not run and the snapshot is
    untouched. The only run that throws is one that starts at the layout
    stage without a snapshot. *)
Theorem pipeline_run_drains_in_order (fuel : nat) (d : Dom) (s : Surface) :
  (pipelineFuel ≤ fuel)%nat →
  (∃ s' log,
     _updateDomImpl_updateCommands fuel d s = Some (Normal (s', log)) ∧
     consecutiveDown (_nextLayoutStage s) (log.*1) ∧
     (∀ stage, (stage, false) ∈ log →
        last log = Some (stage, false) ∧ _nextLayoutStage s' = stage) ∧
     (Forall (λ e, e.2 = true) log → log ≠ [] → _nextLayoutStage s' = idle) ∧
     (log = [] → _nextLayoutStage s' = _nextLayoutStage s) ∧
     (canMeasure d = false → measuringStage ∈ (log.*1) →
        _nextLayoutStage s' = measuringStage ∧ (layoutStage ∉ (log.*1)) ∧
        _cachedMeasurements s' = _cachedMeasurements s) ∧
     (_nextLayoutStage s ∈ [newDataStage; measuringStage; layoutStage] →
        head (log.*1) = Some (_nextLayoutStage s)) ∧
     (∀ i stage, log !! i = Some (stage, true) → stage ≠ layoutStage →
        ∃ ok, log !! S i = Some (stage - 1, ok)) ∧
     (∀ i stage ok, log !! i = Some (stage, ok) →
        stageOutcome d (foldl (afterStage d) s (take i (log.*1))) stage
        = Some ok) ∧
     s' = setNextLayoutStage (_nextLayoutStage s')
            (foldl (afterStage d) s (log.*1)))
  ∨ (_updateDomImpl_updateCommands fuel d s = Some Throws ∧
     _nextLayoutStage s = layoutStage ∧ _cachedMeasurements s = None).
Proof.
  intros Hfuel. unfold pipelineFuel in Hfuel.
  destruct fuel as [|[|[|[|f]]]]; try lia. clear Hfuel.
  unfold _updateDomImpl_updateCommands.
  set (n := _nextLayoutStage s).
  assert (Hafter : ∀ f0 s0 log0,
    (∃ m, _cachedMeasurements s0 = Some m) →
    ∃ s1, _layoutCommands s0 = Normal (s1, true) ∧
          drain (S (S f0)) d layoutStage s0 log0
          = Some (Normal (idle, s1, log0 ++ [(layoutStage, true)]))).
  { intros f0 s0 log0 [m Hm]. rewrite drain_layout, Hm.
    destruct (layoutCommands_Normal s0 m Hm) as (s1 & Hl & _).
    exists s1. by rewrite Hl. }
  assert (Hnext : ∀ l : list (Z * bool),
    (length l ≤ 3)%nat →
    (∀ j st, (j < 3)%nat → l !! j = Some (st, true) → st ≠ layoutStage →
             ∃ ok, l !! S j = Some (st - 1, ok)) →
    ∀ (i : nat) (stage : Z),
      l !! i = Some (stage, true) → stage ≠ layoutStage →
      ∃ ok, l !! S i = Some (stage - 1, ok)).
  { intros l Hlen Hall i stage Hi Hne.
    apply Hall; [|done..]. apply lookup_lt_Some in Hi. lia. }
  destruct (decide (n = newDataStage)) as [Hn|H3];
    [|destruct (decide (n = measuringStage)) as [Hn|H2];
      [|destruct (decide (n = layoutStage)) as [Hn|H1];
        [|destruct (decide (n = idle)) as [Hn|H0]]]].
  - (* new data *)
    rewrite Hn, drain_newData, drain_measuring.
    destruct (canMeasure d) eqn:Hc.
    + destruct (measure_succeeds d s Hc) as [m Hm]. rewrite Hm. cbn [fst app].
      destruct (Hafter f (setCachedMeasurements m s)
                  [(newDataStage, true); (measuringStage, true)])
        as (s1 & Hl & ->); [by eexists|].
      left. do 2 eexists. split; [reflexivity|]. simpl. run_facts.
      * apply Hnext; [simpl; lia|]. next_facts.
      * entry_facts Hm Hl.
      * rewrite ?afterStage_newData, afterStage_measuring, Hm. cbn [fst].
        by rewrite (afterStage_layout _ _ _ _ Hl).
    + left. do 2 eexists. split; [reflexivity|]. simpl. run_facts.
      * apply Hnext; [simpl; lia|]. next_facts.
      * pose proof (measure_fails d s Hc) as Hm. entry_facts Hm Hm.
      * rewrite ?afterStage_newData, afterStage_measuring, measure_fails
          by done.
        by destruct s.
  - (* measuring *)
    rewrite Hn, drain_measuring.
    destruct (canMeasure d) eqn:Hc.
    + destruct (measure_succeeds d s Hc) as [m Hm]. rewrite Hm. cbn [fst app].
      destruct (Hafter (S f) (setCachedMeasurements m s)
                  [(measuringStage, true)])
        as (s1 & Hl & ->); [by eexists|].
      left. do 2 eexists. split; [reflexivity|]. simpl. run_facts.
      * apply Hnext; [simpl; lia|]. next_facts.
      * entry_facts Hm Hl.
      * rewrite ?afterStage_newData, afterStage_measuring, Hm. cbn [fst].
        by rewrite (afterStage_layout _ _ _ _ Hl).
    + left. do 2 eexists. split; [reflexivity|]. simpl. run_facts.
      * apply Hnext; [simpl; lia|]. next_facts.
      * pose proof (measure_fails d s Hc) as Hm. entry_facts Hm Hm.
      * rewrite ?afterStage_newData, afterStage_measuring, measure_fails
          by done.
        by destruct s.
  - (* layout *)
    rewrite Hn, drain_layout.
    destruct (_cachedMeasurements s) as [m|] eqn:Hm.
    + destruct (layoutCommands_Normal s m Hm) as (s1 & Hl & _ & _).
      rewrite Hl.
      left. do 2 eexists. split; [reflexivity|]. simpl. run_facts.
      * apply Hnext; [simpl; lia|]. next_facts.
      * entry_facts Hl Hl.
      * by rewrite (afterStage_layout _ _ _ _ Hl).
    + right. done.
  - (* idle *)
    rewrite Hn, drain_idle.
    left. do 2 eexists. split; [reflexivity|]. simpl. run_facts.
    intros Hin. elem_cases Hin.
  - (* a number that names no stage *)
    rewrite drain_other by done.
    left. do 2 eexists. split; [reflexivity|]. simpl. run_facts.
    intros Hin. exfalso.
    repeat (apply elem_of_cons in Hin as [Hin|Hin]; [done|]).
    by apply elem_of_nil in Hin.
Qed.

Lemma pipeline_run_drains_in_order_witness :
  (pipelineFuel ≤ 4)%nat ∧
  ∃ s' log,
    _updateDomImpl_updateCommands 4 Sample.detached
      (_dataDirty (sampleSurface 200)) = Some (Normal (s', log)) ∧
    log = [(newDataStage, true); (measuringStage, false)] ∧
    _nextLayoutStage s' = measuringStage.
Proof.
  split; [unfold pipelineFuel; lia|].
  destruct (pipeline_run_drains_in_order 4 Sample.detached
              (_dataDirty (sampleSurface 200)) (le_n _))
    as [(s' & log & Hrun & _ & Hfail & _)|(Hthrows & _)].
  - exists s', log. split; [exact Hrun|].
    vm_compute in Hrun. injection Hrun as <- <-. split; reflexivity.
  - discriminate Hthrows.
Defined.

(** The calls that reach the pipeline keep [pipelineInvariant], so a run
    asked for by the machine never starts at the layout stage without a
    snapshot: it always returns. *)
Lemma run_keeps_invariant (d : Dom) (s : Surface) :
  pipelineInvariant s →
  ∃ s' log,
    _updateDomImpl_updateCommands pipelineFuel d s = Some (Normal (s', log)) ∧
    pipelineInvariant s'.
Proof.
  intros [Hstage Hsnap]. unfold _updateDomImpl_updateCommands, pipelineFuel.
  destruct Hstage as [H0|[H1|[H2|H3]]].
  - rewrite H0, drain_idle. do 2 eexists. split; [reflexivity|].
    split; simpl; [by left | done].
  - rewrite H1, drain_layout. destruct (Hsnap H1) as [m Hm]. rewrite Hm.
    destruct (layoutCommands_Normal s m Hm) as (s1 & -> & _ & _).
    do 2 eexists. split; [reflexivity|]. split; simpl; [by left | done].
  - rewrite H2, drain_measuring. destruct (canMeasure d) eqn:Hc.
    + destruct (measure_succeeds d s Hc) as [m Hm]. rewrite Hm. cbn [fst].
      rewrite drain_layout. cbn [_cachedMeasurements setCachedMeasurements].
      destruct (layoutCommands_Normal (setCachedMeasurements m s) m eq_refl)
        as (s1 & -> & _ & _).
      do 2 eexists. split; [reflexivity|]. split; simpl; [by left | done].
    + do 2 eexists. split; [reflexivity|].
      split; simpl; [by right; right; left | done].
  - rewrite H3, drain_newData, drain_measuring. destruct (canMeasure d) eqn:Hc.
    + destruct (measure_succeeds d s Hc) as [m Hm]. rewrite Hm. cbn [fst].
      rewrite drain_layout. cbn [_cachedMeasurements setCachedMeasurements].
      destruct (layoutCommands_Normal (setCachedMeasurements m s) m eq_refl)
        as (s1 & -> & _ & _).
      do 2 eexists. split; [reflexivity|]. split; simpl; [by left | done].
    + do 2 eexists. split; [reflexivity|].
      split; simpl; [by right; right; left | done].
Qed.

Lemma call_keeps_invariant (s : Surface) (c : SurfaceCall) :
  pipelineInvariant s → pipelineInvariant (call s c).
Proof.
  intros Hinv. destruct c as [data| |w a|value|d]; simpl.
  - destruct Hinv as [Hstage _]. unfold _dataUpdated, _dataDirty. split; simpl.
    + right; right; right.
      unfold idle, layoutStage, measuringStage, newDataStage in *. lia.
    + unfold idle, layoutStage, measuringStage, newDataStage in *. lia.
  - destruct Hinv as [Hstage _].
    unfold forceLayout, _meaurementsDirty. split; simpl;
      unfold idle, layoutStage, measuringStage, newDataStage in *; lia.
  - unfold _resizeHandler. destruct (w =? 0); [done|].
    destruct (_cachedMeasurements s) as [m|] eqn:Hm; [|done].
    destruct (actionAreaContentBoxWidth m =? a); [done|].
    destruct Hinv as [Hstage _]. split; simpl; [|by eexists].
    unfold idle, layoutStage, measuringStage, newDataStage in *. lia.
  - unfold set_closedDisplayMode.
    by destruct (truthyProperty ClosedDisplayMode value && _).
  - destruct (run_keeps_invariant d s Hinv) as (s' & log & Hrun & Hinv').
    by rewrite Hrun.
Qed.

(** X13. A run never throws on a surface the program can reach: after any
    sequence of data changes, calls of [forceLayout], resize notifications,
    assignments to [closedDisplayMode] and runs, starting from the surface
    the constructor leaves, a run against any host returns. The layout
    stage is never pending without a snapshot. *)
Lemma reachable_run_returns (calls : list SurfaceCall) (d : Dom) :
  ∃ s' log,
    _updateDomImpl_updateCommands pipelineFuel d
      (foldl call initialSurface calls) = Some (Normal (s', log)).
Proof.
  assert (Hinv : pipelineInvariant (foldl call initialSurface calls)).
  { assert (Hgen : ∀ s, pipelineInvariant s →
                        pipelineInvariant (foldl call s calls)).
    { induction calls as [|c calls IH]; intros s Hs; [done|].
      simpl. apply IH. by apply call_keeps_invariant. }
    apply Hgen. split; simpl; [by left | done]. }
  destruct (run_keeps_invariant d _ Hinv) as (s' & log & Hrun & _).
  by exists s', log.
Qed.

(** ** C8: the measurement cache *)

Lemma measureCommands_fold d cmds :
  ∀ sepW stdW contentW,
    foldl (measureCommand d) (sepW, stdW, contentW) cmds =
    (if sepW =? 0
     then firstNonZero (totalWidths d (List.filter isSeparatorCommand cmds))
     else sepW,
     if stdW =? 0
     then firstNonZero (totalWidths d (List.filter isStandardCommand cmds))
     else stdW,
     foldl (λ acc c, <[ICommand.uniqueID c :=
                         elementTotalWidth d (ICommand.uniqueID c)]> acc)
       contentW (List.filter isContentCommand cmds)).
Proof.
  induction cmds as [|c rest IH]; intros sepW stdW contentW.
  - simpl. destruct (Z.eqb_spec sepW 0), (Z.eqb_spec stdW 0); congruence.
  - cbn [foldl List.filter].
    destruct (isSeparatorCommand c) eqn:Hs, (isContentCommand c) eqn:Hc,
      (isStandardCommand c) eqn:Hst;
      unfold measureCommand at 2;
      unfold isStandardCommand in Hst; rewrite Hs, Hc in Hst;
      unfold isSeparatorCommand in Hs; unfold isContentCommand in Hc;
      destruct (ICommand.type c); try discriminate;
      rewrite IH; unfold totalWidths; rewrite ?fmap_cons;
      cbn [firstNonZero foldl];
      repeat match goal with
             | |- context [?x =? 0] => destruct (Z.eqb_spec x 0)
             end; try done; try lia.
Qed.

Lemma contentWidths_lookup d (contents : list ICommand.t) (id : string) :
  ∀ contentW : gmap string Z,
    foldl (λ acc c, <[ICommand.uniqueID c :=
                        elementTotalWidth d (ICommand.uniqueID c)]> acc)
      contentW contents !! id =
    if bool_decide (id ∈ ICommand.uniqueID <$> contents)
    then Some (elementTotalWidth d id) else contentW !! id.
Proof.
  induction contents as [|c rest IH]; intros contentW; [done|].
  cbn [foldl]. rewrite IH, fmap_cons.
  destruct (decide (id ∈ ICommand.uniqueID <$> rest)) as [Hin|Hnin].
  - rewrite !bool_decide_eq_true_2; [done| |done]. by right.
  - rewrite (bool_decide_eq_false_2 _ Hnin).
    destruct (decide (ICommand.uniqueID c = id)) as [<-|Hne].
    + rewrite lookup_insert_eq, bool_decide_eq_true_2; [done|by left].
    + rewrite lookup_insert_ne by done.
      rewrite bool_decide_eq_false_2; [done|].
      intros [Heq|Hin]%elem_of_cons; [by subst|done].
Qed.

(** X14. A successful [_measure] gives every primary command a width: the
    layout stage that follows it in the same run partitions [measured]
    command infos. *)
Lemma measure_makes_measured (d : Dom) (s : Surface) :
  canMeasure d = true →
  ∃ m,
    _cachedMeasurements (_measure d s).1 = Some m ∧
    measured (_getCommandsInfo m (showByHidden <$> _primaryCommands s)).
Proof.
  intros Hc. unfold _measure. rewrite Hc.
  unfold measureCommands. rewrite measureCommands_fold. cbn.
  eexists. split; [reflexivity|].
  set (m := {| overflowButtonWidth := _ |}).
  set (cmds := showByHidden <$> _primaryCommands s).
  apply Forall_forall. intros ci Hin.
  pose proof (getCommandsInfo_width m cmds) as Hw.
  rewrite Forall_forall in Hw. rewrite (Hw ci Hin).
  destruct (String.eqb _ displayNone); [done|].
  assert (Hcmd : ICommandInfo.command ci ∈ cmds).
  { rewrite <- (getCommandsInfo_command m cmds).
    apply list_elem_of_fmap. by exists ci. }
  apply list_elem_of_fmap in Hcmd as (c & Hci & Hc0).
  unfold _getCommandWidth. rewrite Hci.
  change (ICommand.type (showByHidden c)) with (ICommand.type c).
  change (ICommand.uniqueID (showByHidden c)) with (ICommand.uniqueID c).
  destruct (ICommand.type c) eqn:Ht; try done.
  unfold m. cbn [contentCommandWidths].
  rewrite contentWidths_lookup, bool_decide_eq_true_2; [done|].
  apply list_elem_of_fmap. exists c. split; [done|].
  apply list_elem_of_In, filter_In. split; [by apply list_elem_of_In|].
  unfold isContentCommand. by rewrite Ht.
Qed.

Lemma measure_makes_measured_witness :
  ∃ m,
    _cachedMeasurements
      (_measure (Sample.attached 200) twoSeparatorsSurface).1 = Some m ∧
    measured
      (_getCommandsInfo m
         (showByHidden <$> _primaryCommands twoSeparatorsSurface)).
Proof.
  apply (measure_makes_measured (Sample.attached 200) twoSeparatorsSurface).
  reflexivity.
Defined.

(** What [_measure] computes. When the host is not in the document, or
    the action area has no width, it returns false and leaves the surface,
    and so the snapshot or its absence, exactly as it was. Otherwise it
    returns true and replaces the snapshot by fresh readings: the total
    width of the overflow button, the content width of the action area,
    the width of the first separator whose width is not 0, the width of
    the first standard command whose width is not 0 (0 when there is
    none), and for every content command its own width. *)
Lemma measure_snapshot (d : Dom) (s : Surface) :
  if canMeasure d then
    ∃ m,
      _measure d s = (setCachedMeasurements m s, true) ∧
      overflowButtonWidth m = overflowButtonTotalWidth d ∧
      actionAreaContentBoxWidth m = actionAreaContentWidth d ∧
      separatorWidth m =
        firstNonZero
          (totalWidths d (List.filter isSeparatorCommand (_primaryCommands s))) ∧
      standardCommandWidth m =
        firstNonZero
          (totalWidths d (List.filter isStandardCommand (_primaryCommands s))) ∧
      ∀ id,
        contentCommandWidths m !! id =
        if bool_decide
             (id ∈ ICommand.uniqueID <$>
                     List.filter isContentCommand (_primaryCommands s))
        then Some (elementTotalWidth d id) else None
  else
    _measure d s = (s, false) ∧
    _cachedMeasurements (_measure d s).1 = _cachedMeasurements s.
Proof.
  unfold _measure. destruct (canMeasure d); [|done].
  unfold measureCommands. rewrite measureCommands_fold. cbn.
  eexists. split; [reflexivity|]. cbn. split_and!; try done.
  intros id. by rewrite contentWidths_lookup, lookup_empty.
Qed.

(** C8. [_measure] does not always store the width of the first
    separator, which is what the claim and the comment in the method
    (measure the first separator we find) say: the guard [!separatorWidth]
    takes a width of 0 for no width yet. In [twoSeparatorsSurface] on the
    host [collapsedFirstSeparator] the first separator measures 0 and the
    second 34; the measurement succeeds and the snapshot holds 34. *)
Theorem measure_skips_zero_width_separator :
  canMeasure collapsedFirstSeparator = true ∧
  firstWidth
    (totalWidths collapsedFirstSeparator
       (List.filter isSeparatorCommand (_primaryCommands twoSeparatorsSurface)))
  = 0 ∧
  ∃ m,
    _measure collapsedFirstSeparator twoSeparatorsSurface
    = (setCachedMeasurements m twoSeparatorsSurface, true) ∧
    separatorWidth m = 34.
Proof.
  split_and!; [reflexivity | reflexivity |].
  eexists. split; reflexivity.
Qed.

(** ** C9: focus navigation *)

Lemma getFocusableElementsInfo_range (elementsInReach : list ElementInReach) :
  let info := _getFocusableElementsInfo elementsInReach in
  -1 ≤ focusedIndex info < Z.of_nat (length (elements info)).
Proof.
  unfold _getFocusableElementsInfo.
  set (step := λ info element, _).
  assert (Hgen : ∀ l info,
            -1 ≤ focusedIndex info < Z.of_nat (length (elements info)) →
            -1 ≤ focusedIndex (foldl step info l)
            < Z.of_nat (length (elements (foldl step info l)))).
  { induction l as [|e l IH]; intros info Hinfo; [done|].
    simpl. apply IH. unfold step.
    destruct (isElementFocusable e); [|done]. simpl.
    rewrite length_app. simpl.
    destruct (containsActiveElement e); lia. }
  apply Hgen. simpl. lia.
Qed.

(** C9. With a non-empty list of focusable elements and a key that means
    a direction, the handler picks the index: 0 for home, the last index
    for end, [min (i + 1) last] going forward, and [max (i - 1) 0] modulo
    the length going backward. Only the backward path takes a remainder;
    the forward path clamps. *)
Theorem keyboard_target_index (rtl : bool) (ev : KeyEvent)
    (info : IFocusableElementsInfo) (dir : Direction) :
  altKey ev = false →
  targetIsInteractive ev = false →
  elements info ≠ [] →
  directionOfKey rtl (keyCode ev) = Some dir →
  ∃ focusEnd,
    _keyDownHandler rtl ev info =
    Some (focusEnd,
          targetIndex dir (Z.of_nat (length (elements info)))
            (focusedIndex info)).
Proof.
  intros Halt Hint Hne Hdir. unfold _keyDownHandler. rewrite Halt, Hint.
  destruct (elements info) as [|e rest] eqn:He; [done|].
  set (n := Z.of_nat (length (e :: rest))).
  assert (Hn : 0 < n) by (unfold n; simpl; lia).
  clearbody n.
  destruct (Z.eqb_spec n 0); [lia|].
  exists (match dir with
          | Backward | End => LastElementFocus
          | Forward | Home => FirstElementFocus
          end).
  unfold targetIndex.
  destruct rtl, (keyCode ev); simpl in Hdir; try discriminate;
    injection Hdir as <-; cbn [bool_decide decide_rel orb];
    try reflexivity;
    rewrite Z.rem_mod_nonneg, (Z.max_comm 0) by lia; reflexivity.
Qed.

Lemma keyboard_target_index_witness :
  elements sampleFocus ≠ [] ∧
  _keyDownHandler false
    {| altKey := false; targetIsInteractive := false; keyCode := leftArrow |}
    sampleFocus = Some (LastElementFocus, 0).
Proof.
  split; [discriminate|].
  destruct (keyboard_target_index false
              {| altKey := false; targetIsInteractive := false;
                 keyCode := leftArrow |}
              sampleFocus Backward eq_refl eq_refl
              ltac:(discriminate) eq_refl) as [focusEnd Hk].
  rewrite Hk. vm_compute in Hk. injection Hk as <-. reflexivity.
Defined.

(** The focused index that [_getFocusableElementsInfo] reports lies between
    -1 and the last index, and there the remainder taken on the backward
    path changes nothing: from the first element the focus stays on it. *)
Lemma backward_never_wraps (elementsInReach : list ElementInReach) :
  let info := _getFocusableElementsInfo elementsInReach in
  elements info ≠ [] →
  targetIndex Backward (Z.of_nat (length (elements info))) (focusedIndex info)
  = Z.max (focusedIndex info - 1) 0.
Proof.
  intros info Hne. pose proof (getFocusableElementsInfo_range elementsInReach)
    as Hr. fold info in Hr. simpl in Hr.
  unfold targetIndex. apply Z.mod_small.
  destruct (elements info); [done|]. simpl in *. lia.
Qed.

(** ** C10: assigning [closedDisplayMode] *)

(** C10. The setter does not ignore every value outside the four modes:
    a name that [ClosedDisplayMode] inherits from [Object.prototype], such
    as ["toString"], passes the test [ClosedDisplayMode[value]], is stored
    as the closed display mode and makes the surface render again. *)
Theorem closedDisplayMode_accepts_inherited_name :
  isClosedDisplayMode "toString" = false ∧
  get_closedDisplayMode (sampleSurface 200) = Some "compact" ∧
  set_closedDisplayMode "toString" (sampleSurface 200)
  = (withClosedDisplayMode "toString" (sampleSurface 200), true) ∧
  get_closedDisplayMode
    (set_closedDisplayMode "toString" (sampleSurface 200)).1
  = Some "toString".
Proof. split_and!; reflexivity. Qed.

(** What the setter does get right: a value that is neither a mode nor a
    member of [Object.prototype] is ignored, and so is the value the
    property already holds; a mode that differs from the current one is
    stored and rendered. *)
Lemma closedDisplayMode_ignored (value : string) (s : Surface) :
  isClosedDisplayMode value = false →
  value ∉ ObjectPrototype →
  set_closedDisplayMode value s = (s, false).
Proof.
  intros Hmode Hproto. unfold set_closedDisplayMode, truthyProperty.
  unfold isClosedDisplayMode in Hmode. apply bool_decide_eq_false in Hmode.
  assert (ownProperty ClosedDisplayMode value = None) as ->.
  { unfold ClosedDisplayMode. cbn [ownProperty].
    repeat match goal with
           | |- context [String.eqb ?a value] =>
               destruct (String.eqb_spec a value) as [<-|?]
           end; try done; exfalso; apply Hmode;
      repeat first [by left | right]. }
  by rewrite bool_decide_eq_false_2.
Qed.

Lemma closedDisplayMode_unchanged (value : string) (s : Surface) :
  _closedDisplayMode s = Some value →
  set_closedDisplayMode value s = (s, false).
Proof.
  intros Hs. unfold set_closedDisplayMode. rewrite Hs.
  rewrite bool_decide_eq_true_2 by done. simpl. by rewrite andb_false_r.
Qed.

Lemma closedDisplayMode_roundtrip (value : string) (s : Surface) :
  isClosedDisplayMode value = true →
  get_closedDisplayMode (set_closedDisplayMode value s).1 = Some value.
Proof.
  intros Hmode. apply bool_decide_eq_true in Hmode.
  unfold set_closedDisplayMode, get_closedDisplayMode.
  destruct (decide (Some value = _closedDisplayMode s)) as [Heq|Hne].
  - rewrite bool_decide_eq_true_2 by done. simpl.
    rewrite andb_false_r. done.
  - rewrite bool_decide_eq_false_2 by done.
    assert (truthyProperty ClosedDisplayMode value = true) as ->; [|done].
    repeat (apply elem_of_cons in Hmode as [->|Hmode]; [reflexivity|]).
    by apply elem_of_nil in Hmode.
Qed.

(** ** Agreement with the test suite *)

(** The sizes and the expectations of [testOverflowBehaviorDefaultPriority]:
    widths for 4 commands and 2 separators without the overflow button, then
    3 + 2, 4 + 2 again, 3 + 1, 2 + 1, 1 + 1, 1 + 0 and 0 + 0 with it. *)
Lemma testOverflowBehaviorDefaultPriority :
  TestSuite.outcome TestSuite.defaultPriorityData <$>
    [340; 304; 340; 270; 202; 134; 100; 32]
  = [Some (6%nat, false, []);
     Some (4%nat, true, ["6"]);
     Some (6%nat, false, []);
     Some (4%nat, true, ["6"]);
     Some (3%nat, true, ["4"; "separator"; "6"]);
     Some (1%nat, true, ["3"; "4"; "separator"; "6"]);
     Some (1%nat, true, ["3"; "4"; "separator"; "6"]);
     Some (0%nat, true, ["1"; "separator"; "3"; "4"; "separator"; "6"])].
Proof. vm_compute. reflexivity. Qed.

(** The sizes and the expectations of [testOverflowBehaviorCustomPriority],
    menu contents included. *)
Lemma testOverflowBehaviorCustomPriority :
  TestSuite.outcome TestSuite.customPriorityData <$>
    [640; 639; 270; 202; 100; 32]
  = [Some (8%nat, true, ["sec 1"; "sec 2"]);
     Some (5%nat, true,
           ["2"; "separator"; "6"; "separator"; "sec 1"; "sec 2"]);
     Some (4%nat, true,
           ["2"; "5"; "separator"; "6"; "separator"; "sec 1"; "sec 2"]);
     Some (3%nat, true,
           ["2"; "3"; "5"; "separator"; "6"; "separator"; "sec 1"; "sec 2"]);
     Some (1%nat, true,
           ["2"; "separator"; "3"; "4"; "5"; "separator"; "6"; "separator";
            "sec 1"; "sec 2"]);
     Some (0%nat, true,
           ["1"; "2"; "separator"; "3"; "4"; "5"; "separator"; "6";
            "separator"; "sec 1"; "sec 2"])].
Proof. vm_compute. reflexivity. Qed.

Local Set Warnings "-clear-no-such-hyp".

(** * Further properties of the partition *)

Lemma filter_sublist {A} (p : A → bool) (l : list A) :
  List.filter p l `sublist_of` l.
Proof.
  induction l as [|x l IH]; simpl; [done|].
  destruct (p x); [by apply sublist_skip | by apply sublist_cons].
Qed.

Lemma filter_split_Permutation {A} (p : A → bool) (l : list A) :
  List.filter p l ++ List.filter (λ x, negb (p x)) l ≡ₚ l.
Proof.
  induction l as [|x l IH]; simpl; [done|].
  destruct (p x); simpl.
  - by rewrite IH.
  - rewrite <- Permutation_middle. by rewrite IH.
Qed.

Lemma getPrimaryCommandsLocation_locate s m :
  _cachedMeasurements s = Some m →
  _getPrimaryCommandsLocation s =
  Normal (locate (maxPriorityOf m (negb (isNil (_secondaryCommands s)))
                    (_getCommandsInfo m (_primaryCommands s)))
            (_getCommandsInfo m (_primaryCommands s))).
Proof. intros Hc. unfold _getPrimaryCommandsLocation. by rewrite Hc. Qed.

Lemma getPrimaryCommandsLocation_Normal s loc :
  _getPrimaryCommandsLocation s = Normal loc →
  ∃ m, _cachedMeasurements s = Some m.
Proof.
  unfold _getPrimaryCommandsLocation.
  destruct (_cachedMeasurements s) as [m|]; [by exists m | done].
Qed.

(** X1. The partition neither drops, duplicates nor reorders a primary
    command: the action area and the overflow area are both sublists of
    the primary commands, and together they are a rearrangement of them. *)
Theorem partition_splits_primary (s : Surface) (loc : Location) :
  _getPrimaryCommandsLocation s = Normal loc →
  actionArea loc `sublist_of` _primaryCommands s ∧
  overflowArea loc `sublist_of` _primaryCommands s ∧
  actionArea loc ++ overflowArea loc ≡ₚ _primaryCommands s ∧
  (length (actionArea loc) + length (overflowArea loc))%nat
  = length (_primaryCommands s).
Proof.
  intros Hloc.
  destruct (getPrimaryCommandsLocation_Normal s loc Hloc) as [m Hm].
  rewrite (getPrimaryCommandsLocation_locate s m Hm) in Hloc.
  injection Hloc as <-. unfold locate. cbn [actionArea overflowArea].
  set (infos := _getCommandsInfo m (_primaryCommands s)).
  set (p := withinMaxPriority _).
  assert (Hperm : (ICommandInfo.command <$> List.filter p infos)
                  ++ (ICommandInfo.command <$>
                        List.filter (λ ci, negb (p ci)) infos)
                  ≡ₚ _primaryCommands s).
  { rewrite <- fmap_app, filter_split_Permutation.
    unfold infos. by rewrite getCommandsInfo_command. }
  split_and!.
  - rewrite <- (getCommandsInfo_command m (_primaryCommands s)).
    apply fmap_sublist, filter_sublist.
  - rewrite <- (getCommandsInfo_command m (_primaryCommands s)).
    apply fmap_sublist, filter_sublist.
  - exact Hperm.
  - rewrite <- length_app. by rewrite Hperm.
Qed.

Lemma partition_splits_primary_witness :
  ∃ loc,
    _getPrimaryCommandsLocation (sampleSurface 200) = Normal loc ∧
    (length (actionArea loc) + length (overflowArea loc))%nat = 4%nat.
Proof.
  eexists. split; [reflexivity|].
  apply (partition_splits_primary (sampleSurface 200) _ eq_refl).
Defined.

(** X2. The action area holds a lower set of priorities: whenever one
    command info is kept in the action area and another is sent to the
    overflow area, the first has the strictly smaller priority. Commands of
    equal priority therefore always end in the same area. *)
Theorem overflow_is_upward_closed (s : Surface) (m : Measurements)
    (loc : Location) :
  _cachedMeasurements s = Some m →
  _getPrimaryCommandsLocation s = Normal loc →
  let commandsInfo := _getCommandsInfo m (_primaryCommands s) in
  ∃ kept : ICommandInfo.t → bool,
    actionArea loc = ICommandInfo.command <$> List.filter kept commandsInfo ∧
    overflowArea loc =
      ICommandInfo.command <$>
        List.filter (λ ci, negb (kept ci)) commandsInfo ∧
    ∀ ci cj,
      kept ci = true → kept cj = false →
      ICommandInfo.priority ci < ICommandInfo.priority cj.
Proof.
  intros Hm Hloc commandsInfo.
  rewrite (getPrimaryCommandsLocation_locate s m Hm) in Hloc.
  injection Hloc as <-.
  exists (withinMaxPriority
            (maxPriorityOf m (negb (isNil (_secondaryCommands s)))
               commandsInfo)).
  split_and!; [done..|].
  intros ci cj. unfold withinMaxPriority.
  destruct (maxPriorityOf _ _ _) as [c|]; [|done].
  intros Hi%Z.leb_le Hj%Z.leb_gt. lia.
Qed.

Lemma overflow_is_upward_closed_witness :
  ∃ kept : ICommandInfo.t → bool,
    ICommand.uniqueID <$>
      (ICommandInfo.command <$>
         List.filter kept
           (_getCommandsInfo (Sample.snapshot 200) Sample.toolbar))
    = ["b1"; "sep"] ∧
    ∀ ci cj,
      kept ci = true → kept cj = false →
      ICommandInfo.priority ci < ICommandInfo.priority cj.
Proof.
  destruct (overflow_is_upward_closed (sampleSurface 200)
              (Sample.snapshot 200) _ eq_refl eq_refl)
    as (kept & Ha & _ & Hlt).
  exists kept. split; [|exact Hlt].
  etransitivity;
    [apply (f_equal (fmap ICommand.uniqueID)); symmetry; exact Ha
    |reflexivity].
Defined.

Lemma StronglySorted_head_min (x : ICommandInfo.t) l :
  StronglySorted priorityLe (x :: l) →
  ∀ y, y ∈ x :: l → ICommandInfo.priority x ≤ ICommandInfo.priority y.
Proof.
  intros Hs y Hy. apply StronglySorted_inv in Hs as [_ Hall].
  apply elem_of_cons in Hy as [->|Hy]; [lia|].
  rewrite Forall_forall in Hall. by apply Hall.
Qed.

Lemma filter_none {A} (p : A → bool) (l : list A) :
  (∀ x, x ∈ l → p x = false) → List.filter p l = [].
Proof.
  induction l as [|x l IH]; intros Hp; simpl; [done|].
  rewrite (Hp x) by left. apply IH. intros y Hy. apply Hp. by right.
Qed.

Lemma filter_all {A} (p : A → bool) (l : list A) :
  (∀ x, x ∈ l → p x = true) → List.filter p l = l.
Proof.
  induction l as [|x l IH]; intros Hp; simpl; [done|].
  rewrite (Hp x) by left. f_equal. apply IH. intros y Hy. apply Hp. by right.
Qed.

(** X3. When the first command of the walk, the one of lowest priority,
    has a safe integer for priority and does not fit beside the reserved
    overflow-button width, nothing is kept: the action area is empty and
    every primary command, in declaration order, is in the overflow
    area. *)
Theorem first_command_too_wide_empties_action_area (s : Surface)
    (m : Measurements) (first : ICommandInfo.t) (rest : list ICommandInfo.t)
    (w : Z) :
  _cachedMeasurements s = Some m →
  sortByPriority (_getCommandsInfo m (_primaryCommands s)) = first :: rest →
  isSafeInteger (ICommandInfo.priority first) →
  ICommandInfo.width first = Num w →
  actionAreaContentBoxWidth m - w
  - (if negb (isNil (_secondaryCommands s)) || negb (isNil rest)
     then overflowButtonWidth m else 0) < 0 →
  _getPrimaryCommandsLocation s =
  Normal {| actionArea := []; overflowArea := _primaryCommands s |}.
Proof.
  intros Hm Hsorted Hsafe Hw Hlt.
  rewrite (getPrimaryCommandsLocation_locate s m Hm).
  set (infos := _getCommandsInfo m (_primaryCommands s)) in *.
  assert (Hmax : maxPriorityOf m (negb (isNil (_secondaryCommands s))) infos
                 = Some (ICommandInfo.priority first - 1)).
  { unfold maxPriorityOf. rewrite Hsorted. cbn [findMaxPriority].
    rewrite Hw. cbn [minus ltZero].
    apply Z.ltb_lt in Hlt as ->. by rewrite decrement_safe. }
  rewrite Hmax. unfold locate.
  assert (Hmin : ∀ ci, ci ∈ infos →
                   ICommandInfo.priority first ≤ ICommandInfo.priority ci).
  { intros ci Hci.
    apply (StronglySorted_head_min first rest).
    - rewrite <- Hsorted. apply sortByPriority_sorted.
    - rewrite <- Hsorted. by rewrite sortByPriority_Permutation. }
  rewrite filter_none, filter_all.
  - simpl. unfold infos. by rewrite getCommandsInfo_command.
  - intros ci Hci. simpl. apply negb_true_iff, Z.leb_gt.
    specialize (Hmin ci Hci). lia.
  - intros ci Hci. simpl. apply Z.leb_gt. specialize (Hmin ci Hci). lia.
Qed.

Lemma first_command_too_wide_empties_action_area_witness :
  _getPrimaryCommandsLocation (sampleSurface 99) =
  Normal {| actionArea := [];
            overflowArea := _primaryCommands (sampleSurface 99) |}.
Proof.
  eapply (first_command_too_wide_empties_action_area (sampleSurface 99)
            (Sample.snapshot 99) _ _ 68 eq_refl).
  - reflexivity.
  - unfold isSafeInteger. simpl. lia.
  - reflexivity.
  - reflexivity.
Defined.

(** * Further properties of the layout *)

(** What [_layoutCommands] computes once a snapshot exists, with the
    locals of the method named. *)
Lemma layoutCommands_unfold s m :
  _cachedMeasurements s = Some m →
  let commandsInfo := _getCommandsInfo m (showByHidden <$> _primaryCommands s) in
  let maxPriority :=
    maxPriorityOf m (negb (isNil (_secondaryCommands s))) commandsInfo in
  let loc := locate maxPriority commandsInfo in
  let overflowCommands := ICommand.setDisplay displayNone <$> overflowArea loc in
  let secondary := ICommand.setDisplay displayNone <$> _secondaryCommands s in
  _layoutCommands s =
  Normal
    ({| _closedDisplayMode := _closedDisplayMode s;
        _primaryCommands :=
          weave (withinMaxPriority maxPriority <$> commandsInfo)
            (_hideSeparatorsIfNeeded (actionArea loc)) overflowCommands;
        _secondaryCommands := secondary;
        _nextLayoutStage := _nextLayoutStage s;
        _cachedMeasurements := Some m;
        overflowButtonDisplay :=
          if negb (isNil overflowCommands) || negb (isNil secondary)
          then displayUnset else displayNone;
        overflowAreaChildren :=
          _hideSeparatorsIfNeeded
            (menuCommandProjections overflowCommands secondary) |},
     true).
Proof.
  intros Hm. unfold _layoutCommands, _getPrimaryCommandsLocation.
  cbn [_cachedMeasurements _primaryCommands _secondaryCommands
       _closedDisplayMode _nextLayoutStage withPrimaryCommands].
  rewrite Hm. reflexivity.
Qed.

Lemma layoutCommands_inv s s' ok :
  _layoutCommands s = Normal (s', ok) →
  ∃ m, _cachedMeasurements s = Some m.
Proof.
  destruct (_cachedMeasurements s) as [m|] eqn:Hm; [by exists m|].
  by rewrite (layoutCommands_Throws s Hm).
Qed.

Lemma weave_Forall2 (p : ICommandInfo.t → bool)
    (Ra Ro : ICommandInfo.t → ICommand.t → Prop) (infos : list ICommandInfo.t) :
  ∀ aa oa,
    Forall2 Ra (List.filter p infos) aa →
    Forall2 Ro (List.filter (λ ci, negb (p ci)) infos) oa →
    Forall2 (λ ci c', if p ci then Ra ci c' else Ro ci c') infos
      (weave (p <$> infos) aa oa).
Proof.
  induction infos as [|ci infos IH]; intros aa oa Ha Ho; [constructor|].
  rewrite fmap_cons. cbn [List.filter] in Ha, Ho.
  destruct (p ci) eqn:Hp; cbn [negb weave] in *.
  - apply Forall2_cons_inv_l in Ha as (c' & aa' & Hc & Ha & ->).
    constructor; [by rewrite Hp | by apply IH].
  - apply Forall2_cons_inv_l in Ho as (c' & oa' & Hc & Ho & ->).
    constructor; [by rewrite Hp | by apply IH].
Qed.

Lemma hideSeparators_length {A} `{ICommandWithType A} (l : list A) :
  length (_hideSeparatorsIfNeeded l) = length l.
Proof.
  unfold _hideSeparatorsIfNeeded.
  rewrite <- (length_fmap typeOf), hideTrailing_type, length_fmap.
  rewrite <- (length_fmap typeOf), hideLeadingOrConsecutive_type.
  by rewrite length_fmap.
Qed.

(** The method writes to separators only, and only ["none"]. *)
Lemma hideSeparators_Forall2 {A} `{ICommandWithType A} (l : list A) :
  Forall2
    (λ c c', c' = c ∨ (isSep c = true ∧ (c' = hide c ∨ c' = hide (hide c))))
    l (_hideSeparatorsIfNeeded l).
Proof.
  apply Forall2_same_length_lookup. split.
  - by rewrite hideSeparators_length.
  - intros i c c' Hc Hc'. rewrite hideSeparators_lookup, Hc in Hc'.
    cbn [fmap option_fmap option_map] in Hc'. injection Hc' as <-.
    destruct (isSep c) eqn:Hsep; cbn [andb].
    + destruct (afterSeparator l i), (forallb isSep (drop i l)); eauto.
    + destruct (forallb isSep (drop i l)) eqn:Hall; [|by left].
      exfalso. apply forallb_isSep_Forall in Hall.
      rewrite (drop_S l c i Hc) in Hall.
      apply Forall_cons in Hall as [Hall _]. congruence.
Qed.

Lemma hideSeparators_keeps {A} `{ICommandWithType A} (l : list A) (i : nat) c :
  l !! i = Some c → isSep c = false → _hideSeparatorsIfNeeded l !! i = Some c.
Proof.
  intros Hc Hsep. rewrite hideSeparators_lookup, Hc.
  cbn [fmap option_fmap option_map]. rewrite Hsep. cbn [andb].
  destruct (forallb isSep (drop i l)) eqn:Hall; [|done].
  exfalso. apply forallb_isSep_Forall in Hall.
  rewrite (drop_S l c i Hc) in Hall.
  apply Forall_cons in Hall as [Hall _]. congruence.
Qed.

Lemma weave_laidOut maxPriority (infos : list ICommandInfo.t) :
  Forall2 (laidOut maxPriority) infos
    (weave (withinMaxPriority maxPriority <$> infos)
       (_hideSeparatorsIfNeeded
          (ICommandInfo.command <$>
             List.filter (withinMaxPriority maxPriority) infos))
       (ICommand.setDisplay displayNone <$>
          (ICommandInfo.command <$>
             List.filter (λ ci, negb (withinMaxPriority maxPriority ci))
               infos))).
Proof.
  apply (weave_Forall2 (withinMaxPriority maxPriority)
           (λ ci c', c' = ICommandInfo.command ci ∨
                     (isSeparatorCommand (ICommandInfo.command ci) = true ∧
                      c' = ICommand.setDisplay displayNone
                             (ICommandInfo.command ci)))
           (λ ci c', c' = ICommand.setDisplay displayNone
                            (ICommandInfo.command ci))).
  - pose proof (hideSeparators_Forall2
                  (ICommandInfo.command <$>
                     List.filter (withinMaxPriority maxPriority) infos)) as HF.
    apply Forall2_fmap_l in HF.
    eapply Forall2_impl; [exact HF|].
    intros ci c' [->|[Hsep [->| ->]]]; [by left | by right | by right].
  - rewrite <- list_fmap_compose. apply Forall2_fmap_r, Forall_Forall2_diag.
    by apply Forall_true.
Qed.

Lemma layoutCommands_primary s s' ok :
  _layoutCommands s = Normal (s', ok) →
  Forall2 (λ c c', c' = showByHidden c ∨
                   c' = ICommand.setDisplay displayNone c)
    (_primaryCommands s) (_primaryCommands s').
Proof.
  intros Hl. destruct (layoutCommands_inv s s' ok Hl) as [m Hm].
  rewrite (layoutCommands_unfold s m Hm) in Hl. injection Hl as <- <-.
  cbn [_primaryCommands]. unfold locate. cbn [actionArea overflowArea].
  set (infos := _getCommandsInfo m (showByHidden <$> _primaryCommands s)).
  set (maxP := maxPriorityOf m _ infos).
  pose proof (weave_laidOut maxP infos) as HF.
  assert (H1 : Forall2 (λ c1 c', c' = c1 ∨
                                  c' = ICommand.setDisplay displayNone c1)
                 (showByHidden <$> _primaryCommands s)
                 (weave (withinMaxPriority maxP <$> infos)
                    (_hideSeparatorsIfNeeded
                       (ICommandInfo.command <$>
                          List.filter (withinMaxPriority maxP) infos))
                    (ICommand.setDisplay displayNone <$>
                       (ICommandInfo.command <$>
                          List.filter
                            (λ ci, negb (withinMaxPriority maxP ci)) infos)))).
  { rewrite <- (getCommandsInfo_command m
                  (showByHidden <$> _primaryCommands s)).
    fold infos. apply Forall2_fmap_l.
    eapply Forall2_impl; [exact HF|].
    intros ci c'. unfold laidOut, compose.
    destruct (withinMaxPriority maxP ci); [intros [->|[_ ->]]|intros ->].
    - by left.
    - by right.
    - by right. }
  apply Forall2_fmap_l in H1.
  eapply Forall2_impl; [exact H1|].
  intros c c' [->| ->]; [by left | by right].
Qed.

(** X4. A layout that returns reports success, and of a command it
    changes the inline display only: the primary commands stay the same
    commands in the same order, each with a display of the empty string or
    of none, and a command whose hidden flag is set always ends with none;
    every secondary command ends with none. The pending stage, the
    snapshot and the closed display mode are left alone. What a layout
    writes besides is the display of the overflow button, the empty string
    or none, and the content of the overflow area. *)
Theorem layout_changes_display_only (s s' : Surface) (ok : bool) :
  _layoutCommands s = Normal (s', ok) →
  ok = true ∧
  Forall2
    (λ c c',
       c' = ICommand.setDisplay (ICommand.display c') c ∧
       (ICommand.display c' = displayUnset ∨
        ICommand.display c' = displayNone) ∧
       (ICommand.hidden c = true → ICommand.display c' = displayNone))
    (_primaryCommands s) (_primaryCommands s') ∧
  _secondaryCommands s' =
    ICommand.setDisplay displayNone <$> _secondaryCommands s ∧
  _nextLayoutStage s' = _nextLayoutStage s ∧
  _cachedMeasurements s' = _cachedMeasurements s ∧
  _closedDisplayMode s' = _closedDisplayMode s ∧
  (overflowButtonDisplay s' = displayUnset ∨
   overflowButtonDisplay s' = displayNone).
Proof.
  intros Hl. pose proof (layoutCommands_primary s s' ok Hl) as HF.
  destruct (layoutCommands_inv s s' ok Hl) as [m Hm].
  rewrite (layoutCommands_unfold s m Hm) in Hl. injection Hl as <- <-.
  split_and!; try done.
  - eapply Forall2_impl; [exact HF|].
    intros c c' [->| ->]; unfold showByHidden; cbn [ICommand.display].
    + split_and!; [done| |].
      * destruct (ICommand.hidden c); [by right | by left].
      * by intros ->.
    + split_and!; [done | by right | done].
  - cbn [overflowButtonDisplay].
    destruct (negb _ || negb _); [by left | by right].
Qed.

Lemma layout_changes_display_only_witness :
  ∃ s',
    _layoutCommands (sampleSurface 200) = Normal (s', true) ∧
    _secondaryCommands s' =
      ICommand.setDisplay displayNone <$>
        _secondaryCommands (sampleSurface 200) ∧
    _nextLayoutStage s' = _nextLayoutStage (sampleSurface 200).
Proof.
  eexists. split; [reflexivity|].
  destruct (layout_changes_display_only (sampleSurface 200) _ true eq_refl)
    as (_ & _ & Hs & Hn & _).
  split; [exact Hs | exact Hn].
Defined.

Lemma projectAsMenuCommand_isSep c :
  isSep (_projectAsMenuCommand c) = isSeparatorCommand c.
Proof.
  unfold isSep, isSeparatorCommand. cbn [typeOf MenuCommand_withType].
  unfold _projectAsMenuCommand. cbn [MenuCommand.type].
  by destruct (ICommand.type c).
Qed.

(** X5. A layout loses no command: a primary command that is neither
    hidden nor a separator ends either on display in the action area, or
    with display none and mirrored by a menu entry of the overflow area
    that is on display and refers back to it. *)
Theorem layout_loses_no_command (s s' : Surface) (ok : bool) (i : nat)
    (c : ICommand.t) :
  _layoutCommands s = Normal (s', ok) →
  _primaryCommands s !! i = Some c →
  ICommand.hidden c = false →
  isSeparatorCommand c = false →
  _primaryCommands s' !! i = Some (ICommand.setDisplay displayUnset c) ∨
  (_primaryCommands s' !! i = Some (ICommand.setDisplay displayNone c) ∧
   ∃ e, e ∈ overflowAreaChildren s' ∧
        MenuCommand._originalICommand e =
          Some (ICommand.setDisplay displayNone c) ∧
        MenuCommand.display e = displayUnset).
Proof.
  intros Hl Hc Hh Hsep.
  destruct (layoutCommands_inv s s' ok Hl) as [m Hm].
  rewrite (layoutCommands_unfold s m Hm) in Hl. injection Hl as <- <-.
  cbn [_primaryCommands overflowAreaChildren].
  unfold locate. cbn [actionArea overflowArea].
  set (infos := _getCommandsInfo m (showByHidden <$> _primaryCommands s)).
  set (maxP := maxPriorityOf m _ infos).
  assert (Hshow : showByHidden c = ICommand.setDisplay displayUnset c).
  { unfold showByHidden. by rewrite Hh. }
  assert (Hi : ∃ ci, infos !! i = Some ci ∧
                     ICommandInfo.command ci
                     = ICommand.setDisplay displayUnset c).
  { eexists. split.
    - apply (getCommandsInfo_lookup m _ i (showByHidden c)).
      by rewrite list_lookup_fmap, Hc.
    - exact Hshow. }
  destruct Hi as (ci & Hci & Hcmd).
  destruct (Forall2_lookup_l _ _ _ i ci (weave_laidOut maxP infos) Hci)
    as (c' & Hc' & Hlaid).
  rewrite Hc'. unfold laidOut in Hlaid. rewrite Hcmd in Hlaid.
  destruct (withinMaxPriority maxP ci) eqn:Hp.
  - left. destruct Hlaid as [->|[Hs _]]; [done|].
    unfold isSeparatorCommand in *. cbn [ICommand.type ICommand.setDisplay] in Hs.
    congruence.
  - right. subst c'. split; [done|].
    set (e := _projectAsMenuCommand (ICommand.setDisplay displayNone c)).
    set (overflowCommands := ICommand.setDisplay displayNone <$> _).
    set (secondary := ICommand.setDisplay displayNone <$> _).
    assert (He : e ∈ menuCommandProjections overflowCommands secondary).
    { unfold menuCommandProjections. apply elem_of_app. left.
      apply list_elem_of_fmap. exists (ICommand.setDisplay displayNone c).
      split; [done|].
      apply list_elem_of_fmap.
      exists (ICommand.setDisplay displayUnset c). split; [done|].
      apply list_elem_of_fmap. exists ci. split; [done|].
      apply list_elem_of_In, filter_In. split.
      - apply list_elem_of_In. by eapply list_elem_of_lookup_2.
      - by rewrite Hp. }
    apply list_elem_of_lookup in He as [j Hj].
    exists e. split_and!; [|done..].
    apply (list_elem_of_lookup_2 _ j), hideSeparators_keeps; [done|].
    unfold e. by rewrite projectAsMenuCommand_isSep.
Qed.

Lemma layout_loses_no_command_witness :
  ∃ s' e,
    _layoutCommands (sampleSurface 200) = Normal (s', true) ∧
    _primaryCommands s' !! 3%nat
    = Some (ICommand.setDisplay displayNone (Sample.button "b2" None false)) ∧
    e ∈ overflowAreaChildren s' ∧
    MenuCommand._originalICommand e =
      Some (ICommand.setDisplay displayNone (Sample.button "b2" None false)) ∧
    MenuCommand.display e = displayUnset.
Proof.
  destruct (layout_loses_no_command (sampleSurface 200) _ true 3
              (Sample.button "b2" None false) eq_refl eq_refl eq_refl eq_refl)
    as [Hshown|(Hnone & e & He & Ho & Hd)]; [discriminate Hshown|].
  eexists _, e. split; [reflexivity|]. by split_and!.
Defined.

Lemma hideSeparators_original (l : list MenuCommand.t) :
  MenuCommand._originalICommand <$> _hideSeparatorsIfNeeded l =
  MenuCommand._originalICommand <$> l.
Proof.
  symmetry. apply list_eq_Forall2, Forall2_fmap.
  eapply Forall2_impl; [apply hideSeparators_Forall2|].
  by intros e e' [->|[_ [->| ->]]].
Qed.

Lemma isNil_fmap {A B} (f : A → B) (l : list A) : isNil (f <$> l) = isNil l.
Proof. by destruct l. Qed.

Lemma filter_fmap_hidden d (l : list ICommand.t) :
  List.filter (λ c, negb (ICommand.hidden c)) (ICommand.setDisplay d <$> l) =
  ICommand.setDisplay d <$> List.filter (λ c, negb (ICommand.hidden c)) l.
Proof.
  induction l as [|c l IH]; [done|].
  rewrite fmap_cons. cbn [List.filter ICommand.hidden ICommand.setDisplay].
  destruct (ICommand.hidden c); cbn [negb]; [done|].
  by rewrite fmap_cons, IH.
Qed.

Lemma menuCommandProjections_original (overflowCommands secondary :
    list ICommand.t) :
  MenuCommand._originalICommand <$>
    menuCommandProjections overflowCommands secondary =
  (Some <$> overflowCommands)
  ++ (if negb (isNil overflowCommands) && negb (isNil secondary)
      then [None] else [])
  ++ (Some <$> List.filter (λ c, negb (ICommand.hidden c)) secondary).
Proof.
  unfold menuCommandProjections.
  rewrite !fmap_app, <- !list_fmap_compose. f_equal. f_equal.
  by destruct (negb (isNil overflowCommands) && negb (isNil secondary)).
Qed.

Lemma overflowButton_hidden_iff {A B} (f : A → B) (g : A → B)
    (ov sec : list A) :
  (if negb (isNil (f <$> ov)) || negb (isNil (g <$> sec))
   then displayUnset else displayNone) = displayNone ↔
  ov = [] ∧ sec = [].
Proof.
  destruct ov, sec; cbn; unfold displayNone, displayUnset;
    split; first [done | intros [? ?]; done].
Qed.

(** X6. The content of the overflow menu after a layout: the overflowed
    primary commands in declaration order, then one synthetic separator
    exactly when there are both overflowed and secondary commands, then
    the secondary commands that are not hidden, in declaration order.
    Every entry that is no separator is on display, and the overflow
    button is hidden exactly when nothing overflowed and there is no
    secondary command. *)
Theorem menu_lists_overflow_then_secondary (s s' : Surface) (ok : bool) :
  _layoutCommands s = Normal (s', ok) →
  ∃ loc,
    _getPrimaryCommandsLocation
      (withPrimaryCommands (showByHidden <$> _primaryCommands s) s)
    = Normal loc ∧
    MenuCommand._originalICommand <$> overflowAreaChildren s' =
      (Some <$> (ICommand.setDisplay displayNone <$> overflowArea loc))
      ++ (if negb (isNil (overflowArea loc))
             && negb (isNil (_secondaryCommands s))
          then [None] else [])
      ++ (Some <$>
            (ICommand.setDisplay displayNone <$>
               List.filter (λ c, negb (ICommand.hidden c))
                 (_secondaryCommands s))) ∧
    Forall (λ e, isSeparator (MenuCommand.type e) = false →
                 MenuCommand.display e = displayUnset)
      (overflowAreaChildren s') ∧
    (overflowButtonDisplay s' = displayNone ↔
     overflowArea loc = [] ∧ _secondaryCommands s = []).
Proof.
  intros Hl. destruct (layoutCommands_inv s s' ok Hl) as [m Hm].
  rewrite (layoutCommands_unfold s m Hm) in Hl. injection Hl as <- <-.
  eexists. split.
  { apply (getPrimaryCommandsLocation_locate _ m). exact Hm. }
  cbn [_primaryCommands _secondaryCommands withPrimaryCommands
       overflowAreaChildren overflowButtonDisplay].
  set (loc := locate _ _).
  split_and!.
  - rewrite hideSeparators_original, menuCommandProjections_original.
    rewrite filter_fmap_hidden. unfold loc, locate. cbn [overflowArea].
    by rewrite !isNil_fmap.
  - apply Forall_lookup. intros j e' He' Hsep.
    pose proof (Forall2_lookup_r _ _ _ j e'
                  (hideSeparators_Forall2
                     (menuCommandProjections
                        (ICommand.setDisplay displayNone <$> overflowArea loc)
                        (ICommand.setDisplay displayNone <$>
                           _secondaryCommands s))) He')
      as (e & He & Hrel).
    pose proof (menuCommandProjections_shown
                  (ICommand.setDisplay displayNone <$> overflowArea loc)
                  (ICommand.setDisplay displayNone <$> _secondaryCommands s))
      as Hshown.
    rewrite Forall_lookup in Hshown. specialize (Hshown j e He).
    destruct Hrel as [->|[Hs [->| ->]]]; [done|exfalso..];
      unfold isSep in Hs; cbn in Hs, Hsep; congruence.
  - apply (overflowButton_hidden_iff (ICommand.setDisplay displayNone)
             (ICommand.setDisplay displayNone) (overflowArea loc)
             (_secondaryCommands s)).
Qed.

Lemma menu_lists_overflow_then_secondary_witness :
  ∃ s',
    _layoutCommands (sampleSurface 200) = Normal (s', true) ∧
    (λ o, ICommand.uniqueID <$> o) <$>
      (MenuCommand._originalICommand <$> overflowAreaChildren s')
    = [Some "c1"; Some "b2"; None; Some "s1"].
Proof.
  eexists. split; [reflexivity|].
  destruct (menu_lists_overflow_then_secondary (sampleSurface 200) _ true
              eq_refl) as (loc & Hloc & Hmenu & _).
  injection Hloc as <-. rewrite Hmenu. reflexivity.
Defined.

(** The inputs of a layout: the displays of the commands are not among
    them. *)
Lemma layoutCommands_ext s1 s2 m :
  _cachedMeasurements s1 = Some m →
  _cachedMeasurements s2 = Some m →
  showByHidden <$> _primaryCommands s1 = showByHidden <$> _primaryCommands s2 →
  ICommand.setDisplay displayNone <$> _secondaryCommands s1 =
    ICommand.setDisplay displayNone <$> _secondaryCommands s2 →
  _closedDisplayMode s1 = _closedDisplayMode s2 →
  _nextLayoutStage s1 = _nextLayoutStage s2 →
  _layoutCommands s1 = _layoutCommands s2.
Proof.
  intros Hm1 Hm2 Hshow Hsec Hmode Hstage.
  assert (Hnil : isNil (_secondaryCommands s1) = isNil (_secondaryCommands s2)).
  { rewrite <- (isNil_fmap (ICommand.setDisplay displayNone)
                  (_secondaryCommands s1)), Hsec.
    apply isNil_fmap. }
  rewrite (layoutCommands_unfold s1 m Hm1), (layoutCommands_unfold s2 m Hm2).
  cbv zeta. by rewrite Hnil, Hshow, Hsec, Hmode, Hstage.
Qed.

(** X7. Laying out twice is laying out once: a second layout of the
    surface a layout has produced returns that surface unchanged. The
    displays a layout leaves behind are no input of the next one. *)
Theorem layout_is_idempotent (s s' : Surface) (ok : bool) :
  _layoutCommands s = Normal (s', ok) →
  _layoutCommands s' = Normal (s', true).
Proof.
  intros Hl. pose proof (layoutCommands_primary s s' ok Hl) as HF.
  destruct (layoutCommands_inv s s' ok Hl) as [m Hm].
  assert (Hshow : showByHidden <$> _primaryCommands s'
                  = showByHidden <$> _primaryCommands s).
  { apply list_eq_Forall2, Forall2_fmap, Forall2_flip.
    eapply Forall2_impl; [exact HF|]. by intros c c' [->| ->]. }
  pose proof Hl as Hl'.
  rewrite (layoutCommands_unfold s m Hm) in Hl'. injection Hl' as Hs' <-.
  rewrite <- Hl. apply (layoutCommands_ext s' s m); try done;
    rewrite <- Hs'; cbn [_cachedMeasurements _secondaryCommands
                         _closedDisplayMode _nextLayoutStage]; try done.
  by rewrite <- list_fmap_compose.
Qed.

Lemma layout_is_idempotent_witness :
  ∃ s',
    _layoutCommands (sampleSurface 200) = Normal (s', true) ∧
    _layoutCommands s' = Normal (s', true).
Proof.
  eexists. split; [reflexivity|].
  apply (layout_is_idempotent (sampleSurface 200) _ true eq_refl).
Defined.

(** * Further properties of the pipeline *)

Lemma setNextLayoutStage_id s : setNextLayoutStage (_nextLayoutStage s) s = s.
Proof. by destruct s. Qed.

Lemma measure_setNextLayoutStage d n s :
  _measure d (setNextLayoutStage n s) =
  (setNextLayoutStage n (_measure d s).1, (_measure d s).2).
Proof.
  unfold _measure. destruct (canMeasure d); [|done].
  cbn [_primaryCommands setNextLayoutStage].
  by destruct (measureCommands d (_primaryCommands s)) as [[? ?] ?].
Qed.

Lemma layoutCommands_setNextLayoutStage n s :
  _layoutCommands (setNextLayoutStage n s) =
  match _layoutCommands s with
  | Normal (s', b) => Normal (setNextLayoutStage n s', b)
  | Throws => Throws
  end.
Proof.
  destruct (_cachedMeasurements s) as [m|] eqn:Hm.
  - rewrite (layoutCommands_unfold s m Hm).
    by rewrite (layoutCommands_unfold (setNextLayoutStage n s) m Hm).
  - rewrite (layoutCommands_Throws s Hm).
    by rewrite (layoutCommands_Throws (setNextLayoutStage n s) Hm).
Qed.

Lemma run_from_idle d s :
  _nextLayoutStage s = idle →
  _updateDomImpl_updateCommands pipelineFuel d s = Some (Normal (s, [])).
Proof.
  intros H0. unfold _updateDomImpl_updateCommands, pipelineFuel.
  rewrite H0, drain_idle, <- H0. by rewrite setNextLayoutStage_id.
Qed.

Lemma run_from_layout d s m :
  _nextLayoutStage s = layoutStage →
  _cachedMeasurements s = Some m →
  ∃ s', _layoutCommands s = Normal (s', true) ∧
        _updateDomImpl_updateCommands pipelineFuel d s =
        Some (Normal (setNextLayoutStage idle s', [(layoutStage, true)])).
Proof.
  intros H1 Hm. unfold _updateDomImpl_updateCommands, pipelineFuel.
  rewrite H1, drain_layout, Hm.
  destruct (layoutCommands_Normal s m Hm) as (s1 & -> & _ & _).
  by exists s1.
Qed.

Lemma run_measuring_parks d s :
  _nextLayoutStage s = measuringStage →
  canMeasure d = false →
  _updateDomImpl_updateCommands pipelineFuel d s =
  Some (Normal (s, [(measuringStage, false)])).
Proof.
  intros H2 Hc. unfold _updateDomImpl_updateCommands, pipelineFuel.
  rewrite H2, drain_measuring, Hc, <- H2. by rewrite setNextLayoutStage_id.
Qed.

Lemma run_measuring_completes d s :
  _nextLayoutStage s = measuringStage →
  canMeasure d = true →
  ∃ s', _layoutCommands (_measure d s).1 = Normal (s', true) ∧
        _updateDomImpl_updateCommands pipelineFuel d s =
        Some (Normal (setNextLayoutStage idle s',
                      [(measuringStage, true); (layoutStage, true)])).
Proof.
  intros H2 Hc. unfold _updateDomImpl_updateCommands, pipelineFuel.
  rewrite H2, drain_measuring, Hc.
  destruct (measure_succeeds d s Hc) as [m Hm]. rewrite Hm. cbn [fst].
  rewrite drain_layout. cbn [_cachedMeasurements setCachedMeasurements].
  destruct (layoutCommands_Normal (setCachedMeasurements m s) m eq_refl)
    as (s1 & -> & _ & _).
  by exists s1.
Qed.

Lemma run_newData_parks d s :
  _nextLayoutStage s = newDataStage →
  canMeasure d = false →
  _updateDomImpl_updateCommands pipelineFuel d s =
  Some (Normal (setNextLayoutStage measuringStage s,
                [(newDataStage, true); (measuringStage, false)])).
Proof.
  intros H3 Hc. unfold _updateDomImpl_updateCommands, pipelineFuel.
  by rewrite H3, drain_newData, drain_measuring, Hc.
Qed.

Lemma run_newData_completes d s :
  _nextLayoutStage s = newDataStage →
  canMeasure d = true →
  ∃ s', _layoutCommands (_measure d s).1 = Normal (s', true) ∧
        _updateDomImpl_updateCommands pipelineFuel d s =
        Some (Normal (setNextLayoutStage idle s',
                      [(newDataStage, true); (measuringStage, true);
                       (layoutStage, true)])).
Proof.
  intros H3 Hc. unfold _updateDomImpl_updateCommands, pipelineFuel.
  rewrite H3, drain_newData, drain_measuring, Hc.
  destruct (measure_succeeds d s Hc) as [m Hm]. rewrite Hm. cbn [fst].
  rewrite drain_layout. cbn [_cachedMeasurements setCachedMeasurements].
  destruct (layoutCommands_Normal (setCachedMeasurements m s) m eq_refl)
    as (s1 & -> & _ & _).
  by exists s1.
Qed.

(** X8. On a host that can be measured a run always drains the pipeline:
    whatever stage was pending, the run returns; the actions that ran are
    those of the stages from the pending one down to the layout, each once,
    in this order, and each succeeded; the surface at the end is the one
    these actions leave, one after the other, with the pipeline idle; and
    every further run, on any host, does nothing until new work is
    requested. *)
Theorem measurable_run_drains_fully (d : Dom) (s : Surface) :
  canMeasure d = true →
  pipelineInvariant s →
  ∃ s' log,
    _updateDomImpl_updateCommands pipelineFuel d s = Some (Normal (s', log)) ∧
    log = (λ stage, (stage, true)) <$> pendingStages (_nextLayoutStage s) ∧
    s' = setNextLayoutStage idle
           (foldl (afterStage d) s (pendingStages (_nextLayoutStage s))) ∧
    _nextLayoutStage s' = idle ∧
    ∀ d2, _updateDomImpl_updateCommands pipelineFuel d2 s'
          = Some (Normal (s', [])).
Proof.
  intros Hc [Hstage Hsnap].
  assert (Hend : ∀ s' log,
            _updateDomImpl_updateCommands pipelineFuel d s
            = Some (Normal (s', log)) →
            log = (λ stage, (stage, true))
                    <$> pendingStages (_nextLayoutStage s) →
            s' = setNextLayoutStage idle
                   (foldl (afterStage d) s
                      (pendingStages (_nextLayoutStage s))) →
            ∃ s' log,
              _updateDomImpl_updateCommands pipelineFuel d s
              = Some (Normal (s', log)) ∧
              log = (λ stage, (stage, true))
                      <$> pendingStages (_nextLayoutStage s) ∧
              s' = setNextLayoutStage idle
                     (foldl (afterStage d) s
                        (pendingStages (_nextLayoutStage s))) ∧
              _nextLayoutStage s' = idle ∧
              ∀ d2, _updateDomImpl_updateCommands pipelineFuel d2 s'
                    = Some (Normal (s', []))).
  { intros s' log Hrun Hlog Hs'. exists s', log.
    assert (Hidle : _nextLayoutStage s' = idle) by by rewrite Hs'.
    split_and!; [done..|]. intros d2. by apply run_from_idle. }
  destruct Hstage as [H0|[H1|[H2|H3]]].
  - apply (Hend s []); [by apply run_from_idle|by rewrite H0|].
    rewrite H0. cbn. rewrite <- H0. by rewrite setNextLayoutStage_id.
  - destruct (Hsnap H1) as [m Hm].
    destruct (run_from_layout d s m H1 Hm) as (s1 & Hl & Hrun).
    apply (Hend _ _ Hrun); [by rewrite H1|].
    rewrite H1. cbn [pendingStages Z.eqb newDataStage measuringStage
                     layoutStage Pos.eqb foldl].
    by rewrite (afterStage_layout _ _ _ _ Hl).
  - destruct (run_measuring_completes d s H2 Hc) as (s1 & Hl & Hrun).
    apply (Hend _ _ Hrun); [by rewrite H2|].
    rewrite H2. cbn [pendingStages Z.eqb newDataStage measuringStage
                     layoutStage Pos.eqb foldl].
    by rewrite afterStage_measuring, (afterStage_layout _ _ _ _ Hl).
  - destruct (run_newData_completes d s H3 Hc) as (s1 & Hl & Hrun).
    apply (Hend _ _ Hrun); [by rewrite H3|].
    rewrite H3. cbn [pendingStages Z.eqb newDataStage measuringStage
                     layoutStage Pos.eqb foldl].
    by rewrite afterStage_newData, afterStage_measuring,
         (afterStage_layout _ _ _ _ Hl).
Qed.

Lemma sample_pipelineInvariant s :
  _nextLayoutStage s = newDataStage → pipelineInvariant s.
Proof.
  intros H3. split; [by right; right; right|].
  rewrite H3. discriminate.
Qed.

Lemma measurable_run_drains_fully_witness :
  ∃ s' log,
    _updateDomImpl_updateCommands pipelineFuel (Sample.attached 200)
      (_dataDirty (sampleSurface 200)) = Some (Normal (s', log)) ∧
    log = [(newDataStage, true); (measuringStage, true);
           (layoutStage, true)] ∧
    _nextLayoutStage s' = idle ∧
    ∀ d2, _updateDomImpl_updateCommands pipelineFuel d2 s'
          = Some (Normal (s', [])).
Proof.
  destruct (measurable_run_drains_fully (Sample.attached 200)
              (_dataDirty (sampleSurface 200)) eq_refl)
    as (s' & log & Hrun & Hlog & _ & Hidle & Hnext).
  - apply sample_pipelineInvariant. reflexivity.
  - exists s', log. split_and!; [exact Hrun|exact Hlog|exact Hidle|exact Hnext].
Defined.

(** X9. A run against a host that cannot be measured loses no work and
    does none twice. Followed by a run against a host [d2], it leaves the
    surface exactly as the run against [d2] alone would, and the actions
    that succeeded in it, followed by the actions of the second run, are
    the actions of the run against [d2] alone, with the same outcomes. *)
Theorem parked_run_is_absorbed (d1 d2 : Dom) (s : Surface) :
  canMeasure d1 = false →
  pipelineInvariant s →
  exec s [Ran d1; Ran d2] = exec s [Ran d2] ∧
  ∃ s1 log1 s2 log2 log,
    _updateDomImpl_updateCommands pipelineFuel d1 s
    = Some (Normal (s1, log1)) ∧
    _updateDomImpl_updateCommands pipelineFuel d2 s1
    = Some (Normal (s2, log2)) ∧
    _updateDomImpl_updateCommands pipelineFuel d2 s
    = Some (Normal (s2, log)) ∧
    List.filter (λ e, e.2) log1 ++ log2 = log.
Proof.
  intros Hc [Hstage Hsnap]. unfold exec. cbn [foldl step].
  destruct Hstage as [H0|[H1|[H2|H3]]].
  - pose proof (run_from_idle d1 s H0) as R1.
    pose proof (run_from_idle d2 s H0) as R2.
    rewrite R1. split; [done|]. by exists s, [], s, [], [].
  - destruct (Hsnap H1) as [m Hm].
    destruct (run_from_layout d1 s m H1 Hm) as (s1 & Hl & R1).
    destruct (run_from_layout d2 s m H1 Hm) as (s2 & Hl2 & R2).
    rewrite Hl in Hl2. injection Hl2 as <-.
    pose proof (run_from_idle d2 (setNextLayoutStage idle s1) eq_refl) as R3.
    rewrite R1, R2, R3. split; [done|].
    by exists (setNextLayoutStage idle s1), [(layoutStage, true)],
         (setNextLayoutStage idle s1), [], [(layoutStage, true)].
  - pose proof (run_measuring_parks d1 s H2 Hc) as R1.
    rewrite R1. split; [done|].
    destruct (canMeasure d2) eqn:Hc2.
    + destruct (run_measuring_completes d2 s H2 Hc2) as (s2 & _ & R2).
      by exists s, [(measuringStage, false)], (setNextLayoutStage idle s2),
           [(measuringStage, true); (layoutStage, true)],
           [(measuringStage, true); (layoutStage, true)].
    + pose proof (run_measuring_parks d2 s H2 Hc2) as R2.
      by exists s, [(measuringStage, false)], s, [(measuringStage, false)],
           [(measuringStage, false)].
  - pose proof (run_newData_parks d1 s H3 Hc) as R1. rewrite R1.
    destruct (canMeasure d2) eqn:Hc2.
    + destruct (run_measuring_completes d2
                  (setNextLayoutStage measuringStage s) eq_refl Hc2)
        as (s1 & Hl1 & R2).
      destruct (run_newData_completes d2 s H3 Hc2) as (s2 & Hl2 & R3).
      rewrite measure_setNextLayoutStage in Hl1. cbn [fst] in Hl1.
      rewrite layoutCommands_setNextLayoutStage, Hl2 in Hl1.
      injection Hl1 as <-. rewrite R2, R3. split; [done|].
      by exists (setNextLayoutStage measuringStage s),
           [(newDataStage, true); (measuringStage, false)],
           (setNextLayoutStage idle s2),
           [(measuringStage, true); (layoutStage, true)],
           [(newDataStage, true); (measuringStage, true);
            (layoutStage, true)].
    + pose proof (run_measuring_parks d2
                    (setNextLayoutStage measuringStage s) eq_refl Hc2) as R2.
      pose proof (run_newData_parks d2 s H3 Hc2) as R3.
      rewrite R2, R3. split; [done|].
      by exists (setNextLayoutStage measuringStage s),
           [(newDataStage, true); (measuringStage, false)],
           (setNextLayoutStage measuringStage s),
           [(measuringStage, false)],
           [(newDataStage, true); (measuringStage, false)].
Qed.

Lemma parked_run_is_absorbed_witness :
  _nextLayoutStage
    (exec (_dataDirty (sampleSurface 200))
       [Ran Sample.detached; Ran (Sample.attached 200)]) = idle ∧
  exec (_dataDirty (sampleSurface 200))
    [Ran Sample.detached; Ran (Sample.attached 200)]
  = exec (_dataDirty (sampleSurface 200)) [Ran (Sample.attached 200)].
Proof.
  split; [reflexivity|].
  apply (parked_run_is_absorbed Sample.detached (Sample.attached 200)
           (_dataDirty (sampleSurface 200)) eq_refl).
  apply sample_pipelineInvariant. reflexivity.
Defined.

Lemma layoutCommands_secondary s s' ok :
  _layoutCommands s = Normal (s', ok) →
  _secondaryCommands s' =
    ICommand.setDisplay displayNone <$> _secondaryCommands s.
Proof.
  intros Hl. destruct (layoutCommands_inv s s' ok Hl) as [m Hm].
  rewrite (layoutCommands_unfold s m Hm) in Hl. by injection Hl as <- <-.
Qed.

Lemma layoutCommands_empty s m :
  _cachedMeasurements s = Some m →
  _primaryCommands s = [] →
  _secondaryCommands s = [] →
  _layoutCommands s =
  Normal ({| _closedDisplayMode := _closedDisplayMode s;
             _primaryCommands := [];
             _secondaryCommands := [];
             _nextLayoutStage := _nextLayoutStage s;
             _cachedMeasurements := Some m;
             overflowButtonDisplay := displayNone;
             overflowAreaChildren := [] |}, true).
Proof.
  intros Hm Hp Hs. rewrite (layoutCommands_unfold s m Hm), Hp, Hs.
  reflexivity.
Qed.

(** X10. A resize notification is ignored while the root has no width,
    before the first snapshot, and when the content width of the action
    area has not changed. Otherwise, on an idle surface, the run it asks
    for executes the layout stage alone, on any host, measurable or not:
    the commands are partitioned again against the old snapshot with the
    new width, and nothing is measured. *)
Theorem resize_relayouts_without_measuring (rootOffsetWidth w : Z)
    (s : Surface) :
  (rootOffsetWidth = 0 ∨ _cachedMeasurements s = None ∨
   (∃ m, _cachedMeasurements s = Some m ∧ actionAreaContentBoxWidth m = w) →
   _resizeHandler rootOffsetWidth w s = (s, false)) ∧
  (∀ m d,
     _nextLayoutStage s = idle →
     _cachedMeasurements s = Some m →
     rootOffsetWidth ≠ 0 →
     actionAreaContentBoxWidth m ≠ w →
     ∃ s',
       (_resizeHandler rootOffsetWidth w s).2 = true ∧
       _updateDomImpl_updateCommands pipelineFuel d
         (_resizeHandler rootOffsetWidth w s).1
       = Some (Normal (s', [(layoutStage, true)])) ∧
       _layoutCommands
         (setCachedMeasurements (withActionAreaContentBoxWidth w m) s)
       = Normal (s', true) ∧
       _cachedMeasurements s' = Some (withActionAreaContentBoxWidth w m) ∧
       _nextLayoutStage s' = idle).
Proof.
  split.
  - unfold _resizeHandler. intros [->|[->|(m & -> & <-)]].
    + done.
    + by destruct (rootOffsetWidth =? 0).
    + rewrite Z.eqb_refl. by destruct (rootOffsetWidth =? 0).
  - intros m d H0 Hm Hroot Hw.
    assert (Hres : _resizeHandler rootOffsetWidth w s =
                   (_layoutDirty
                      (setCachedMeasurements
                         (withActionAreaContentBoxWidth w m) s), true)).
    { unfold _resizeHandler. rewrite Hm.
      apply Z.eqb_neq in Hroot as ->. by apply Z.eqb_neq in Hw as ->. }
    rewrite Hres. cbn [fst snd].
    set (s0 := setCachedMeasurements (withActionAreaContentBoxWidth w m) s).
    assert (Hdirty : _layoutDirty s0 = setNextLayoutStage layoutStage s0).
    { unfold _layoutDirty.
      change (_nextLayoutStage s0) with (_nextLayoutStage s). by rewrite H0. }
    rewrite Hdirty.
    destruct (run_from_layout d (setNextLayoutStage layoutStage s0)
                (withActionAreaContentBoxWidth w m) eq_refl eq_refl)
      as (s1 & Hl & Hrun).
    rewrite layoutCommands_setNextLayoutStage in Hl.
    destruct (layoutCommands_Normal s0 (withActionAreaContentBoxWidth w m)
                eq_refl) as (s2 & Hl2 & Hstage & Hcache).
    rewrite Hl2 in Hl. injection Hl as <-.
    exists s2. split_and!; [done| |done|done|].
    + rewrite Hrun.
      change (setNextLayoutStage idle (setNextLayoutStage layoutStage s2))
        with (setNextLayoutStage idle s2).
      change (_nextLayoutStage s0) with (_nextLayoutStage s) in Hstage.
      by rewrite <- H0, <- Hstage, setNextLayoutStage_id.
    + by rewrite Hstage.
Qed.

Lemma resize_relayouts_without_measuring_witness :
  _resizeHandler 0 130 (sampleSurface 200) = (sampleSurface 200, false) ∧
  ∃ s',
    _updateDomImpl_updateCommands pipelineFuel Sample.detached
      (_resizeHandler 400 130 (sampleSurface 200)).1
    = Some (Normal (s', [(layoutStage, true)])) ∧
    _nextLayoutStage s' = idle.
Proof.
  destruct (resize_relayouts_without_measuring 0 130 (sampleSurface 200))
    as [Hignored _].
  destruct (resize_relayouts_without_measuring 400 130 (sampleSurface 200))
    as [_ Hlayout].
  split; [apply Hignored; by left|].
  destruct (Hlayout (Sample.snapshot 200) Sample.detached eq_refl eq_refl)
    as (s' & _ & Hrun & _ & _ & Hidle); [done..|].
  by exists s'.
Defined.

(** X11. After a change of the data a run on a host that can be measured
    executes the three stages in order and leaves the pipeline idle. The
    primary commands are then the commands of the data outside the
    secondary section, in the order of the data and changed in display
    only; the secondary commands are those of the secondary section, all
    with display none. With empty data nothing is left: no command, no
    menu entry, and the overflow button is hidden. *)
Theorem data_change_runs_whole_pipeline (d : Dom) (s : Surface)
    (data : list ICommand.t) :
  canMeasure d = true →
  pipelineInvariant s →
  ∃ s',
    _updateDomImpl_updateCommands pipelineFuel d (_dataUpdated data s)
    = Some (Normal (s', [(newDataStage, true); (measuringStage, true);
                         (layoutStage, true)])) ∧
    _nextLayoutStage s' = idle ∧
    Forall2 (λ c c', c' = ICommand.setDisplay (ICommand.display c') c)
      (List.filter (λ c, negb (isSecondary c)) data) (_primaryCommands s') ∧
    _secondaryCommands s' =
      ICommand.setDisplay displayNone <$> List.filter isSecondary data ∧
    (data = [] →
     _primaryCommands s' = [] ∧ _secondaryCommands s' = [] ∧
     overflowButtonDisplay s' = displayNone ∧ overflowAreaChildren s' = []).
Proof.
  intros Hc [Hstage _].
  set (s0 := _dataUpdated data s).
  assert (H3 : _nextLayoutStage s0 = newDataStage).
  { unfold s0, _dataUpdated, _dataDirty. cbn [_nextLayoutStage
      setNextLayoutStage withCommands].
    unfold idle, layoutStage, measuringStage, newDataStage in *. lia. }
  destruct (run_newData_completes d s0 H3 Hc) as (s1 & Hl & Hrun).
  destruct (measure_succeeds d s0 Hc) as [m Hm]. rewrite Hm in Hl.
  cbn [fst] in Hl.
  exists (setNextLayoutStage idle s1). split_and!; [done|done| | |].
  - cbn [_primaryCommands setNextLayoutStage].
    eapply Forall2_impl; [exact (layoutCommands_primary _ _ _ Hl)|].
    by intros c c' [->| ->].
  - cbn [_secondaryCommands setNextLayoutStage].
    by rewrite (layoutCommands_secondary _ _ _ Hl).
  - intros ->.
    rewrite (layoutCommands_empty (setCachedMeasurements m s0) m) in Hl
      by done.
    by injection Hl as <-.
Qed.

Lemma data_change_runs_whole_pipeline_witness :
  ∃ s',
    _updateDomImpl_updateCommands pipelineFuel (Sample.attached 200)
      (_dataUpdated Sample.toolbar (_dataDirty (sampleSurface 200)))
    = Some (Normal (s', [(newDataStage, true); (measuringStage, true);
                         (layoutStage, true)])) ∧
    _nextLayoutStage s' = idle ∧
    _secondaryCommands s' = [].
Proof.
  destruct (data_change_runs_whole_pipeline (Sample.attached 200)
              (_dataDirty (sampleSurface 200)) Sample.toolbar eq_refl)
    as (s' & Hrun & Hidle & _ & Hsec & _).
  { apply sample_pipelineInvariant. reflexivity. }
  exists s'. by split_and!.
Defined.

(** * Further properties of the focus navigation *)

Lemma getFocusableElementsInfo_snoc (l : list ElementInReach) e :
  _getFocusableElementsInfo (l ++ [e]) =
  let info := _getFocusableElementsInfo l in
  if isElementFocusable e then
    {| elements := elements info ++ [e];
       focusedIndex :=
         if containsActiveElement e
         then Z.of_nat (length (elements info ++ [e])) - 1
         else focusedIndex info |}
  else info.
Proof. unfold _getFocusableElementsInfo. by rewrite foldl_snoc. Qed.

Lemma filter_snoc {A} (p : A → bool) (l : list A) x :
  List.filter p (l ++ [x]) = List.filter p l ++ (if p x then [x] else []).
Proof.
  induction l as [|y l IH]; simpl; [by destruct (p x)|].
  destruct (p y); simpl; by rewrite IH.
Qed.

(** X15. What [_getFocusableElementsInfo] reports: the focusable elements
    in reach, in order; a focused index of -1 exactly when none of them
    contains the active element; and otherwise the index of the last of
    them that does. *)
Theorem focusable_elements_info_spec (elementsInReach : list ElementInReach) :
  let info := _getFocusableElementsInfo elementsInReach in
  elements info = List.filter isElementFocusable elementsInReach ∧
  (focusedIndex info = -1 ↔
   Forall (λ e, containsActiveElement e = false) (elements info)) ∧
  (focusedIndex info ≠ -1 →
   ∃ (i : nat) e,
     focusedIndex info = Z.of_nat i ∧
     elements info !! i = Some e ∧
     containsActiveElement e = true ∧
     ∀ (j : nat) e',
       (i < j)%nat → elements info !! j = Some e' →
       containsActiveElement e' = false).
Proof.
  induction elementsInReach as [|e l IH] using rev_ind.
  - cbn. split_and!; [done| |done]. split; [constructor|done].
  - rewrite getFocusableElementsInfo_snoc, filter_snoc.
    cbv zeta in *. destruct IH as (Hel & Hnone & Hsome).
    set (info := _getFocusableElementsInfo l) in *.
    destruct (isElementFocusable e) eqn:Hf;
      [|rewrite app_nil_r; by split_and!].
    cbn [elements focusedIndex]. split_and!.
    + by rewrite Hel.
    + rewrite Forall_app, Forall_singleton.
      destruct (containsActiveElement e) eqn:Ha.
      * rewrite length_app. cbn [length]. split; [lia|by intros [_ ?]].
      * rewrite Hnone. split; [done|by intros [? _]].
    + destruct (containsActiveElement e) eqn:Ha.
      * intros _. exists (length (elements info)), e. split_and!.
        -- rewrite length_app. cbn [length]. lia.
        -- by rewrite lookup_app_r, Nat.sub_diag.
        -- done.
        -- intros j e' Hj He'. apply lookup_lt_Some in He'.
           rewrite length_app in He'. cbn [length] in He'. lia.
      * intros Hne. destruct (Hsome Hne) as (i & ei & Hi & Hei & Hact & Hlast).
        exists i, ei. split_and!; [done| |done|].
        -- by apply lookup_app_l_Some.
        -- intros j e' Hj He'.
           apply lookup_app_Some in He' as [He'|[_ He']].
           ++ by apply (Hlast j).
           ++ apply list_lookup_singleton_Some in He' as [_ <-]. done.
Qed.

Lemma focusable_elements_info_spec_witness :
  ∃ (i : nat) e,
    focusedIndex sampleFocus = Z.of_nat i ∧
    elements sampleFocus !! i = Some e ∧
    elementId e = "b2".
Proof.
  destruct (focusable_elements_info_spec
              [{| elementId := "b1"; isElementFocusable := true;
                  containsActiveElement := false |};
               {| elementId := "sep"; isElementFocusable := false;
                  containsActiveElement := false |};
               {| elementId := "b2"; isElementFocusable := true;
                  containsActiveElement := true |};
               {| elementId := "overflowbutton"; isElementFocusable := true;
                  containsActiveElement := false |}])
    as (_ & _ & Hfocused).
  destruct Hfocused as (i & e & Hi & He & _ & _); [discriminate|].
  exists i, e. split_and!; [exact Hi|exact He|].
  assert (i = 1%nat) as ->
    by (apply Nat2Z.inj; rewrite <- Hi; reflexivity).
  by injection He as <-.
Defined.

(** X16. The handler never reads outside the list: with the info of
    [_getFocusableElementsInfo], whenever a target is chosen its index is
    a valid index of the focusable elements. It chooses none exactly when
    Alt is held, the event comes from interactive content, nothing is
    focusable, or the key means no direction. *)
Theorem keyboard_target_in_bounds (rtl : bool) (ev : KeyEvent)
    (elementsInReach : list ElementInReach) :
  let info := _getFocusableElementsInfo elementsInReach in
  (∀ focusEnd index,
     _keyDownHandler rtl ev info = Some (focusEnd, index) →
     0 ≤ index < Z.of_nat (length (elements info))) ∧
  (_keyDownHandler rtl ev info = None ↔
   altKey ev = true ∨ targetIsInteractive ev = true ∨ elements info = [] ∨
   directionOfKey rtl (keyCode ev) = None).
Proof.
  intros info.
  pose proof (getFocusableElementsInfo_range elementsInReach) as Hr.
  fold info in Hr. cbv zeta in Hr.
  unfold _keyDownHandler.
  destruct (altKey ev); [split; [done|split; [by left|done]]|].
  destruct (targetIsInteractive ev);
    [split; [done|split; [by right; left|done]]|].
  destruct (elements info) as [|e0 rest] eqn:Hel.
  { cbn. split; [done|]. split; [by right; right; left|done]. }
  set (n := Z.of_nat (length (e0 :: rest))) in *.
  assert (Hn : 0 < n) by (unfold n; cbn [length]; lia).
  clearbody n. destruct (Z.eqb_spec n 0); [lia|].
  split.
  - intros focusEnd index.
    destruct rtl, (keyCode ev); cbn [bool_decide decide_rel orb];
      intros Hk; try discriminate Hk; injection Hk as _ <-;
      try lia; apply Z.rem_bound_pos; lia.
  - destruct rtl, (keyCode ev); cbn [bool_decide decide_rel orb directionOfKey];
      split;
      first [done | by intros _; right; right; right
            | by intros [?|[?|[?|?]]]].
Qed.

Lemma keyboard_target_in_bounds_witness :
  ∃ index,
    _keyDownHandler false
      {| altKey := false; targetIsInteractive := false;
         keyCode := rightArrow |} sampleFocus
    = Some (FirstElementFocus, index) ∧
    0 ≤ index < 3.
Proof.
  exists 2. split; [reflexivity|].
  destruct (keyboard_target_in_bounds false
              {| altKey := false; targetIsInteractive := false;
                 keyCode := rightArrow |}
              [{| elementId := "b1"; isElementFocusable := true;
                  containsActiveElement := false |};
               {| elementId := "sep"; isElementFocusable := false;
                  containsActiveElement := false |};
               {| elementId := "b2"; isElementFocusable := true;
                  containsActiveElement := true |};
               {| elementId := "overflowbutton"; isElementFocusable := true;
                  containsActiveElement := false |}])
    as (Hbounds & _).
  exact (Hbounds FirstElementFocus 2 eq_refl).
Defined.

(** * Properties of the element tree *)

Lemma elem_of_List_filter {A} (p : A → bool) (l : list A) (x : A) :
  x ∈ List.filter p l ↔ p x = true ∧ x ∈ l.
Proof.
  rewrite !list_elem_of_In, filter_In. tauto.
Qed.

Lemma elem_of_diffElements (lhs rhs : list Element) (e : Element) :
  e ∈ diffElements lhs rhs ↔ e ∈ lhs ∧ e ∉ rhs.
Proof.
  unfold diffElements. rewrite elem_of_List_filter, negb_true_iff.
  rewrite bool_decide_eq_false. tauto.
Qed.

(** X18. What the three lists handed to the update animation hold, the
    shown command elements of the action area being the current ones:
    [deleted] are the current elements that are not in the new data,
    [affected] the current elements that are, and [added] the elements of
    the new data that are not current, whether shown or not. No element
    is in two of the lists. *)
Theorem data_change_info_partitions (styleDisplay : Element → string)
    (children : list Node) (newData : list Element) :
  let info := _getDataChangeInfo styleDisplay children newData in
  let currentShown :=
    List.filter (isShown styleDisplay) (querySelectorAll_command children) in
  (∀ e, e ∈ deleted info ↔ e ∈ currentShown ∧ e ∉ newData) ∧
  (∀ e, e ∈ affected info ↔ e ∈ currentShown ∧ e ∈ newData) ∧
  (∀ e, e ∈ added info ↔ e ∈ newData ∧ e ∉ currentShown) ∧
  (∀ e, ¬ (e ∈ deleted info ∧ e ∈ affected info) ∧
        ¬ (e ∈ deleted info ∧ e ∈ added info) ∧
        ¬ (e ∈ affected info ∧ e ∈ added info)).
Proof.
  intros info currentShown.
  assert (Hdel : ∀ e, e ∈ deleted info ↔ e ∈ currentShown ∧ e ∉ newData).
  { intros e. unfold info, _getDataChangeInfo. cbn [deleted].
    rewrite elem_of_diffElements. fold currentShown.
    split; intros [Hcur Hnot]; (split; [done|]).
    - intros Hin. apply Hnot, elem_of_List_filter. split; [|done].
      by apply elem_of_List_filter in Hcur as [? _].
    - intros Hin. apply Hnot. by apply elem_of_List_filter in Hin as [_ ?]. }
  assert (Haff : ∀ e, e ∈ affected info ↔ e ∈ currentShown ∧ e ∈ newData).
  { intros e. unfold info, _getDataChangeInfo. cbn [affected].
    rewrite elem_of_diffElements. fold currentShown.
    change (diffElements currentShown
              (List.filter (isShown styleDisplay) newData))
      with (deleted info).
    rewrite Hdel. destruct (decide (e ∈ newData)); tauto. }
  assert (Hadd : ∀ e, e ∈ added info ↔ e ∈ newData ∧ e ∉ currentShown).
  { intros e. unfold info, _getDataChangeInfo. cbn [added].
    rewrite elem_of_app, elem_of_diffElements, !elem_of_List_filter.
    unfold currentShown. rewrite elem_of_List_filter, negb_true_iff.
    destruct (isShown styleDisplay e); intuition congruence. }
  split_and!; [done..|].
  intros e. rewrite Hdel, Haff, Hadd. tauto.
Qed.

Lemma List_filter_filter {A} (p q : A → bool) (l : list A) :
  List.filter p (List.filter q l) = List.filter (λ x, q x && p x) l.
Proof.
  induction l as [|x l IH]; [done|]. cbn [List.filter].
  destruct (q x); cbn [List.filter andb]; [|done].
  destruct (p x); by rewrite IH.
Qed.

Lemma elem_of_querySelectorAll_command (children : list Node) (e : Element) :
  e ∈ querySelectorAll_command children ↔ CommandElement e ∈ children.
Proof.
  unfold querySelectorAll_command. rewrite list_elem_of_omap. split.
  - intros (n & Hn & Hc). destruct n; try discriminate.
    by injection Hc as ->.
  - intros Hn. by exists (CommandElement e).
Qed.

Lemma removeChildren_filter (es : list Element) :
  ∀ children,
    foldl (λ children element, removeChild (CommandElement element) children)
      children es =
    List.filter (λ n, negb (bool_decide (n ∈ CommandElement <$> es))) children.
Proof.
  induction es as [|e es IH]; intros children; cbn [foldl].
  - rewrite (filter_all _ children); [done|].
    intros n _. rewrite fmap_nil. apply negb_true_iff, bool_decide_eq_false.
    apply not_elem_of_nil.
  - rewrite IH. unfold removeChild. rewrite List_filter_filter.
    apply List.filter_ext. intros n. rewrite fmap_cons.
    destruct (decide (n = CommandElement e)) as [->|Hne].
    + rewrite bool_decide_eq_true_2 by done. cbn [negb andb]. symmetry.
      apply negb_false_iff, bool_decide_eq_true. by left.
    + rewrite (bool_decide_eq_false_2 (n = CommandElement e)) by done.
      cbn [negb andb]. f_equal. apply bool_decide_ext.
      rewrite elem_of_cons. tauto.
Qed.

Lemma removeChild_absent (child : Node) (children : list Node) :
  child ∉ children → removeChild child children = children.
Proof.
  intros Hnot. apply filter_all. intros n Hn.
  apply negb_true_iff, bool_decide_eq_false. by intros ->.
Qed.

Lemma appendChildren_app (es : list Element) :
  ∀ children,
    NoDup es →
    (∀ e, e ∈ es → CommandElement e ∉ children) →
    foldl (λ children element, appendChild (CommandElement element) children)
      children es = children ++ (CommandElement <$> es).
Proof.
  induction es as [|e es IH]; intros children Hnd Hfresh; cbn [foldl].
  - by rewrite fmap_nil, app_nil_r.
  - apply NoDup_cons in Hnd as [Hne Hnd].
    unfold appendChild at 2.
    rewrite removeChild_absent by (apply Hfresh; by left).
    rewrite IH; [by rewrite <- app_assoc| done |].
    intros e' He'. rewrite elem_of_app, list_elem_of_singleton.
    intros [Hin|Heq].
    + by apply (Hfresh e'); [right|].
    + injection Heq as ->. done.
Qed.

Lemma querySelectorAll_command_app (l k : list Node) :
  querySelectorAll_command (l ++ k) =
  querySelectorAll_command l ++ querySelectorAll_command k.
Proof. apply omap_app. Qed.

Lemma querySelectorAll_command_others (l : list Node) :
  querySelectorAll_command
    (List.filter
       (λ n, negb (isCommandNode n)
             && negb (bool_decide (n = OverflowButtonElement))) l) = [].
Proof.
  induction l as [|n l IH]; [done|]. cbn [List.filter].
  destruct n; cbn [isCommandNode negb andb]; try done;
    destruct (negb (bool_decide _)); cbn; done.
Qed.

Lemma querySelectorAll_command_commands (es : list Element) :
  querySelectorAll_command (CommandElement <$> es) = es.
Proof.
  induction es as [|e es IH]; [done|]. rewrite fmap_cons. cbn.
  f_equal. exact IH.
Qed.

(** X19. [_processNewData] rebuilds the action area from the data: the
    children that are no commands keep their places, the command elements
    of the data follow in the order of the data, and the overflow button
    is the last child. The command elements of the action area are then
    exactly those of the data, and the root carries the class of the empty
    surface exactly when the data is empty. *)
Theorem process_new_data_rebuilds_action_area
    (styleDisplay : Element → string) (newData : list Element)
    (t : ElementTree) :
  NoDup newData →
  let t' := (OnElementTree._processNewData styleDisplay newData t).1 in
  actionAreaChildren t' =
    List.filter
      (λ n, negb (isCommandNode n)
            && negb (bool_decide (n = OverflowButtonElement)))
      (actionAreaChildren t)
    ++ (CommandElement <$> newData) ++ [OverflowButtonElement] ∧
  querySelectorAll_command (actionAreaChildren t') = newData ∧
  last (actionAreaChildren t') = Some OverflowButtonElement ∧
  (ClassNames.emptyCommandingSurfaceCssClass ∈ rootClasses t' ↔ newData = []).
Proof.
  intros Hnd t'.
  assert (Hremoved :
    foldl (λ children element, removeChild (CommandElement element) children)
      (actionAreaChildren t)
      (querySelectorAll_command (actionAreaChildren t))
    = List.filter (λ n, negb (isCommandNode n)) (actionAreaChildren t)).
  { rewrite removeChildren_filter. apply List.filter_ext_in. intros n Hn.
    apply list_elem_of_In in Hn. f_equal.
    destruct n as [e| | |e']; cbn [isCommandNode].
    - apply bool_decide_eq_true, list_elem_of_fmap. exists e. split; [done|].
      by apply elem_of_querySelectorAll_command.
    - apply bool_decide_eq_false. by intros (e & ? & _)%list_elem_of_fmap.
    - apply bool_decide_eq_false. by intros (e & ? & _)%list_elem_of_fmap.
    - apply bool_decide_eq_false. by intros (e & ? & _)%list_elem_of_fmap. }
  assert (Hchildren :
    actionAreaChildren t' =
    List.filter
      (λ n, negb (isCommandNode n)
            && negb (bool_decide (n = OverflowButtonElement)))
      (actionAreaChildren t)
    ++ (CommandElement <$> newData) ++ [OverflowButtonElement]).
  { unfold t', OnElementTree._processNewData, _getDataChangeInfo.
    cbn [fst actionAreaChildren currentElements newElements].
    rewrite Hremoved, appendChildren_app; [|done|].
    - unfold appendChild, removeChild.
      rewrite List.filter_app, List_filter_filter, <- app_assoc. f_equal.
      f_equal. apply filter_all. intros n (e & -> & _)%list_elem_of_fmap.
      done.
    - intros e _ [Hc _]%elem_of_List_filter. done. }
  split_and!.
  - done.
  - rewrite Hchildren, !querySelectorAll_command_app.
    rewrite querySelectorAll_command_others, querySelectorAll_command_commands.
    cbn. by rewrite app_nil_r.
  - rewrite Hchildren, app_assoc. apply last_snoc.
  - unfold t', OnElementTree._processNewData. cbn [fst rootClasses].
    destruct newData as [|e l]; cbn [length Nat.ltb Nat.leb].
    + split; [done|]. intros _. apply elem_of_union_r. by apply elem_of_singleton.
    + split; [|done]. intros [_ Hnot]%elem_of_difference.
      exfalso. apply Hnot. by apply elem_of_singleton.
Qed.

Lemma process_new_data_rebuilds_action_area_witness :
  actionAreaChildren
    (OnElementTree._processNewData (λ _, displayUnset) ["b2"; "b1"]
       {| rootClasses := ∅;
          actionAreaChildren :=
            [CommandElement "b1"; SpacerElement; OverflowButtonElement;
             CommandElement "b3"] |}).1
  = [SpacerElement; CommandElement "b2"; CommandElement "b1";
     OverflowButtonElement].
Proof.
  destruct (process_new_data_rebuilds_action_area (λ _, displayUnset)
              ["b2"; "b1"]
              {| rootClasses := ∅;
                 actionAreaChildren :=
                   [CommandElement "b1"; SpacerElement; OverflowButtonElement;
                    CommandElement "b3"] |})
    as (Hchildren & _).
  - apply NoDup_cons. split; [|apply NoDup_singleton].
    by intros [=]%list_elem_of_singleton.
  - rewrite Hchildren. reflexivity.
Defined.

Lemma commandsFrom_withButton (children : list Node) :
  ∀ commands,
    commandsFrom true children commands =
    Returned (commands ++ querySelectorAll_command children).
Proof.
  induction children as [|n l IH]; intros commands; cbn [commandsFrom].
  - by rewrite app_nil_r.
  - destruct n; cbn [negb]; rewrite IH; try done.
    by rewrite <- app_assoc.
Qed.

Lemma commandsFrom_withoutButton (children : list Node) :
  ∀ commands,
    commandsFrom false children commands =
    if forallb isCommandNode children
    then Returned (commands ++ querySelectorAll_command children)
    else Thrown ErrorNames.MustContainCommands.
Proof.
  induction children as [|n l IH]; intros commands; cbn [commandsFrom].
  - by rewrite app_nil_r.
  - destruct n; cbn [negb forallb isCommandNode andb]; try done.
    rewrite IH. destruct (forallb isCommandNode l); [|done].
    by rewrite <- app_assoc.
Qed.

Lemma forallb_isCommandNode_false (l : list Node) :
  forallb isCommandNode l = false →
  ∃ n, n ∈ l ∧ isCommandNode n = false.
Proof.
  induction l as [|n l IH]; [done|]. cbn [forallb].
  destruct (isCommandNode n) eqn:Hn; cbn [andb].
  - intros (n' & Hin & Hc)%IH. exists n'. split; [by right|done].
  - intros _. exists n. split; [by left|done].
Qed.

Lemma getDataFromDOMElements_initializeDom (host : HostElement) :
  _getDataFromDOMElements (_initializeDom host)
  = Returned (querySelectorAll_command (hostChildren host)).
Proof.
  unfold _getDataFromDOMElements, _initializeDom.
  cbn [overflowButton actionAreaOf]. rewrite commandsFrom_withButton.
  unfold querySelectorAll_command. rewrite omap_app. cbn [omap list_omap].
  by rewrite app_nil_r.
Qed.

(** X20. The commands a control finds among the children of its element:
    after [_initializeDom] the overflow button exists, so
    [_getDataFromDOMElements] never throws, whatever the element
    contained; it returns the commands in the order of the children and
    skips every other child. Only on a tree without an overflow button
    would a child that is no command raise [MustContainCommands]. *)
Theorem default_data_skips_other_children (host : HostElement)
    (dom0 : ControlDom) :
  _getDataFromDOMElements (_initializeDom host)
  = Returned (querySelectorAll_command (hostChildren host)) ∧
  (_getDataFromDOMElements dom0 = Thrown ErrorNames.MustContainCommands ↔
   overflowButton dom0 = false ∧
   ∃ n, n ∈ actionAreaOf dom0 ∧ isCommandNode n = false) ∧
  (∀ name, _getDataFromDOMElements dom0 = Thrown name →
           name = ErrorNames.MustContainCommands).
Proof.
  split_and!.
  - apply getDataFromDOMElements_initializeDom.
  - unfold _getDataFromDOMElements. destruct (overflowButton dom0).
    + rewrite commandsFrom_withButton. split; [done|by intros [? _]].
    + rewrite commandsFrom_withoutButton.
      destruct (forallb isCommandNode (actionAreaOf dom0)) eqn:Hall.
      * split; [done|]. intros [_ (n & Hn & Hc)].
        rewrite forallb_forall in Hall.
        rewrite (Hall n) in Hc; [done|]. by apply list_elem_of_In.
      * split; [|done]. intros _. split; [done|].
        by apply forallb_isCommandNode_false.
  - intros name. unfold _getDataFromDOMElements.
    destruct (overflowButton dom0).
    + by rewrite commandsFrom_withButton.
    + rewrite commandsFrom_withoutButton.
      destruct (forallb isCommandNode (actionAreaOf dom0)); [done|].
      by intros [= <-].
Qed.

Lemma default_data_skips_other_children_witness :
  _getDataFromDOMElements
    (_initializeDom
       {| winControl := false;
          hostChildren :=
            [CommandElement "b1"; OtherElement "table";
             CommandElement "b2"] |})
  = Returned ["b1"; "b2"] ∧
  _getDataFromDOMElements
    {| root := {| winControl := true; hostChildren := [] |};
       actionAreaOf := [CommandElement "b1"; OtherElement "table"];
       overflowButton := false |}
  = Thrown ErrorNames.MustContainCommands.
Proof.
  destruct (default_data_skips_other_children
              {| winControl := false;
                 hostChildren :=
                   [CommandElement "b1"; OtherElement "table";
                    CommandElement "b2"] |}
              {| root := {| winControl := true; hostChildren := [] |};
                 actionAreaOf := [CommandElement "b1"; OtherElement "table"];
                 overflowButton := false |})
    as (Hdefault & Hthrows & _).
  split; [exact Hdefault|].
  apply Hthrows. split; [reflexivity|].
  exists (OtherElement "table"). split; [|reflexivity].
  apply list_elem_of_further, list_elem_of_here.
Defined.

(** X21. A construction claims its element, also when it fails: on an
    element with no control, the call attaches one before the data is
    looked at, so that every later construction on the element throws
    [DuplicateConstruction], even after a first call that threw
    [BadData]. The first call itself throws exactly when [options.data]
    is given and is no list; without [options.data] the data is a new
    list of the commands found among the children. *)
Theorem construction_claims_the_element (host : HostElement)
    (optionsData : option DataValue) (newList : nat) :
  winControl host = false →
  ∃ host',
    (constructor (Some host) optionsData newList).2 = Some host' ∧
    (∀ optionsData' newList',
       constructor (Some host') optionsData' newList'
       = (Thrown ErrorNames.DuplicateConstruction, Some host')) ∧
    (constructor (Some host) optionsData newList).1 =
      match optionsData with
      | None =>
          Returned
            {| dom := _initializeDom host;
               data :=
                 BindingList newList
                   (querySelectorAll_command (hostChildren host)) |}
      | Some NotABindingList => Thrown ErrorNames.BadData
      | Some value =>
          Returned {| dom := _initializeDom host; data := value |}
      end.
Proof.
  intros Hfresh. exists (root (_initializeDom host)).
  unfold constructor. rewrite Hfresh. cbn [default from_option id].
  destruct optionsData as [[listId items|]|].
  - done.
  - done.
  - by rewrite getDataFromDOMElements_initializeDom.
Qed.

Lemma construction_claims_the_element_witness :
  ∃ host',
    constructor
      (Some {| winControl := false;
               hostChildren := [OtherElement "table"] |})
      (Some NotABindingList) 0
    = (Thrown ErrorNames.BadData, Some host') ∧
    constructor (Some host') (Some (BindingList 1 [])) 2
    = (Thrown ErrorNames.DuplicateConstruction, Some host').
Proof.
  destruct (construction_claims_the_element
              {| winControl := false;
                 hostChildren := [OtherElement "table"] |}
              (Some NotABindingList) 0 eq_refl)
    as (host' & Hhost & Hdup & Hres).
  exists host'. split; [|apply Hdup].
  by apply injective_projections.
Defined.

(** * Properties of the control *)

Lemma removeEventListener_head r l : removeEventListener r (r :: l) = l.
Proof. cbn. by rewrite bool_decide_eq_true_2. Qed.

Lemma refresh_keeps_invariant c :
  controlInvariant c →
  controlInvariant (_refresh c) ∧ _data (_refresh c) = _data c ∧
  _disposed (_refresh c) = _disposed c ∧
  dataUpdatedCalls (_refresh c) = dataUpdatedCalls c.
Proof.
  intros Hinv. pose proof Hinv as (Hl & Hle & Hidle & Hbusy).
  unfold _refresh.
  destruct (_refreshPending c) eqn:Hp; [done|].
  split; [|done]. unfold controlInvariant. cbn.
  rewrite (Hidle eq_refl). by split_and!.
Qed.

Lemma refreshes_keep_invariant {A} (xs : list A) :
  ∀ c,
    controlInvariant c →
    controlInvariant (foldl (λ c _, _refresh c) c xs) ∧
    _data (foldl (λ c _, _refresh c) c xs) = _data c ∧
    _disposed (foldl (λ c _, _refresh c) c xs) = _disposed c ∧
    dataUpdatedCalls (foldl (λ c _, _refresh c) c xs) = dataUpdatedCalls c.
Proof.
  induction xs as [|x xs IH]; intros c Hinv; [done|]. cbn [foldl].
  destruct (refresh_keeps_invariant c Hinv) as (Hinv' & Hd & Hdis & Hcalls).
  destruct (IH _ Hinv') as (? & -> & -> & ->). by split_and!.
Qed.

Lemma set_data_keeps_invariant value c c' :
  controlInvariant c → set_data value c = Returned c' → controlInvariant c'.
Proof.
  intros Hinv. pose proof Hinv as (Hl & Hle & Hidle & Hbusy).
  unfold set_data.
  destruct value as [id items|]; [|done].
  destruct (bool_decide (id = _data c)); intros [= <-]; [done|].
  unfold controlInvariant.
  cbn [_data listeners _refreshPending _disposed scheduled
       OnControl._dataUpdated _addDataListeners _removeDataListeners
       withListeners].
  split_and!; try done.
  rewrite Hl. unfold _dataChangedEvents.
  cbn [fmap list_fmap foldl]. by rewrite !removeEventListener_head.
Qed.

Lemma handle_keeps_invariant c ev :
  controlInvariant c → controlInvariant (handle c ev).
Proof.
  intros Hinv. destruct ev as [value|l eventName|items|]; cbn [handle].
  - destruct (set_data value c) as [c'|name] eqn:Hset; [|done].
    by apply (set_data_keeps_invariant value c).
  - by apply refreshes_keep_invariant.
  - pose proof Hinv as (Hl & Hle & Hidle & Hbusy).
    destruct (scheduled c) as [|n] eqn:Hs; [done|].
    assert (n = 0%nat) as -> by lia.
    unfold refreshJob. cbn [_refreshPending _disposed].
    destruct (_refreshPending c) eqn:Hp, (_disposed c) eqn:Hd;
      cbn [andb negb]; unfold controlInvariant; cbn; rewrite ?Hp, ?Hd;
      split_and!; try done; lia.
  - pose proof Hinv as (Hl & Hle & Hidle & Hbusy). unfold dispose.
    destruct (_disposed c) eqn:Hd; [done|].
    unfold controlInvariant. cbn. by split_and!.
Qed.

Lemma constructedControl_invariant id items :
  controlInvariant (constructedControl id items).
Proof. unfold controlInvariant. cbn. split_and!; done || lia. Qed.

Lemma trace_keeps_invariant trace :
  ∀ c, controlInvariant c → controlInvariant (foldl handle c trace).
Proof.
  induction trace as [|ev trace IH]; intros c Hinv; [done|].
  cbn [foldl]. by apply IH, handle_keeps_invariant.
Qed.

(** X22. The refresh listeners follow the data: whatever has happened to
    a control since its construction, [_refreshBound] is registered on the
    list the control holds, once for each of the five event names, and on
    no other list. An event of a list that was replaced schedules
    nothing, and an assignment that throws [BadData] changes nothing. *)
Theorem listeners_follow_the_data (id : nat) (items : list Element)
    (trace : list ControlEvent) :
  let c := foldl handle (constructedControl id items) trace in
  listeners c = (λ eventName, (_data c, eventName)) <$> _dataChangedEvents ∧
  (∀ list eventName, list ≠ _data c → handle c (Fired list eventName) = c) ∧
  handle c (SetData NotABindingList) = c.
Proof.
  intros c.
  pose proof (trace_keeps_invariant trace _
                (constructedControl_invariant id items)) as (Hl & _).
  fold c in Hl. split_and!; [done| |done].
  intros l eventName Hne. cbn [handle]. rewrite filter_none; [done|].
  intros r Hr. apply bool_decide_eq_false. intros ->.
  rewrite Hl in Hr. apply list_elem_of_fmap in Hr as (ev & [= ? _] & _).
  done.
Qed.

Lemma listeners_follow_the_data_witness :
  handle
    (foldl handle (constructedControl 7 ["b1"])
       [SetData (BindingList 8 ["b2"])])
    (Fired 7 "reload")
  = foldl handle (constructedControl 7 ["b1"])
      [SetData (BindingList 8 ["b2"])].
Proof.
  destruct (listeners_follow_the_data 7 ["b1"]
              [SetData (BindingList 8 ["b2"])]) as (_ & Hother & _).
  apply Hother. discriminate.
Defined.

Lemma filter_registrations (d : nat) (n : string) (evs : list string) :
  List.filter (λ r, bool_decide (r = (d, n)))
    ((λ eventName, (d, eventName)) <$> evs) =
  (λ eventName, (d, eventName)) <$>
    List.filter (λ eventName, bool_decide (eventName = n)) evs.
Proof.
  induction evs as [|ev evs IH]; [done|].
  rewrite fmap_cons. cbn [List.filter].
  destruct (decide (ev = n)) as [->|Hne].
  - rewrite !bool_decide_eq_true_2 by done. by rewrite fmap_cons, IH.
  - rewrite !bool_decide_eq_false_2; [done|done|]. by intros [= ?].
Qed.

(** X23. Refreshes are batched: at any time at most one job of [_refresh]
    waits in the scheduler, and however many events the list fires before
    the job runs, the job calls [_dataUpdated] once, with the elements the
    data holds when it runs, and leaves nothing pending. *)
Theorem refreshes_are_batched (id : nat) (items : list Element)
    (trace : list ControlEvent) (eventNames : list string)
    (itemsNow : list Element) :
  let c := foldl handle (constructedControl id items) trace in
  let fired := foldl handle c (Fired (_data c) <$> eventNames) in
  _disposed c = false →
  _refreshPending c = false →
  eventNames ≠ [] →
  Forall (λ eventName, eventName ∈ _dataChangedEvents) eventNames →
  (scheduled c ≤ 1)%nat ∧
  scheduled fired = 1%nat ∧
  handle fired (RunJob itemsNow) = OnControl._dataUpdated itemsNow c.
Proof.
  intros c fired Hd Hp Hne Hall.
  pose proof (trace_keeps_invariant trace _
                (constructedControl_invariant id items)) as Hinv.
  fold c in Hinv.
  assert (Hfirst : ∀ eventName,
            eventName ∈ _dataChangedEvents →
            handle c (Fired (_data c) eventName) = _refresh c).
  { intros eventName Hin. cbn [handle]. destruct Hinv as (Hl & _).
    rewrite Hl, filter_registrations. unfold _dataChangedEvents in *.
    repeat (apply elem_of_cons in Hin as [->|Hin]);
      [..|by apply elem_of_nil in Hin]; reflexivity. }
  assert (Hpending : ∀ names c1,
            controlInvariant c1 → _refreshPending c1 = true →
            foldl handle c1 (Fired (_data c) <$> names) = c1).
  { induction names as [|n names IH]; intros c1 Hinv1 Hp1; [done|].
    rewrite fmap_cons. cbn [foldl].
    assert (Hsame : handle c1 (Fired (_data c) n) = c1).
    { cbn [handle].
      generalize (List.filter (λ r, bool_decide (r = (_data c, n)))
                    (listeners c1)).
      induction l as [|r l IHl]; [done|]. cbn [foldl].
      unfold _refresh at 2. by rewrite Hp1. }
    rewrite Hsame. by apply IH. }
  destruct eventNames as [|n names]; [done|].
  apply Forall_cons in Hall as [Hn _].
  assert (Hfired : fired = _refresh c).
  { unfold fired. rewrite fmap_cons. cbn [foldl]. rewrite (Hfirst n Hn).
    apply Hpending.
    - by apply refresh_keeps_invariant.
    - unfold _refresh. by rewrite Hp. }
  destruct Hinv as (Hl & Hle & Hidle & Hbusy).
  rewrite Hfired. unfold _refresh. rewrite Hp. cbn [scheduled handle].
  rewrite (Hidle Hp). split_and!; [lia|done|].
  unfold refreshJob. cbn [_refreshPending _disposed]. rewrite Hd.
  cbn [andb negb]. unfold OnControl._dataUpdated. cbn.
  by rewrite Hp, Hd, (Hidle Hp).
Qed.

Lemma refreshes_are_batched_witness :
  dataUpdatedCalls
    (handle
       (foldl handle (constructedControl 7 ["b1"])
          [Fired 7 "iteminserted"; Fired 7 "itemchanged"; Fired 7 "reload"])
       (RunJob ["b1"; "b2"]))
  = [["b1"]; ["b1"; "b2"]].
Proof.
  destruct (refreshes_are_batched 7 ["b1"] []
              ["iteminserted"; "itemchanged"; "reload"] ["b1"; "b2"]
              eq_refl eq_refl) as (_ & _ & Hrun).
  - discriminate.
  - repeat (apply Forall_cons; split; [by vm_compute; set_solver|]).
    apply Forall_nil_2.
  - cbn [foldl] in Hrun. cbn [foldl fmap list_fmap] in Hrun.
    exact (f_equal dataUpdatedCalls Hrun).
Defined.

(** X24. A disposed control never refreshes: once [dispose] has run, no
    event of the data and no job of the scheduler calls [_dataUpdated]
    again, a job that was waiting included; a second [dispose] does
    nothing. *)
Theorem disposed_control_never_updates (c : Control)
    (trace : list ControlEvent) :
  controlInvariant c →
  Forall (λ ev, ∀ value, ev ≠ SetData value) trace →
  dataUpdatedCalls (foldl handle (dispose c) trace)
  = dataUpdatedCalls c ∧
  _disposed (foldl handle (dispose c) trace) = true ∧
  dispose (dispose c) = dispose c.
Proof.
  intros Hinv Hall.
  assert (Hgen : ∀ c1, controlInvariant c1 → _disposed c1 = true →
            dataUpdatedCalls (foldl handle c1 trace) = dataUpdatedCalls c1 ∧
            _disposed (foldl handle c1 trace) = true).
  { induction trace as [|ev trace IH]; intros c1 Hinv1 Hd1; [done|].
    apply Forall_cons in Hall as [Hev Hall]. cbn [foldl].
    assert (Hstep : dataUpdatedCalls (handle c1 ev) = dataUpdatedCalls c1 ∧
                    _disposed (handle c1 ev) = true).
    { destruct ev as [value|l eventName|items|]; cbn [handle].
      - by destruct (Hev value).
      - destruct (refreshes_keep_invariant
                    (List.filter (λ r, bool_decide (r = (l, eventName)))
                       (listeners c1)) c1 Hinv1) as (_ & _ & -> & ->).
        done.
      - destruct (scheduled c1); [done|]. unfold refreshJob.
        cbn [_refreshPending _disposed]. rewrite Hd1.
        by rewrite andb_false_r.
      - unfold dispose. by rewrite Hd1. }
    destruct Hstep as [Hcalls Hdis].
    destruct (IH Hall (handle c1 ev)) as [-> ->];
      [by apply handle_keeps_invariant|done|done]. }
  assert (Hdisposed : _disposed (dispose c) = true).
  { unfold dispose. by destruct (_disposed c) eqn:Hd. }
  destruct (Hgen (dispose c)) as [-> ->];
    [by apply (handle_keeps_invariant c Dispose)|done|].
  split_and!; [|done|].
  - unfold dispose. by destruct (_disposed c).
  - unfold dispose at 1. by rewrite Hdisposed.
Qed.

Lemma disposed_control_never_updates_witness :
  dataUpdatedCalls
    (foldl handle
       (dispose (handle (constructedControl 7 ["b1"]) (Fired 7 "reload")))
       [RunJob ["b1"; "b2"]; Fired 7 "reload"; RunJob []])
  = [["b1"]].
Proof.
  destruct (disposed_control_never_updates
              (handle (constructedControl 7 ["b1"]) (Fired 7 "reload"))
              [RunJob ["b1"; "b2"]; Fired 7 "reload"; RunJob []])
    as (Hcalls & _).
  - apply handle_keeps_invariant, constructedControl_invariant.
  - repeat (apply Forall_cons; split; [by intros value|]).
    apply Forall_nil_2.
  - exact Hcalls.
Defined.

(** * Properties of the rendering *)

Lemma legal_cases m :
  isClosedDisplayMode m = true →
  m = "none" ∨ m = "minimal" ∨ m = "compact" ∨ m = "full".
Proof.
  unfold isClosedDisplayMode. intros Hin%bool_decide_eq_true.
  repeat (apply elem_of_cons in Hin as [->|Hin]); auto.
  by apply elem_of_nil in Hin.
Qed.

Lemma legalOrNone_cases o :
  legalOrNone o →
  o = None ∨ o = Some "none" ∨ o = Some "minimal" ∨ o = Some "compact" ∨
  o = Some "full".
Proof.
  destruct o as [m|]; [|by left]. intros H%legal_cases.
  destruct H as [->|[->|[->| ->]]]; auto.
Qed.

Ltac unfold_classes :=
  unfold ClassNames.openedClass, ClassNames.closedClass, ClassNames.noneClass,
    ClassNames.minimalClass, ClassNames.compactClass, ClassNames.fullClass,
    ClassNames.topToBottomClass, ClassNames.bottomToTopClass in *.

Lemma stateClasses_fresh name :
  name ∉ stateClasses →
  name ≠ ClassNames.openedClass ∧ name ≠ ClassNames.closedClass ∧
  name ≠ ClassNames.noneClass ∧ name ≠ ClassNames.minimalClass ∧
  name ≠ ClassNames.compactClass ∧ name ≠ ClassNames.fullClass ∧
  name ≠ ClassNames.topToBottomClass ∧ name ≠ ClassNames.bottomToTopClass.
Proof.
  unfold stateClasses. rewrite !not_elem_of_cons. tauto.
Qed.

Lemma applyOrientation_spec (orientation : option string) (c : gset string) :
  (∀ x, x ≠ ClassNames.topToBottomClass → x ≠ ClassNames.bottomToTopClass →
        x ∈ _applyOrientation orientation c ↔ x ∈ c) ∧
  (ClassNames.bottomToTopClass ∈ _applyOrientation orientation c ↔
   orientation = Some "bottom") ∧
  (ClassNames.topToBottomClass ∈ _applyOrientation orientation c ↔
   orientation ≠ Some "bottom").
Proof.
  unfold _applyOrientation, addClass, removeClass. cbn. unfold_classes.
  destruct orientation as [v|].
  - destruct (String.eqb_spec v "bottom") as [->|Hne].
    + set_solver.
    + assert (Some v ≠ Some "bottom") by congruence.
      destruct (String.eqb v "top"); set_solver.
  - set_solver.
Qed.

Lemma renderOpened_keeps_invariant (rootClasses0 : gset string)
    (isOpened : bool) (orientation : option string) (r : Rendered) :
  renderedInvariant rootClasses0 r →
  let r1 :=
    if bool_decide (renderedOpened r = Some isOpened) then r
    else
      {| classes :=
           if isOpened then
             _applyOrientation orientation
               (addClass
                  (removeClass (classes r) (Some ClassNames.closedClass))
                  (Some ClassNames.openedClass))
           else
             addClass (removeClass (classes r) (Some ClassNames.openedClass))
               (Some ClassNames.closedClass);
         renderedClosedDisplayMode := renderedClosedDisplayMode r;
         renderedOpened := Some isOpened |} in
  renderedInvariant rootClasses0 r1 ∧
  renderedOpened r1 = Some isOpened ∧
  renderedClosedDisplayMode r1 = renderedClosedDisplayMode r.
Proof.
  intros Hinv r1. subst r1.
  destruct (decide (renderedOpened r = Some isOpened)) as [Heq|Hne].
  { by rewrite bool_decide_eq_true_2. }
  rewrite bool_decide_eq_false_2 by done.
  split; [|done].
  destruct Hinv as (Ho & Hc & Hn & Hm & Hk & Hf & Hlegal & Hor & Hframe).
  destruct r as [cls rmode ropened].
  cbn [classes renderedClosedDisplayMode renderedOpened] in *.
  unfold renderedInvariant.
  cbn [classes renderedClosedDisplayMode renderedOpened].
  destruct isOpened.
  - destruct (applyOrientation_spec orientation
                (addClass (removeClass cls (Some ClassNames.closedClass))
                   (Some ClassNames.openedClass))) as (Hother & Hb & Ht).
    assert (Hmem : ∀ x, x ≠ ClassNames.topToBottomClass →
                     x ≠ ClassNames.bottomToTopClass →
                     x ∈ _applyOrientation orientation
                           (addClass
                              (removeClass cls (Some ClassNames.closedClass))
                              (Some ClassNames.openedClass)) ↔
                     (x ∈ cls ∧ x ≠ ClassNames.closedClass) ∨
                     x = ClassNames.openedClass).
    { intros x H1 H2. rewrite (Hother x H1 H2).
      unfold addClass, removeClass. cbn. unfold_classes. set_solver. }
    split_and!.
    + rewrite Hmem by done. naive_solver.
    + rewrite Hmem by done. unfold_classes. naive_solver.
    + rewrite Hmem by done. unfold_classes. naive_solver.
    + rewrite Hmem by done. unfold_classes. naive_solver.
    + rewrite Hmem by done. unfold_classes. naive_solver.
    + rewrite Hmem by done. unfold_classes. naive_solver.
    + done.
    + rewrite Hb, Ht. naive_solver.
    + intros name Hname. pose proof (stateClasses_fresh name Hname)
        as (? & ? & ? & ? & ? & ? & ? & ?).
      rewrite Hmem by done. rewrite <- (Hframe name Hname). naive_solver.
  - assert (Hmem : ∀ x,
              x ∈ addClass (removeClass cls (Some ClassNames.openedClass))
                    (Some ClassNames.closedClass) ↔
              (x ∈ cls ∧ x ≠ ClassNames.openedClass) ∨
              x = ClassNames.closedClass).
    { intros x. unfold addClass, removeClass. cbn. unfold_classes.
      set_solver. }
    split_and!.
    + rewrite Hmem. unfold_classes. naive_solver.
    + rewrite Hmem. naive_solver.
    + rewrite Hmem. unfold_classes. naive_solver.
    + rewrite Hmem. unfold_classes. naive_solver.
    + rewrite Hmem. unfold_classes. naive_solver.
    + rewrite Hmem. unfold_classes. naive_solver.
    + done.
    + rewrite !Hmem. unfold_classes. naive_solver.
    + intros name Hname. pose proof (stateClasses_fresh name Hname)
        as (? & ? & ? & ? & ? & ? & ? & ?).
      rewrite Hmem. rewrite <- (Hframe name Hname). naive_solver.
Qed.

Lemma modeClass_legal (mode : option string) :
  legalOrNone mode →
  closedDisplayModeClassMap mode ≠ InheritedMember ∧
  modeClass mode ≠ Some EmptyString ∧
  (modeClass mode = Some ClassNames.noneClass ↔ mode = Some "none") ∧
  (modeClass mode = Some ClassNames.minimalClass ↔ mode = Some "minimal") ∧
  (modeClass mode = Some ClassNames.compactClass ↔ mode = Some "compact") ∧
  (modeClass mode = Some ClassNames.fullClass ↔ mode = Some "full") ∧
  (∀ name, modeClass mode = Some name →
           name = ClassNames.noneClass ∨ name = ClassNames.minimalClass ∨
           name = ClassNames.compactClass ∨ name = ClassNames.fullClass).
Proof.
  intros Hlegal%legalOrNone_cases.
  destruct Hlegal as [->|[->|[->|[->| ->]]]]; cbn; unfold_classes;
    split_and!; try done; intros name [= <-]; auto.
Qed.

Lemma elem_of_replaceClass (cls : gset string) (old new : option string)
    (x : string) :
  old ≠ Some EmptyString → new ≠ Some EmptyString →
  x ∈ addClass (removeClass cls old) new ↔
  (x ∈ cls ∧ old ≠ Some x) ∨ new = Some x.
Proof.
  intros Hold Hnew. unfold addClass, removeClass.
  destruct old as [a|], new as [b|].
  - destruct (String.eqb_spec a EmptyString) as [->|_]; [done|].
    destruct (String.eqb_spec b EmptyString) as [->|_]; [done|].
    rewrite elem_of_union, elem_of_difference, !elem_of_singleton.
    naive_solver.
  - destruct (String.eqb_spec a EmptyString) as [->|_]; [done|].
    rewrite elem_of_difference, !elem_of_singleton. naive_solver.
  - destruct (String.eqb_spec b EmptyString) as [->|_]; [done|].
    rewrite elem_of_union, !elem_of_singleton. naive_solver.
  - naive_solver.
Qed.

Lemma renderMode_keeps_invariant (rootClasses0 : gset string)
    (mode : option string) (r1 : Rendered) :
  renderedInvariant rootClasses0 r1 →
  legalOrNone mode →
  ∃ r',
    renderClosedDisplayMode mode r1 = (r', true) ∧
    renderedInvariant rootClasses0 r' ∧
    renderedOpened r' = renderedOpened r1 ∧
    renderedClosedDisplayMode r' = mode.
Proof.
  intros Hinv Hmode. unfold renderClosedDisplayMode.
  destruct (decide (renderedClosedDisplayMode r1 = mode)) as [Heq|Hne].
  { rewrite bool_decide_eq_true_2 by done. by exists r1. }
  rewrite bool_decide_eq_false_2 by done.
  destruct Hinv as (Ho & Hc & Hn & Hm & Hk & Hf & Hlegal & Hor & Hframe).
  destruct r1 as [cls rmode ropened].
  cbn [classes renderedClosedDisplayMode renderedOpened] in *.
  destruct (modeClass_legal rmode Hlegal)
    as (Hin1 & He1 & Hn1 & Hm1 & Hk1 & Hf1 & Hc1).
  destruct (modeClass_legal mode Hmode)
    as (Hin2 & He2 & Hn2 & Hm2 & Hk2 & Hf2 & Hc2).
  exists {| classes := addClass (removeClass cls (modeClass rmode))
                         (modeClass mode);
            renderedClosedDisplayMode := mode;
            renderedOpened := ropened |}.
  split; [|split; [|done]].
  { unfold modeClass.
    by destruct (closedDisplayModeClassMap rmode),
                (closedDisplayModeClassMap mode). }
  unfold renderedInvariant.
  cbn [classes renderedClosedDisplayMode renderedOpened].
  assert (Hother : ∀ x,
            x ≠ ClassNames.noneClass → x ≠ ClassNames.minimalClass →
            x ≠ ClassNames.compactClass → x ≠ ClassNames.fullClass →
            x ∈ addClass (removeClass cls (modeClass rmode)) (modeClass mode)
            ↔ x ∈ cls).
  { intros x ? ? ? ?. rewrite elem_of_replaceClass by done. split.
    - intros [[? _]|Hx]; [done|]. apply Hc2 in Hx. naive_solver.
    - intros Hx. left. split; [done|]. intros Hx'%Hc1. naive_solver. }
  split_and!.
  - by rewrite Hother.
  - by rewrite Hother.
  - rewrite elem_of_replaceClass, Hn, Hn1, Hn2 by done. naive_solver.
  - rewrite elem_of_replaceClass, Hm, Hm1, Hm2 by done. naive_solver.
  - rewrite elem_of_replaceClass, Hk, Hk1, Hk2 by done. naive_solver.
  - rewrite elem_of_replaceClass, Hf, Hf1, Hf2 by done. naive_solver.
  - done.
  - by rewrite !Hother.
  - intros name Hname. pose proof (stateClasses_fresh name Hname)
      as (? & ? & ? & ? & ? & ? & ? & ?).
    rewrite Hother by done. by apply Hframe.
Qed.

Lemma render_keeps_invariant (rootClasses0 : gset string) (isOpened : bool)
    (orientation mode : option string) (r : Rendered) :
  renderedInvariant rootClasses0 r →
  legalOrNone mode →
  ∃ r',
    _updateDomImpl_renderDisplayMode isOpened orientation mode r
    = (r', true) ∧
    renderedInvariant rootClasses0 r' ∧
    renderedOpened r' = Some isOpened ∧
    renderedClosedDisplayMode r' = mode.
Proof.
  intros Hinv Hmode. unfold _updateDomImpl_renderDisplayMode.
  destruct (renderOpened_keeps_invariant rootClasses0 isOpened orientation r
              Hinv) as (Hinv1 & Hopened & _).
  cbv zeta in Hinv1, Hopened.
  destruct (renderMode_keeps_invariant rootClasses0 mode _ Hinv1 Hmode)
    as (r' & Hr' & Hinv' & Ho' & Hm').
  exists r'. split_and!; [exact Hr'|done| |done].
  by rewrite Ho'.
Qed.

Lemma truthyProperty_ClosedDisplayMode value :
  truthyProperty ClosedDisplayMode value = true →
  value ∉ ObjectPrototype →
  isClosedDisplayMode value = true.
Proof.
  unfold truthyProperty, ClosedDisplayMode, isClosedDisplayMode.
  cbn [ownProperty]. intros Htruthy Hproto.
  apply bool_decide_eq_true.
  destruct (String.eqb_spec "none" value) as [Heq|_];
    [rewrite <- Heq; set_solver|].
  destruct (String.eqb_spec "minimal" value) as [Heq|_];
    [rewrite <- Heq; set_solver|].
  destruct (String.eqb_spec "compact" value) as [Heq|_];
    [rewrite <- Heq; set_solver|].
  destruct (String.eqb_spec "full" value) as [Heq|_];
    [rewrite <- Heq; set_solver|].
  by apply bool_decide_eq_true in Htruthy.
Qed.

Lemma onDisplayEvent_keeps_invariant rootClasses0 st ev :
  displayInvariant rootClasses0 st →
  (∀ value, ev = AssignClosedDisplayMode value → value ∉ ObjectPrototype) →
  displayInvariant rootClasses0 (onDisplayEvent st ev).
Proof.
  intros [Hr Hmode] Hev. destruct ev as [isShown|value|value|];
    cbn [onDisplayEvent].
  - done.
  - done.
  - split; [done|]. cbn [closedDisplayModeNow].
    destruct (truthyProperty ClosedDisplayMode value) eqn:Htruthy;
      cbn [andb]; [|done].
    destruct (negb _); [|done]. cbn [legalOrNone].
    apply truthyProperty_ClosedDisplayMode; [done|by apply Hev].
  - destruct (render_keeps_invariant rootClasses0 (_isOpenedMode st)
                (_orientation st) (closedDisplayModeNow st) (rendered st)
                Hr Hmode) as (r' & -> & Hr' & _ & _).
    by split.
Qed.

Lemma initialDisplayState_invariant rootClasses0 :
  (∀ name, name ∈ stateClasses → name ∉ rootClasses0) →
  displayInvariant rootClasses0 (initialDisplayState rootClasses0).
Proof.
  intros Hfresh. split; [|done]. unfold renderedInvariant. cbn.
  assert (Hno : ∀ name, name ∈ stateClasses →
                  name ∈ rootClasses0 ↔ False).
  { intros name Hname. split; [by apply Hfresh|done]. }
  split_and!; try done;
    try (rewrite Hno; [naive_solver|unfold stateClasses; set_solver]).
Qed.

(** The names of the members of [Object.prototype] are set apart below.
    The setter takes such a name; the next rendering removes the class of
    the rendered mode and throws; once the former mode is assigned again
    nothing is rendered, and the root is left without the class of its
    mode. *)
Lemma inherited_mode_loses_the_class :
  let st :=
    foldl onDisplayEvent (initialDisplayState ∅)
      [AssignClosedDisplayMode "compact"; RenderDisplayMode;
       AssignClosedDisplayMode "__proto__"; RenderDisplayMode;
       AssignClosedDisplayMode "compact"; RenderDisplayMode] in
  closedDisplayModeNow st = Some "compact" ∧
  renderedClosedDisplayMode (rendered st) = Some "compact" ∧
  ClassNames.compactClass ∉ classes (rendered st).
Proof.
  split_and!; [reflexivity..|].
  apply (bool_decide_unpack _). vm_compute. exact I.
Qed.

(** X25. However the opened mode and the closed display mode have changed,
    and however often the root was rendered in between, after
    [_updateDomImpl_renderDisplayMode] the class list of the root tells
    the state: the opened class is present exactly when the surface is in
    opened mode and the closed class exactly when it is not; of the four
    classes of the closed display modes exactly the one of the current
    mode is present; the two orientation classes are never both present;
    and no other class of the root has changed. *)
Theorem rendering_reflects_the_state (rootClasses0 : gset string)
    (trace : list DisplayEvent) :
  (∀ name, name ∈ stateClasses → name ∉ rootClasses0) →
  Forall (λ ev, ∀ value, ev = AssignClosedDisplayMode value →
                value ∉ ObjectPrototype) trace →
  let st :=
    onDisplayEvent (foldl onDisplayEvent (initialDisplayState rootClasses0)
                      trace) RenderDisplayMode in
  let cls := classes (rendered st) in
  (ClassNames.openedClass ∈ cls ↔ _isOpenedMode st = true) ∧
  (ClassNames.closedClass ∈ cls ↔ _isOpenedMode st = false) ∧
  (∀ mode, isClosedDisplayMode mode = true →
     (closedDisplayModeClass mode ∈ cls ↔
      closedDisplayModeNow st = Some mode)) ∧
  ¬ (ClassNames.topToBottomClass ∈ cls ∧
     ClassNames.bottomToTopClass ∈ cls) ∧
  (∀ name, name ∉ stateClasses → (name ∈ cls ↔ name ∈ rootClasses0)).
Proof.
  intros Hfresh Hall.
  assert (Hinv : displayInvariant rootClasses0
                   (foldl onDisplayEvent (initialDisplayState rootClasses0)
                      trace)).
  { generalize (initialDisplayState_invariant rootClasses0 Hfresh).
    generalize (initialDisplayState rootClasses0).
    induction trace as [|ev trace IH]; intros st0 Hst0; [done|].
    apply Forall_cons in Hall as [Hev Hall]. cbn [foldl].
    apply IH; [done|]. by apply onDisplayEvent_keeps_invariant. }
  set (st0 := foldl onDisplayEvent (initialDisplayState rootClasses0) trace)
    in *.
  destruct Hinv as [Hr Hmode].
  destruct (render_keeps_invariant rootClasses0 (_isOpenedMode st0)
              (_orientation st0) (closedDisplayModeNow st0) (rendered st0)
              Hr Hmode) as (r' & Hrender & Hr' & Hopened & Hrmode).
  cbn [onDisplayEvent]. rewrite Hrender.
  cbn [rendered _isOpenedMode closedDisplayModeNow].
  destruct Hr' as (Ho & Hc & Hn & Hm & Hk & Hf & _ & Hor & Hframe).
  rewrite Hopened in Ho, Hc. rewrite Hrmode in Hn, Hm, Hk, Hf.
  split_and!.
  - rewrite Ho. split; [by intros [= ->]|by intros ->].
  - rewrite Hc. split; [by intros [= ->]|by intros ->].
  - intros mode Hlegal%legal_cases.
    by destruct Hlegal as [->|[->|[->| ->]]].
  - done.
  - done.
Qed.

Lemma rendering_reflects_the_state_witness :
  let st :=
    onDisplayEvent
      (foldl onDisplayEvent (initialDisplayState ∅)
         [AssignClosedDisplayMode "compact"; OpenedMode true;
          RenderDisplayMode; AssignClosedDisplayMode "full";
          OpenedMode false]) RenderDisplayMode in
  ClassNames.closedClass ∈ classes (rendered st) ∧
  ClassNames.fullClass ∈ classes (rendered st) ∧
  ClassNames.compactClass ∉ classes (rendered st).
Proof.
  intros st.
  destruct (rendering_reflects_the_state ∅
              [AssignClosedDisplayMode "compact"; OpenedMode true;
               RenderDisplayMode; AssignClosedDisplayMode "full";
               OpenedMode false])
    as (_ & Hclosed & Hmode & _).
  - intros name _. apply not_elem_of_empty.
  - repeat (apply Forall_cons; split;
            [intros value Hev; try discriminate Hev; injection Hev as <-;
             apply (bool_decide_unpack _); vm_compute; exact I|]).
    apply Forall_nil_2.
  - split_and!.
    + apply Hclosed. reflexivity.
    + apply (Hmode "full"); reflexivity.
    + intros Hin. apply (Hmode "compact") in Hin; [|reflexivity].
      discriminate Hin.
Defined.

(** X26. The [orientation] property takes each of the three names of
    [Orientation] and each name of a member of [Object.prototype], the
    name [__proto__] among them, and ignores every other name. Applied
    to the root, an orientation leaves exactly one of the two orientation
    classes: bottom-to-top for the value bottom, top-to-bottom for every
    other value, auto and undefined included. No other class changes. *)
Theorem orientation_renders_top_unless_bottom (_orientation : option string)
    (value : string) (cls : gset string) :
  let orientation := set_orientation value _orientation in
  let cls' := _applyOrientation orientation cls in
  (value ∈ ["bottom"; "top"; "auto"] → orientation = Some value) ∧
  (value ∈ ObjectPrototype → orientation = Some value) ∧
  (value ∉ ["bottom"; "top"; "auto"] → value ∉ ObjectPrototype →
   orientation = _orientation) ∧
  (ClassNames.bottomToTopClass ∈ cls' ↔ orientation = Some "bottom") ∧
  (ClassNames.topToBottomClass ∈ cls' ↔ orientation ≠ Some "bottom") ∧
  (∀ name, name ≠ ClassNames.topToBottomClass →
           name ≠ ClassNames.bottomToTopClass →
           (name ∈ cls' ↔ name ∈ cls)).
Proof.
  intros orientation cls'.
  destruct (applyOrientation_spec orientation cls) as (Hother & Hb & Ht).
  split_and!; [| | |done..].
  - intros Hin. unfold orientation, set_orientation.
    destruct (decide (Some value = _orientation)) as [<-|Hne].
    + by destruct (truthyProperty Orientation value && _).
    + rewrite (bool_decide_eq_false_2 _ Hne).
      repeat (apply elem_of_cons in Hin as [->|Hin]); try done.
      by apply elem_of_nil in Hin.
  - intros Hin. unfold orientation, set_orientation.
    destruct (decide (Some value = _orientation)) as [<-|Hne].
    + by destruct (truthyProperty Orientation value && _).
    + rewrite (bool_decide_eq_false_2 _ Hne).
      repeat (apply elem_of_cons in Hin as [->|Hin]); try done.
      by apply elem_of_nil in Hin.
  - intros Hown Hproto. unfold orientation, set_orientation, truthyProperty,
      Orientation. cbn [ownProperty].
    rewrite !not_elem_of_cons in Hown. destruct Hown as (? & ? & ? & _).
    destruct (String.eqb_spec "bottom" value); [done|].
    destruct (String.eqb_spec "top" value); [done|].
    destruct (String.eqb_spec "auto" value); [done|].
    by rewrite (bool_decide_eq_false_2 _ Hproto).
Qed.

Lemma orientation_renders_top_unless_bottom_witness :
  set_orientation "auto" (Some "bottom") = Some "auto" ∧
  ClassNames.topToBottomClass ∈
    _applyOrientation (set_orientation "auto" (Some "bottom"))
      {[ClassNames.bottomToTopClass]} ∧
  ClassNames.bottomToTopClass ∉
    _applyOrientation (set_orientation "auto" (Some "bottom"))
      {[ClassNames.bottomToTopClass]}.
Proof.
  destruct (orientation_renders_top_unless_bottom (Some "bottom") "auto"
              {[ClassNames.bottomToTopClass]})
    as (Haccepted & _ & _ & Hbottom & Htop & _).
  split_and!.
  - apply Haccepted. apply list_elem_of_further, list_elem_of_further,
      list_elem_of_here.
  - apply Htop. discriminate.
  - intros Hin. apply Hbottom in Hin. discriminate Hin.
Defined.

(** * Further properties of [forceLayout] and of [closedDisplayMode] *)

(** X12. [forceLayout] on an idle surface asks for a new measurement, not
    for the data to be processed again. On a host that can be measured
    the run measures and lays out, against the new snapshot; on a host
    that cannot, the run stops at the measuring stage, keeps the old
    snapshot and leaves the measurement pending for a later run. *)
Theorem forceLayout_measures_again (d : Dom) (s : Surface) :
  _nextLayoutStage s = idle →
  if canMeasure d then
    ∃ m s',
      _measure d s = (setCachedMeasurements m s, true) ∧
      _updateDomImpl_updateCommands pipelineFuel d (forceLayout s)
      = Some (Normal (s', [(measuringStage, true); (layoutStage, true)])) ∧
      _layoutCommands (setCachedMeasurements m s) = Normal (s', true) ∧
      _nextLayoutStage s' = idle
  else
    _updateDomImpl_updateCommands pipelineFuel d (forceLayout s)
    = Some (Normal (forceLayout s, [(measuringStage, false)])) ∧
    _nextLayoutStage (forceLayout s) = measuringStage ∧
    _cachedMeasurements (forceLayout s) = _cachedMeasurements s.
Proof.
  intros H0.
  assert (Hforce : forceLayout s = setNextLayoutStage measuringStage s).
  { unfold forceLayout, _meaurementsDirty. by rewrite H0. }
  rewrite Hforce.
  destruct (canMeasure d) eqn:Hc.
  - destruct (measure_succeeds d s Hc) as [m Hm]. exists m.
    destruct (layoutCommands_Normal (setCachedMeasurements m s) m eq_refl)
      as (s2 & Hl2 & Hstage & _).
    exists s2. split_and!; [done| |done|].
    + destruct (run_measuring_completes d
                  (setNextLayoutStage measuringStage s) eq_refl Hc)
        as (s1 & Hl1 & ->).
      rewrite measure_setNextLayoutStage, Hm in Hl1. cbn [fst] in Hl1.
      rewrite layoutCommands_setNextLayoutStage, Hl2 in Hl1.
      injection Hl1 as <-.
      change (setNextLayoutStage idle (setNextLayoutStage measuringStage s2))
        with (setNextLayoutStage idle s2).
      change (_nextLayoutStage (setCachedMeasurements m s))
        with (_nextLayoutStage s) in Hstage.
      by rewrite <- H0, <- Hstage, setNextLayoutStage_id.
    + change (_nextLayoutStage (setCachedMeasurements m s))
        with (_nextLayoutStage s) in Hstage. by rewrite Hstage.
  - split_and!; [|done..].
    by rewrite (run_measuring_parks d (setNextLayoutStage measuringStage s)
                  eq_refl Hc).
Qed.

Lemma forceLayout_measures_again_witness :
  _updateDomImpl_updateCommands pipelineFuel Sample.detached
    (forceLayout (sampleSurface 200))
  = Some (Normal (forceLayout (sampleSurface 200), [(measuringStage, false)])) ∧
  _cachedMeasurements (forceLayout (sampleSurface 200))
  = Some (Sample.snapshot 200).
Proof.
  destruct (forceLayout_measures_again Sample.detached (sampleSurface 200)
              eq_refl) as (Hrun & _ & Hcache).
  split; [exact Hrun | exact Hcache].
Defined.

(** X17. Assigning one of the four closed display modes: the mode reads
    back after the assignment; a rendering is asked for exactly when the
    mode differs from the one the surface had; assigning it a second time
    changes nothing and asks for nothing; and the commands, the pending
    stage and the snapshot are left alone. *)
Theorem closedDisplayMode_reads_back (value : string) (s : Surface) :
  isClosedDisplayMode value = true →
  let s' := (set_closedDisplayMode value s).1 in
  get_closedDisplayMode s' = Some value ∧
  ((set_closedDisplayMode value s).2 = true ↔
   get_closedDisplayMode s ≠ Some value) ∧
  set_closedDisplayMode value s' = (s', false) ∧
  _primaryCommands s' = _primaryCommands s ∧
  _secondaryCommands s' = _secondaryCommands s ∧
  _nextLayoutStage s' = _nextLayoutStage s ∧
  _cachedMeasurements s' = _cachedMeasurements s.
Proof.
  intros Hlegal s'.
  assert (Hback : get_closedDisplayMode s' = Some value)
    by by apply closedDisplayMode_roundtrip.
  split_and!.
  - done.
  - unfold get_closedDisplayMode.
    destruct (decide (_closedDisplayMode s = Some value)) as [Heq|Hne].
    + rewrite (closedDisplayMode_unchanged value s Heq). cbn [snd].
      split; [done|]. by intros Hne.
    + split; [done|]. intros _. unfold set_closedDisplayMode.
      rewrite (bool_decide_eq_false_2 (Some value = _closedDisplayMode s))
        by congruence.
      assert (Htruthy : truthyProperty ClosedDisplayMode value = true).
      { apply legal_cases in Hlegal. by destruct Hlegal as [->|[->|[->| ->]]]. }
      by rewrite Htruthy.
  - by apply closedDisplayMode_unchanged.
  - unfold s', set_closedDisplayMode. by destruct (_ && _).
  - unfold s', set_closedDisplayMode. by destruct (_ && _).
  - unfold s', set_closedDisplayMode. by destruct (_ && _).
  - unfold s', set_closedDisplayMode. by destruct (_ && _).
Qed.

Lemma closedDisplayMode_reads_back_witness :
  get_closedDisplayMode (set_closedDisplayMode "full" (sampleSurface 200)).1
  = Some "full" ∧
  (set_closedDisplayMode "full" (sampleSurface 200)).2 = true.
Proof.
  destruct (closedDisplayMode_reads_back "full" (sampleSurface 200) eq_refl)
    as (Hback & Hrender & _).
  split; [exact Hback|]. apply Hrender. discriminate.
Defined.
